(** * FoilPriceTracker: price extraction and trigger evaluation

    A shallow embedding of [price_tracker.py] and the properties its
    specification states about it.

    Conventions of the embedding.
    - A Python [str] is a [string]; the model covers ASCII text, so the
      classes [\d], [\s] and the [re.I] flag are the ASCII ones.
    - A Python [float] is an exact rational [Q]; rounding, infinities and
      NaN are outside the model.  [float(token)] yields the reduced
      fraction of the decimal token.  The samples of [pct_drop] are
      evaluated in binary64 arithmetic as well.
    - [None] is [None]; a function that may raise returns a [result].
    - The [re] module is modelled by a small backtracking matcher over
      the syntax of the patterns found in the source. *)

From Stdlib Require Import String Ascii List ZArith QArith Qreduction Bool Lia Lqa.
From Stdlib Require Import Floats.
From stdpp Require Import base option list gmap strings sorting.

Local Set Warnings "-register-all".
Local Open Scope Z_scope.
Local Open Scope stdpp_scope.

(* ===================================================================== *)
(** ** Characters and strings *)
(* ===================================================================== *)

Definition code (c : ascii) : N := N_of_ascii c.

Definition dquote : ascii := ascii_of_N 34.
Definition squote : ascii := ascii_of_N 39.

Definition is_digit (c : ascii) : bool :=
  (48 <=? code c)%N && (code c <=? 57)%N.

(** [\s] on ASCII text: tab, line feed, vertical tab, form feed, carriage
    return, the four separators 28..31 and the space. *)
Definition is_space (c : ascii) : bool :=
  ((9 <=? code c)%N && (code c <=? 13)%N)
  || ((28 <=? code c)%N && (code c <=? 32)%N).

Definition is_upper (c : ascii) : bool :=
  (65 <=? code c)%N && (code c <=? 90)%N.

Definition lower_char (c : ascii) : ascii :=
  if is_upper c then ascii_of_N (code c + 32) else c.

(** [str.lower()] *)
Fixpoint lower (s : string) : string :=
  match s with
  | EmptyString => EmptyString
  | String c s' => String (lower_char c) (lower s')
  end.

Definition ascii_eqb (a b : ascii) : bool := Ascii.eqb a b.

Fixpoint str_filter (p : ascii -> bool) (s : string) : string :=
  match s with
  | EmptyString => EmptyString
  | String c s' => if p c then String c (str_filter p s') else str_filter p s'
  end.

Fixpoint str_take (n : nat) (s : string) : string :=
  match n, s with
  | S n', String c s' => String c (str_take n' s')
  | _, _ => EmptyString
  end.

(** The text consumed between two suffixes of the same string. *)
Definition consumed (s rest : string) : string :=
  str_take (String.length s - String.length rest) s.

(** [s.startswith(p)] *)
Fixpoint startswith (p s : string) : bool :=
  match p, s with
  | EmptyString, _ => true
  | String a p', String b s' => ascii_eqb a b && startswith p' s'
  | String _ _, EmptyString => false
  end.

(** [k in s] on strings: [k] occurs as a substring of [s]. *)
Fixpoint str_in (k s : string) : bool :=
  startswith k s ||
  match s with
  | EmptyString => false
  | String _ s' => str_in k s'
  end.

(** [s.rfind(c)] for a one-character needle: the index of the last
    occurrence, or -1. *)
Fixpoint rfind_from (i : Z) (c : ascii) (s : string) (found : Z) : Z :=
  match s with
  | EmptyString => found
  | String a s' => rfind_from (i + 1) c s' (if ascii_eqb a c then i else found)
  end.

Definition rfind (c : ascii) (s : string) : Z := rfind_from 0 c s (-1).

(** [s.replace(a, b)] for one-character [a] and [b], and [s.replace(a, b)]
    with [b] empty. *)
Fixpoint replace_char (a b : ascii) (s : string) : string :=
  match s with
  | EmptyString => EmptyString
  | String c s' => String (if ascii_eqb c a then b else c) (replace_char a b s')
  end.

Definition remove_char (a : ascii) (s : string) : string :=
  str_filter (fun c => negb (ascii_eqb c a)) s.

(* ===================================================================== *)
(** ** The regular expressions of the source *)
(* ===================================================================== *)

Module Re.

(** Pattern syntax: what the patterns of the source are built from.
    [Group] is the capturing group number 1; [(?:...)] needs no node. *)
Inductive regex : Type :=
| Chr (p : ascii -> bool)
| Eps
| Seq (r1 r2 : regex)
| Alt (r1 r2 : regex)
| Star (r : regex)
| Lazy (r : regex)
| Group (r : regex).

Definition Plus (r : regex) : regex := Seq r (Star r).
Definition Opt (r : regex) : regex := Alt r Eps.

Definition ch (c : ascii) : regex := Chr (ascii_eqb c).
Definition ch_ci (c : ascii) : regex :=
  Chr (fun x => ascii_eqb (lower_char x) (lower_char c)).
Definition any : regex := Chr (fun _ => true).
Definition one_of (cs : list ascii) : regex :=
  Chr (fun x => existsb (ascii_eqb x) cs).
Definition none_of (cs : list ascii) : regex :=
  Chr (fun x => negb (existsb (ascii_eqb x) cs)).

Fixpoint lit (s : string) : regex :=
  match s with
  | EmptyString => Eps
  | String c s' => Seq (ch c) (lit s')
  end.

Fixpoint lit_ci (s : string) : regex :=
  match s with
  | EmptyString => Eps
  | String c s' => Seq (ch_ci c) (lit_ci s')
  end.

Section Matcher.
Context {A : Type}.

(** The continuation of a match: the rest of the input and the text
    of group 1 so far. *)
Definition cont : Type := string -> option string -> option A.

(** One more iteration of a starred body has to consume input. *)
Definition progress (s : string) (k : cont) : cont :=
  fun s' g' =>
    if (String.length s' <? String.length s)%nat then k s' g' else None.

(** Greedy star: one more iteration first, then leave. *)
Fixpoint star_loop (body : string -> option string -> cont -> option A)
         (k : cont) (n : nat) (s : string) (g : option string) : option A :=
  match n with
  | O => k s g
  | S n' =>
      match body s g (progress s (star_loop body k n')) with
      | Some x => Some x
      | None => k s g
      end
  end.

(** Lazy star: leave first, then one more iteration. *)
Fixpoint lazy_loop (body : string -> option string -> cont -> option A)
         (k : cont) (n : nat) (s : string) (g : option string) : option A :=
  match n with
  | O => k s g
  | S n' =>
      match k s g with
      | Some x => Some x
      | None => body s g (progress s (lazy_loop body k n'))
      end
  end.

(** Backtracking match of [r] at the head of [s], in continuation
    style; alternatives are tried in the order of [re]. *)
Fixpoint run (r : regex) (s : string) (g : option string) (k : cont)
  : option A :=
  match r with
  | Chr p =>
      match s with
      | String c s' => if p c then k s' g else None
      | EmptyString => None
      end
  | Eps => k s g
  | Seq a b => run a s g (fun s' g' => run b s' g' k)
  | Alt a b =>
      match run a s g k with
      | Some x => Some x
      | None => run b s g k
      end
  | Star a => star_loop (run a) k (String.length s) s g
  | Lazy a => lazy_loop (run a) k (String.length s) s g
  | Group a => run a s g (fun s' _ => k s' (Some (consumed s s')))
  end.
End Matcher.

(** A match: the whole matched text (group 0), group 1 when it took
    part, and the input after the match. *)
Record found : Type := Found
  { group0 : string; group1 : option string; after : string }.

Definition match_at (r : regex) (s : string) : option found :=
  run r s None (fun s' g => Some (Found (consumed s s') g s')).

(** [re.search]: the leftmost match. *)
Fixpoint search (r : regex) (s : string) : option found :=
  match match_at r s with
  | Some m => Some m
  | None =>
      match s with
      | EmptyString => None
      | String _ s' => search r s'
      end
  end.

(** [re.finditer]: the successive non-overlapping matches, each search
    starting where the previous match ended.  Every pattern of the
    source matches at least one character. *)
Fixpoint finditer_fuel (fuel : nat) (r : regex) (s : string) : list found :=
  match fuel with
  | O => []
  | S fuel' =>
      match search r s with
      | None => []
      | Some m =>
          m :: (if (String.length (after m) <? String.length s)%nat
                then finditer_fuel fuel' r (after m) else [])
      end
  end.

Definition finditer (r : regex) (s : string) : list found :=
  finditer_fuel (String.length s) r s.

End Re.

(* ===================================================================== *)
(** ** Numbers *)
(* ===================================================================== *)

Definition digit_val (c : ascii) : Z := Z.of_N (code c) - 48.

Fixpoint digits_val (acc : Z) (s : string) : Z :=
  match s with
  | EmptyString => acc
  | String c s' => digits_val (acc * 10 + digit_val c) s'
  end.

Fixpoint take_digits (s : string) : string :=
  match s with
  | String c s' => if is_digit c then String c (take_digits s') else EmptyString
  | EmptyString => EmptyString
  end.

Fixpoint drop_digits (s : string) : string :=
  match s with
  | String c s' => if is_digit c then drop_digits s' else s
  | EmptyString => EmptyString
  end.

Fixpoint pow10 (n : nat) : positive :=
  match n with
  | O => 1%positive
  | S n' => (10 * pow10 n')%positive
  end.

(** [float(tok)] for a token [digits] or [digits.digits]. *)
Definition float_of_token (tok : string) : Q :=
  let ip := take_digits tok in
  let fp := match drop_digits tok with
            | String _ f => take_digits f
            | EmptyString => EmptyString
            end in
  Qred (Qmake (digits_val (digits_val 0 ip) fp)
              (pow10 (String.length fp))).

Definition Qltb (x y : Q) : bool := negb (Qle_bool y x).

(* ===================================================================== *)
(** ** Utilities of the tracker *)
(* ===================================================================== *)

Definition is_empty (s : string) : bool :=
  match s with EmptyString => true | String _ _ => false end.

(** The class [[^\d.,]] of [extract_price_number]. *)
Definition not_price_char (c : ascii) : bool :=
  negb (is_digit c || ascii_eqb c "." || ascii_eqb c ",").

(** [re.sub(cls, empty, text)] for a one-character class: every
    character of the class is deleted. *)
Definition re_sub_delete (cls : ascii -> bool) (text : string) : string :=
  str_filter (fun c => negb (cls c)) text.

(** [\d+(?:\.\d+)?] *)
Definition number_re : Re.regex :=
  Re.Seq (Re.Plus (Re.Chr is_digit))
         (Re.Opt (Re.Seq (Re.ch ".") (Re.Plus (Re.Chr is_digit)))).

Definition extract_price_number (text : string) : option Q :=
  if is_empty text then None else
  let cleaned := re_sub_delete not_price_char text in
  if is_empty cleaned then None else
  let last_dot := rfind "." cleaned in
  let last_comma := rfind "," cleaned in
  let main :=
    if last_comma >? last_dot
    then replace_char "," "." (remove_char "." cleaned)
    else remove_char "," cleaned in
  match Re.search number_re main with
  | Some m => Some (float_of_token (Re.group0 m))
  | None => None
  end.

Definition pct_drop (old new : Q) : Q :=
  if Qle_bool old 0 then 0 else ((old - new) / old) * 100.

(** [pct_drop] on binary64 floats, for the evaluation of samples. *)
Definition pct_drop64 (old new : float) : float :=
  if PrimFloat.leb old 0 then 0%float else ((old - new) / old * 100)%float.

Fixpoint seqs (rs : list Re.regex) : Re.regex :=
  match rs with
  | [] => Re.Eps
  | r :: rs' => Re.Seq r (seqs rs')
  end.

Definition quote : Re.regex := Re.one_of [dquote; squote].

(** The patterns below are quoted with [Q] for the class of the two
    quote characters and [D] for the double quote.

    [<script[^>]+type=Qapplication/ld\+jsonQ[^>]*>(.*?)</script>] with
    the flags [re.S | re.I]. *)
Definition jsonld_script_re : Re.regex :=
  seqs [ Re.lit_ci "<script"; Re.Plus (Re.none_of [">"%char]);
         Re.lit_ci "type="; quote; Re.lit_ci "application/ld+json"; quote;
         Re.Star (Re.none_of [">"%char]); Re.ch ">";
         Re.Group (Re.Lazy Re.any); Re.lit_ci "</script>" ].

(** [DkD\s*:\s*D?G1D?] where the group [G1] is [[0-9][0-9\.,]*];
    case-sensitive. *)
Definition jsonld_key_re (k : string) : Re.regex :=
  seqs [ Re.ch dquote; Re.lit k; Re.ch dquote;
         Re.Star (Re.Chr is_space); Re.ch ":"; Re.Star (Re.Chr is_space);
         Re.Opt (Re.ch dquote);
         Re.Group (Re.Seq (Re.Chr is_digit)
                     (Re.Star (Re.Chr (fun c => is_digit c || ascii_eqb c "."
                                                 || ascii_eqb c ","))));
         Re.Opt (Re.ch dquote) ].

Definition jsonld_keys : list string := ["price"; "lowPrice"; "highPrice"].

Definition group1_text (m : Re.found) : string :=
  match Re.group1 m with Some g => g | None => EmptyString end.

(** The prices one pattern finds in a blob, in order of occurrence. *)
Definition key_prices (blob k : string) : list Q :=
  omap (fun pm => extract_price_number (group1_text pm))
       (Re.finditer (jsonld_key_re k) blob).

Definition blob_prices (blob : string) : list Q :=
  flat_map (key_prices blob) jsonld_keys.

Definition jsonld_prices (text : string) : list Q :=
  flat_map (fun m => blob_prices (group1_text m))
           (Re.finditer jsonld_script_re text).

(** [property=Qproduct:price:amountQ[^>]*content=Q([^Q]+)Q], [re.I] *)
Definition og_re : Re.regex :=
  seqs [ Re.lit_ci "property="; quote; Re.lit_ci "product:price:amount"; quote;
         Re.Star (Re.none_of [">"%char]); Re.lit_ci "content="; quote;
         Re.Group (Re.Plus (Re.none_of [dquote; squote])); quote ].

(** [name=Qtwitter:data1Q[^>]*content=Q([^Q]+)Q], [re.I] *)
Definition twitter_re : Re.regex :=
  seqs [ Re.lit_ci "name="; quote; Re.lit_ci "twitter:data1"; quote;
         Re.Star (Re.none_of [">"%char]); Re.lit_ci "content="; quote;
         Re.Group (Re.Plus (Re.none_of [dquote; squote])); quote ].

Definition og_price (text : string) : option Q :=
  let m := match Re.search og_re text with
           | Some m => Some m
           | None => Re.search twitter_re text
           end in
  match m with
  | Some m => extract_price_number (group1_text m)
  | None => None
  end.

(** [min(ps)] on a non-empty list: the first smallest element. *)
Definition py_min (p : Q) (ps : list Q) : Q :=
  fold_left (fun m x => if Qltb x m then x else m) ps p.

(** [min([p for p in jl if p > 0]) if any(p > 0 for p in jl) else None] *)
Definition min_positive (jl : list Q) : option Q :=
  match filter (fun p => Is_true (Qltb 0 p)) jl with
  | p :: ps => Some (py_min p ps)
  | [] => None
  end.

(** [s.lstrip()], [s.rstrip()] and [s.strip()] *)
Fixpoint lstrip (s : string) : string :=
  match s with
  | String c s' => if is_space c then lstrip s' else s
  | EmptyString => EmptyString
  end.

Fixpoint rstrip (s : string) : string :=
  match s with
  | String c s' =>
      let r := rstrip s' in
      if is_empty r && is_space c then EmptyString else String c r
  | EmptyString => EmptyString
  end.

Definition strip (s : string) : string := rstrip (lstrip s).

(** Truthiness of an optional configuration value. *)
Definition truthy_str (o : option string) : option string :=
  match o with
  | Some s => if is_empty s then None else Some s
  | None => None
  end.

Definition truthy_num (o : option Q) : option Q :=
  match o with
  | Some x => if Qeq_bool x 0 then None else Some x
  | None => None
  end.

Definition nonempty {A : Type} (l : list A) : bool :=
  match l with [] => false | _ :: _ => true end.

Definition text_ok (s : string) (includes excludes : list string) : bool :=
  let S := lower s in
  if nonempty includes && negb (forallb (fun k => str_in (lower k) S) includes)
  then false
  else if nonempty excludes && existsb (fun k => str_in (lower k) S) excludes
  then false
  else true.

(* ===================================================================== *)
(** ** Configuration, ledger and effects *)
(* ===================================================================== *)

Inductive result (A : Type) : Type :=
| Ok (a : A)
| Raise (e : string).
Arguments Ok {A} a.
Arguments Raise {A} e.

(** An entry of [products] in the configuration.  [p_baseline] is the
    value of [baseline] when it is a number, [None] otherwise. *)
Record Product : Type := {
  p_id : option string;
  p_name : option string;
  p_url : string;
  p_price_regex : option string;
  p_selector : option string;
  p_attr : option string;
  p_drop_percent : option Q;
  p_baseline : option Q;
  p_user_agent : option string;
  p_timeout : option Z
}.

(** An entry of [searches] in the configuration. *)
Record Search : Type := {
  s_id : option string;
  s_name : option string;
  s_url : string;
  s_item_selector : option string;
  s_title_selector : option string;
  s_price_selector : option string;
  s_url_selector : option string;
  s_include_keywords : list string;
  s_exclude_keywords : list string;
  s_alert_below : option Q;
  s_alert_percent_below_msrp : option Q;
  s_user_agent : option string;
  s_timeout : option Z
}.

(** The configuration.  [c_smtp_ok] tells whether the [smtp] block is
    there with all its fields, which is all [main] asks of it. *)
Record Config : Type := {
  c_default_drop_percent : option Q;
  c_msrp : option Q;
  c_smtp_ok : bool;
  c_products : list Product;
  c_searches : list Search
}.

(** The ledger of [prices_state.json].  An entry is a dictionary: each
    key may be absent; an absent [history] or [seen] reads as the empty
    list. *)
Record ProductEntry : Type := {
  baseline : option Q;
  history : list (Z * Q);
  last_price : option Q;
  e_url : option string;
  e_name : option string
}.

Definition empty_entry : ProductEntry :=
  {| baseline := None; history := []; last_price := None;
     e_url := None; e_name := None |}.

Record SearchEntry : Type := { seen : list string }.

Definition empty_search_entry : SearchEntry := {| seen := [] |}.

Record State : Type := {
  products : gmap string ProductEntry;
  searches : gmap string SearchEntry
}.

(** A used listing: title, url and price. *)
Definition Item : Type := string * string * option Q.

Inductive Reason : Type :=
| BelowCeiling (ceiling : Q)
| BelowMsrp (drop : Q).

Record Match : Type := {
  m_title : string; m_url : string; m_price : option Q; m_reason : Reason
}.

(** The content of an alert; the rendering of subject and body is left
    out. *)
Inductive Payload : Type :=
| RetailDrop (name url : string) (price base drop_now drop_needed : Q)
| UsedFinds (name url : string) (matches : list Match).

Inductive LogEvent : Type :=
| LogFetchFailed (pid e : string)
| LogNoPrice (pid : string)
| LogBaselineInit (pid : string) (b : Q)
| LogRetailer (name : string) (price base drop_now drop_needed : Q)
| LogEmailSent (pid : string)
| LogEmailFailed (e : string)
| LogUsedFailed (sid e : string)
| LogUsedEmailFailed (e : string).

(** [l[-n:]] for [n > 0] *)
Definition last_n {A : Type} (n : nat) (l : list A) : list A :=
  drop (length l - n) l.

(** [sorted(list(seen))[-2000:]] *)
Definition persist_seen (seen : gset string) : list string :=
  last_n 2000 (merge_sort String.le (elements seen)).

(* ===================================================================== *)
(** ** The rules on a used listing and the ledger updates *)
(* ===================================================================== *)

(** The economic rules: the absolute ceiling, else the percentage
    below the reference price. *)
Definition trigger (scfg : Search) (msrp price : option Q) : option Reason :=
  let ceiling_hit :=
    match truthy_num (s_alert_below scfg), price with
    | Some ceiling, Some p =>
        if Qle_bool p ceiling then Some (BelowCeiling ceiling) else None
    | _, _ => None
    end in
  match ceiling_hit with
  | Some r => Some r
  | None =>
      match truthy_num msrp, truthy_num (s_alert_percent_below_msrp scfg), price with
      | Some ref, Some pct, Some p =>
          let drop := pct_drop ref p in
          if Qle_bool pct drop then Some (BelowMsrp drop) else None
      | _, _, _ => None
      end
  end.

(** [msrp if msrp > 0 else None] *)
Definition reference (msrp : Q) : option Q :=
  if Qltb 0 msrp then Some msrp else None.

(** One turn of the loop over the candidates. *)
Definition examine (scfg : Search) (seen : gset string) (msrp : option Q)
           (it : Item) : option Match :=
  let '(title, url, price) := it in
  if negb (text_ok title (s_include_keywords scfg) (s_exclude_keywords scfg))
  then None
  else if negb (is_empty url) && bool_decide (url ∈ seen)
  then None
  else
    match trigger scfg msrp price with
    | Some reason =>
        Some {| m_title := title; m_url := url; m_price := price;
                m_reason := reason |}
    | None => None
    end.

Definition pid_of (prod : Product) : string :=
  default (p_url prod) (truthy_str (p_id prod)).

Definition sid_of (scfg : Search) : string :=
  default (s_url scfg) (truthy_str (s_id scfg)).

Definition put_product (pid : string) (e : ProductEntry) (st : State) : State :=
  {| products := <[pid := e]> (products st); searches := searches st |}.

Definition put_search (sid : string) (e : SearchEntry) (st : State) : State :=
  {| products := products st; searches := <[sid := e]> (searches st) |}.

Definition drop_needed (cfg : Config) (prod : Product) : Q :=
  match p_drop_percent prod with
  | Some d => d
  | None => default 10%Q (c_default_drop_percent cfg)
  end.

(** [seen.add(m.url)] for every match with a non-empty url. *)
Definition add_seen (seen : gset string) (matches : list Match) : gset string :=
  fold_left (fun acc m => if is_empty (m_url m) then acc else acc ∪ {[m_url m]})
            matches seen.

(* ===================================================================== *)
(** ** The tracker over its external collaborators *)
(* ===================================================================== *)

(** The network, the parsers of [re] and [lxml], the mail transport and
    the clock.  The network, the mail and the clock live in [World];
    [Node] is an element of a parsed document. *)
Class Collaborators (World Node : Type) : Type := {
  (** [fetch_text] and [fetch_doc]: url, user agent, timeout. *)
  fetch_text : string -> string -> Z -> World -> result string * World;
  fetch_doc : string -> string -> Z -> World -> result Node * World;
  (** [re.search(pattern, text, flags=re.I)] followed by [m.group(1)]:
      [Ok None] when there is no match, [Ok (Some g)] with the group
      ([None] when it took no part), [Raise] for a pattern [re] rejects
      or one without a group. *)
  re_search_group1 : string -> string -> result (option (option string));
  (** [html.fromstring], [cssselect], [get], [text_content], [urljoin] *)
  html_fromstring : string -> result Node;
  cssselect : string -> Node -> result (list Node);
  node_get : Node -> string -> option string;
  text_content : Node -> string;
  urljoin : string -> string -> result string;
  send_email : Payload -> World -> result unit * World;
  (** [int(time.time())] *)
  clock : World -> Z * World
}.

Section Tracker.

Context {World Node : Type} `{!Collaborators World Node}.

(** What a run acts on: the outside world, the ledger loaded from the
    state file, the log, and what [save_state] last wrote. *)
Record Sys : Type := {
  world : World;
  ledger : State;
  logs : list LogEvent;
  saved : option State
}.

Definition M (A : Type) : Type := Sys -> result A * Sys.

Definition ret {A : Type} (a : A) : M A := fun s => (Ok a, s).

Definition bind {A B : Type} (m : M A) (f : A -> M B) : M B :=
  fun s =>
    match m s with
    | (Ok a, s') => f a s'
    | (Raise e, s') => (Raise e, s')
    end.

(** [try: m except Exception as e: h e] *)
Definition try_except {A : Type} (m : M A) (h : string -> M A) : M A :=
  fun s =>
    match m s with
    | (Ok a, s') => (Ok a, s')
    | (Raise e, s') => h e s'
    end.

Definition lift {A : Type} (r : result A) : M A := fun s => (r, s).

Definition in_world {A : Type} (f : World -> result A * World) : M A :=
  fun s =>
    let '(r, w) := f (world s) in
    (r, {| world := w; ledger := ledger s; logs := logs s; saved := saved s |}).

Definition log (ev : LogEvent) : M unit :=
  fun s =>
    (Ok tt, {| world := world s; ledger := ledger s;
               logs := logs s ++ [ev]; saved := saved s |}).

Definition get_ledger : M State := fun s => (Ok (ledger s), s).

Definition set_ledger (st : State) : M unit :=
  fun s =>
    (Ok tt, {| world := world s; ledger := st; logs := logs s; saved := saved s |}).

Definition save_state : M unit :=
  fun s =>
    (Ok tt, {| world := world s; ledger := ledger s; logs := logs s;
               saved := Some (ledger s) |}).

Definition now : M Z :=
  in_world (fun w => let '(t, w') := clock w in (Ok t, w')).

Notation "'let*' x ':=' m 'in' k" := (bind m (fun x => k))
  (at level 10, x name, m at level 100, k at level 200).
Notation "m '>>' k" := (bind m (fun _ => k))
  (at level 100, k at level 200, right associativity).

(** *** Retailer price fetch *)

Definition user_agent (o : option string) : string := default "Mozilla/5.0" o.
Definition timeout (o : option Z) : Z := default 25 o.

Definition fetch_page (prod : Product) : M string :=
  in_world (fetch_text (p_url prod) (user_agent (p_user_agent prod))
                       (timeout (p_timeout prod))).

(** Step 3, the CSS selector. *)
Definition selector_price (prod : Product) (text : string) : M (option Q) :=
  match truthy_str (p_selector prod) with
  | Some sel =>
      let* doc := lift (html_fromstring text) in
      let* nodes := lift (cssselect sel doc) in
      match nodes with
      | node :: _ =>
          let raw :=
            match truthy_str (p_attr prod) with
            | Some a => default EmptyString (node_get node a)
            | None => text_content node
            end in
          ret (extract_price_number raw)
      | [] => ret None
      end
  | None => ret None
  end.

(** Steps 2 and 3 on a fetched page. *)
Definition structured_price (prod : Product) (text : string) : M (option Q) :=
  let jl := jsonld_prices text in
  if nonempty jl then ret (min_positive jl)
  else
    match truthy_num (og_price text) with
    | Some og => ret (Some og)
    | None => selector_price prod text
    end.

Definition fetch_product_price (prod : Product) : M (option Q) :=
  let rest := (let* text := fetch_page prod in structured_price prod text) in
  match truthy_str (p_price_regex prod) with
  | Some pat =>
      let* text := fetch_page prod in
      let* m := lift (re_search_group1 pat text) in
      match m with
      | Some g => ret (extract_price_number (default EmptyString g))
      | None => rest
      end
  | None => rest
  end.

(** *** Used search scraping *)

Definition or_default {A : Type} (r : result A) (d : A) : A :=
  match r with Ok a => a | Raise _ => d end.

Definition card_title (cfg : Search) (card : Node) : string :=
  match truthy_str (s_title_selector cfg) with
  | Some sel =>
      match cssselect sel card with
      | Ok (t :: _) => strip (text_content t)
      | _ => EmptyString
      end
  | None => EmptyString
  end.

Definition card_url (cfg : Search) (card : Node) : string :=
  match truthy_str (s_url_selector cfg) with
  | Some sel =>
      match cssselect sel card with
      | Ok (u :: _) =>
          let href := strip (default EmptyString (node_get u "href")) in
          if negb (is_empty href) && startswith "//" href
          then "https:" +:+ href
          else if negb (is_empty href) && startswith "/" href
                  && startswith "http" (s_url cfg)
          then or_default (urljoin (s_url cfg) href) EmptyString
          else href
      | _ => EmptyString
      end
  | None => EmptyString
  end.

Definition card_price (cfg : Search) (card : Node) : option Q :=
  match truthy_str (s_price_selector cfg) with
  | Some sel =>
      match cssselect sel card with
      | Ok (n :: _) => extract_price_number (text_content n)
      | _ => None
      end
  | None => None
  end.

Definition card_item (cfg : Search) (card : Node) : option Item :=
  let title := card_title cfg card in
  let url := card_url cfg card in
  let price := card_price cfg card in
  if negb (is_empty title) || negb (is_empty url)
  then Some (title, url, price) else None.

Definition extract_items (doc : Node) (cfg : Search) : result (list Item) :=
  match s_item_selector cfg with
  | None => Raise "KeyError: item_selector"
  | Some sel =>
      match cssselect sel doc with
      | Ok cards => Ok (omap (card_item cfg) cards)
      | Raise e => Raise e
      end
  end.

Definition search_used_market (scfg : Search) (seen : gset string)
           (msrp : option Q) : M (list Match) :=
  let* doc := in_world (fetch_doc (s_url scfg) (user_agent (s_user_agent scfg))
                                  (timeout (s_timeout scfg))) in
  let* candidates := lift (extract_items doc scfg) in
  ret (omap (examine scfg seen msrp) candidates).

(** *** Main *)

Fixpoint for_each {A : Type} (body : A -> M unit) (l : list A) : M unit :=
  match l with
  | [] => ret tt
  | x :: l' => body x >> for_each body l'
  end.

(** [state.setdefault(products, {}).setdefault(pid, {})] *)
Definition setdefault_product (pid : string) : M ProductEntry :=
  let* st := get_ledger in
  match products st !! pid with
  | Some e => ret e
  | None => set_ledger (put_product pid empty_entry st) >> ret empty_entry
  end.

Definition setdefault_search (sid : string) : M SearchEntry :=
  let* st := get_ledger in
  match searches st !! sid with
  | Some e => ret e
  | None => set_ledger (put_search sid empty_search_entry st) >> ret empty_search_entry
  end.

Definition update_product (pid : string) (e : ProductEntry) : M unit :=
  let* st := get_ledger in set_ledger (put_product pid e st).

Definition update_search (sid : string) (e : SearchEntry) : M unit :=
  let* st := get_ledger in set_ledger (put_search sid e st).

(** The body of the loop over the products; [continue] is the early
    [ret tt]. *)
Definition process_product (cfg : Config) (prod : Product) : M unit :=
  let pid := pid_of prod in
  let name := default pid (p_name prod) in
  let* st := setdefault_product pid in
  let baseline0 := baseline st in
  let* fetched :=
    try_except (let* price := fetch_product_price prod in ret (Some price))
               (fun e => log (LogFetchFailed pid e) >> ret None) in
  match fetched with
  | None => ret tt
  | Some None => log (LogNoPrice pid)
  | Some (Some price) =>
      let* t := now in
      let baseline1 :=
        match p_baseline prod with
        | Some b => Some b
        | None => baseline0
        end in
      let* base :=
        match baseline1 with
        | Some b => ret b
        | None => log (LogBaselineInit pid price) >> ret price
        end in
      let needed := drop_needed cfg prod in
      let drop_now := pct_drop base price in
      log (LogRetailer name price base drop_now needed) >>
      let hist := history st ++ [(t, price)] in
      update_product pid
        {| baseline := Some base; history := last_n 300 hist;
           last_price := Some price; e_url := Some (p_url prod);
           e_name := Some name |} >>
      if Qle_bool needed drop_now then
        if c_smtp_ok cfg then
          try_except
            (in_world (send_email (RetailDrop name (p_url prod) price base
                                              drop_now needed)) >>
             log (LogEmailSent pid))
            (fun e => log (LogEmailFailed e))
        else ret tt
      else ret tt
  end.

(** The body of the loop over the searches. *)
Definition process_search (cfg : Config) (msrp : Q) (scfg : Search) : M unit :=
  let sid := sid_of scfg in
  let name := default sid (s_name scfg) in
  let* sstate := setdefault_search sid in
  let seen0 : gset string := list_to_set (seen sstate) in
  let* found :=
    try_except
      (let* ms := search_used_market scfg seen0 (reference msrp) in
       ret (Some ms))
      (fun e => log (LogUsedFailed sid e) >> ret None) in
  match found with
  | None => ret tt
  | Some matches =>
      let seen1 := add_seen seen0 matches in
      (if nonempty matches && c_smtp_ok cfg then
         try_except (in_world (send_email (UsedFinds name (s_url scfg) matches)))
                    (fun e => log (LogUsedEmailFailed e))
       else ret tt) >>
      update_search sid {| seen := persist_seen seen1 |}
  end.

(** [main], from the loaded configuration and ledger to [save_state]. *)
Definition main (cfg : Config) : M unit :=
  for_each (process_product cfg) (c_products cfg) >>
  let msrp := default 0%Q (c_msrp cfg) in
  for_each (process_search cfg msrp) (c_searches cfg) >>
  save_state.

(** A run from the state file: the ledger is the saved one, or the
    old one had [save_state] not been reached. *)
Definition run_once (cfg : Config) (st : State) (w : World) : State * World :=
  let '(_, s) := main cfg {| world := w; ledger := st; logs := []; saved := None |} in
  (default st (saved s), world s).

(** Successive runs, each with the configuration it is started with. *)
Fixpoint run_seq (cfgs : list Config) (st : State) (w : World) : State * World :=
  match cfgs with
  | [] => (st, w)
  | cfg :: rest => let '(st', w') := run_once cfg st w in run_seq rest st' w'
  end.

End Tracker.

(* ===================================================================== *)
(** ** States of a run and of the ledger, for the statements *)
(* ===================================================================== *)

Section States.

Context {World : Type}.

Definition with_log (s : @Sys World) (evs : list LogEvent) : @Sys World :=
  {| world := world s; ledger := ledger s; logs := logs s ++ evs;
     saved := saved s |}.

Definition with_ledger (s : @Sys World) (st : State) : @Sys World :=
  {| world := world s; ledger := st; logs := logs s; saved := saved s |}.

Definition with_world (s : @Sys World) (w : World) : @Sys World :=
  {| world := w; ledger := ledger s; logs := logs s; saved := saved s |}.

(** Two states of a run that differ in the outside world only. *)
Definition same_store (s s' : @Sys World) : Prop :=
  ledger s' = ledger s /\ logs s' = logs s /\ saved s' = saved s.

End States.

(** The entry [setdefault] reads, and the ledger it leaves. *)
Definition entry_of (st : State) (pid : string) : ProductEntry :=
  default empty_entry (products st !! pid).

Definition touched (pid : string) (st : State) : State :=
  match products st !! pid with
  | Some _ => st
  | None => put_product pid empty_entry st
  end.

Definition search_entry_of (st : State) (sid : string) : SearchEntry :=
  default empty_search_entry (searches st !! sid).

Definition touched_search (sid : string) (st : State) : State :=
  match searches st !! sid with
  | Some _ => st
  | None => put_search sid empty_search_entry st
  end.

(** The baseline a priced pass works with: the configured one, else the
    stored one, else the price. *)
Definition base_price (prod : Product) (st : ProductEntry) (price : Q) : Q :=
  default price (match p_baseline prod with
                 | Some b => Some b
                 | None => baseline st
                 end).

(** The entry [st.update] leaves for a product priced [price] at time
    [t]. *)
Definition priced_entry (prod : Product) (st : ProductEntry) (t : Z)
           (price : Q) : ProductEntry :=
  {| baseline := Some (base_price prod st price);
     history := last_n 300 (history st ++ [(t, price)]);
     last_price := Some price; e_url := Some (p_url prod);
     e_name := Some (default (pid_of prod) (p_name prod)) |}.

(* ===================================================================== *)
(** ** Repeated passes of one search over an unchanged page *)
(* ===================================================================== *)

(** What the loop of [search_used_market] returns for the extracted
    candidates and the persisted seen list. *)
Definition matches_of (scfg : Search) (msrp : option Q) (cands : list Item)
           (seen : list string) : list Match :=
  omap (examine scfg (list_to_set seen) msrp) cands.

(** The seen list [main] persists after that pass. *)
Definition seen_after (scfg : Search) (msrp : option Q) (cands : list Item)
           (seen : list string) : list string :=
  persist_seen (add_seen (list_to_set seen) (matches_of scfg msrp cands seen)).

(** The seen list at the start of pass [n], passes counted from 0. *)
Fixpoint seen_at (scfg : Search) (msrp : option Q) (cands : list Item)
         (seen : list string) (n : nat) : list string :=
  match n with
  | O => seen
  | S n' => seen_after scfg msrp cands (seen_at scfg msrp cands seen n')
  end.

Definition alerts_at (scfg : Search) (msrp : option Q) (cands : list Item)
           (seen : list string) (n : nat) : list Match :=
  matches_of scfg msrp cands (seen_at scfg msrp cands seen n).

Definition item_url (it : Item) : string := snd (fst it).

(** The alert of a price drop. *)
Definition drop_alert (cfg : Config) (prod : Product) (st : ProductEntry)
           (price : Q) : Payload :=
  let base := base_price prod st price in
  RetailDrop (default (pid_of prod) (p_name prod)) (p_url prod) price base
             (pct_drop base price) (drop_needed cfg prod).

(** Every url a pass can meet: the seen ones and the candidates'. *)
Definition known_urls (seen : list string) (cands : list Item) : gset string :=
  list_to_set seen ∪ list_to_set (map item_url cands).


(* ===================================================================== *)
(** ** The specification's wording *)
(* ===================================================================== *)

(** The price parser as the specification describes it. *)
Definition is_separator (c : ascii) : bool :=
  ascii_eqb c "." || ascii_eqb c ",".

Definition keep_price_chars (text : string) : string :=
  str_filter (fun c => is_digit c || is_separator c) text.

(** The separator that occurs last. *)
Fixpoint last_separator (s : string) : option ascii :=
  match s with
  | EmptyString => None
  | String c s' =>
      match last_separator s' with
      | Some x => Some x
      | None => if is_separator c then Some c else None
      end
  end.

Definition normalise_spec (cleaned : string) : string :=
  match last_separator cleaned with
  | Some c =>
      if ascii_eqb c ","
      then replace_char "," "." (remove_char "." cleaned)
      else remove_char "," cleaned
  | None => remove_char "," cleaned
  end.

(** The fraction that continues an integer: a point and the digits
    after it, when there is at least one. *)
Definition fraction_of (rest : string) : string :=
  match rest with
  | String c f =>
      if ascii_eqb c "." && negb (is_empty (take_digits f))
      then String "." (take_digits f) else EmptyString
  | EmptyString => EmptyString
  end.

(** What follows the fraction in [rest]. *)
Definition after_fraction (rest : string) : string :=
  match rest with
  | String c f =>
      if ascii_eqb c "." && negb (is_empty (take_digits f))
      then drop_digits f else rest
  | EmptyString => EmptyString
  end.

(** The first contiguous integer[.fraction] token. *)
Fixpoint first_number_token (s : string) : option string :=
  match s with
  | EmptyString => None
  | String c s' =>
      if is_digit c
      then Some (take_digits s +:+ fraction_of (drop_digits s))
      else first_number_token s'
  end.

Definition parse_spec (text : string) : option Q :=
  let cleaned := keep_price_chars text in
  if is_empty cleaned then None
  else option_map float_of_token (first_number_token (normalise_spec cleaned)).

(** [k] occurs in [s] as a substring, letter case aside. *)
Definition occurs_ci (k s : string) : Prop :=
  exists pre mid post, s = pre +:+ mid +:+ post /\ lower mid = lower k.

(** [m] is the least strictly positive value of [jl]. *)
Definition is_min_positive (jl : list Q) (m : Q) : Prop :=
  (In m jl /\ 0 < m /\ forall p, In p jl -> 0 < p -> m <= p)%Q.

(** The ceiling rule has nothing to say: no ceiling other than 0, no
    price, or a price above the ceiling. *)
Definition ceiling_silent (scfg : Search) (price : option Q) : Prop :=
  truthy_num (s_alert_below scfg) = None \/ price = None \/
  exists c p, s_alert_below scfg = Some c /\ price = Some p /\ (c < p)%Q.

(** The baseline the ledger holds for a product, if any. *)
Definition baseline_of (st : State) (pid : string) : option Q :=
  products st !! pid ≫= baseline.

Definition nonneg_opt (o : option Q) : Prop :=
  match o with Some x => (0 <= x)%Q | None => True end.

(** No baseline of the ledger is negative. *)
Definition baselines_nonneg (st : State) : Prop :=
  forall pid e, products st !! pid = Some e -> nonneg_opt (baseline e).

(* ===================================================================== *)
(** ** A small instance of the collaborators, for evaluation *)
(* ===================================================================== *)

(** A document node: the selector that selects it, its text, its
    attributes and its descendants. *)
Inductive ToyNode : Type :=
| TNode (tag text : string) (attrs : list (string * string))
        (kids : list ToyNode).

Definition toy_tag (n : ToyNode) : string :=
  match n with TNode tg _ _ _ => tg end.

Definition toy_text (n : ToyNode) : string :=
  match n with TNode _ t _ _ => t end.

Fixpoint assoc {A : Type} (k : string) (l : list (string * A)) : option A :=
  match l with
  | [] => None
  | (k', v) :: l' => if String.eqb k k' then Some v else assoc k l'
  end.

Definition toy_get (n : ToyNode) (a : string) : option string :=
  match n with TNode _ _ attrs _ => assoc a attrs end.

Definition toy_cssselect (sel : string) (n : ToyNode) : result (list ToyNode) :=
  match n with
  | TNode _ _ _ kids =>
      Ok (omap (fun k => if String.eqb (toy_tag k) sel then Some k else None) kids)
  end.

(** The world answers fetches from two feeds, keeps the mail it was
    given and counts time. *)
Record ToyWorld : Type := {
  text_feed : list (result string);
  doc_feed : list (result ToyNode);
  mail_up : bool;
  outbox : list Payload;
  time : Z
}.

Definition toy_fetch_text (url ua : string) (t : Z) (w : ToyWorld)
  : result string * ToyWorld :=
  match text_feed w with
  | r :: rest =>
      (r, {| text_feed := rest; doc_feed := doc_feed w; mail_up := mail_up w;
             outbox := outbox w; time := time w |})
  | [] => (Raise "timeout", w)
  end.

Definition toy_fetch_doc (url ua : string) (t : Z) (w : ToyWorld)
  : result ToyNode * ToyWorld :=
  match doc_feed w with
  | r :: rest =>
      (r, {| text_feed := text_feed w; doc_feed := rest; mail_up := mail_up w;
             outbox := outbox w; time := time w |})
  | [] => (Raise "timeout", w)
  end.

Definition toy_send_email (p : Payload) (w : ToyWorld) : result unit * ToyWorld :=
  if mail_up w
  then (Ok tt, {| text_feed := text_feed w; doc_feed := doc_feed w;
                  mail_up := mail_up w; outbox := outbox w ++ [p];
                  time := time w |})
  else (Raise "smtp", w).

Definition toy_clock (w : ToyWorld) : Z * ToyWorld :=
  (time w, {| text_feed := text_feed w; doc_feed := doc_feed w;
              mail_up := mail_up w; outbox := outbox w; time := time w + 1 |}).

(** The one pattern the instance knows: [sale:\s*\$([0-9.,]+)]. *)
Definition sale_re : Re.regex :=
  seqs [ Re.lit_ci "sale:"; Re.Star (Re.Chr is_space); Re.ch "$";
         Re.Group (Re.Plus (Re.Chr (fun c => is_digit c || is_separator c))) ].

Definition toy_re_search (pat text : string) : result (option (option string)) :=
  if String.eqb pat "sale:\s*\$([0-9.,]+)"
  then Ok (option_map Re.group1 (Re.search sale_re text))
  else Raise "re.error".

Definition toy_fromstring (text : string) : result ToyNode :=
  if is_empty text then Raise "ParserError"
  else Ok (TNode "html" text [] [TNode "span.price" text [] []]).

Definition toy_urljoin (base href : string) : result string :=
  Ok (base +:+ href).

#[export] Instance toy : Collaborators ToyWorld ToyNode := {|
  fetch_text := toy_fetch_text;
  fetch_doc := toy_fetch_doc;
  re_search_group1 := toy_re_search;
  html_fromstring := toy_fromstring;
  cssselect := toy_cssselect;
  node_get := toy_get;
  text_content := toy_text;
  urljoin := toy_urljoin;
  send_email := toy_send_email;
  clock := toy_clock
|}.

(* ===================================================================== *)
(** ** Sample configurations and pages *)
(* ===================================================================== *)

Definition plain_search : Search := {|
  s_id := Some "boards"; s_name := None; s_url := "https://used.example/s";
  s_item_selector := Some "li.item"; s_title_selector := Some "h3";
  s_price_selector := Some "span.price"; s_url_selector := Some "a";
  s_include_keywords := []; s_exclude_keywords := [];
  s_alert_below := None; s_alert_percent_below_msrp := None;
  s_user_agent := None; s_timeout := None
|}.

Definition with_rules (below pct : option Q) (scfg : Search) : Search := {|
  s_id := s_id scfg; s_name := s_name scfg; s_url := s_url scfg;
  s_item_selector := s_item_selector scfg;
  s_title_selector := s_title_selector scfg;
  s_price_selector := s_price_selector scfg;
  s_url_selector := s_url_selector scfg;
  s_include_keywords := s_include_keywords scfg;
  s_exclude_keywords := s_exclude_keywords scfg;
  s_alert_below := below; s_alert_percent_below_msrp := pct;
  s_user_agent := s_user_agent scfg; s_timeout := s_timeout scfg
|}.

(** A search with a ceiling of 0 and no percentage rule. *)
Definition zero_ceiling_search : Search := with_rules (Some 0%Q) None plain_search.

(** A search with a ceiling of 2300 and 20 percent below the reference. *)
Definition board_search : Search :=
  with_rules (Some 2300%Q) (Some 20%Q) plain_search.

(** A search with a ceiling of 2300 alone. *)
Definition capped_search : Search := with_rules (Some 2300%Q) None plain_search.

Definition plain_product : Product := {|
  p_id := Some "foil"; p_name := None; p_url := "https://shop.example/foil";
  p_price_regex := None; p_selector := None; p_attr := None;
  p_drop_percent := None; p_baseline := None;
  p_user_agent := None; p_timeout := None
|}.

Definition with_hints (pattern selector : option string) (base : option Q)
           (prod : Product) : Product := {|
  p_id := p_id prod; p_name := p_name prod; p_url := p_url prod;
  p_price_regex := pattern; p_selector := selector; p_attr := p_attr prod;
  p_drop_percent := p_drop_percent prod; p_baseline := base;
  p_user_agent := p_user_agent prod; p_timeout := p_timeout prod
|}.

Definition sale_product : Product :=
  with_hints (Some "sale:\s*\$([0-9.,]+)") None None plain_product.

Definition selector_product : Product :=
  with_hints None (Some "span.price") None plain_product.

Definition shop (prods : list Product) (searches : list Search) : Config := {|
  c_default_drop_percent := Some 10%Q; c_msrp := None; c_smtp_ok := true;
  c_products := prods; c_searches := searches
|}.

Definition quoted (s : string) : string :=
  String dquote (s +:+ String dquote EmptyString).

Definition jsonld_block (body : string) : string :=
  "<script type='application/ld+json'>{" +:+ body +:+ "}</script>".

(** A block with the price 50.00, the lowPrice 30 and the highPrice -5. *)
Definition offer_page : string :=
  jsonld_block (quoted "price" +:+ ": " +:+ quoted "50.00" +:+ ", "
                +:+ quoted "lowPrice" +:+ ": 30, "
                +:+ quoted "highPrice" +:+ ": -5").

Definition og_tag : string :=
  "<meta property='product:price:amount' content='12.50'>".

(** A block with the price 0 next to an Open Graph price of 12.50. *)
Definition zero_offer_page : string :=
  jsonld_block (quoted "price" +:+ ": 0") +:+ og_tag.

Definition og_page : string := "<html>" +:+ og_tag +:+ "</html>".

Definition bare_page : string := "<span class='price'>$45.00</span>".

(** A sale price in the text next to a block with other prices. *)
Definition sale_page : string := "<b>Sale: $89.99</b>" +:+ offer_page.

Definition priced_page (price : string) : string :=
  jsonld_block (quoted "price" +:+ ": " +:+ price).

Definition toy_world (texts : list (result string))
           (docs : list (result ToyNode)) (mail : bool) : ToyWorld :=
  {| text_feed := texts; doc_feed := docs; mail_up := mail; outbox := [];
     time := 1000 |}.

Definition empty_state : State := {| products := ∅; searches := ∅ |}.

Definition start (w : ToyWorld) (st : State) : @Sys ToyWorld :=
  {| world := w; ledger := st; logs := []; saved := None |}.

Definition leaf (tag text : string) : ToyNode := TNode tag text [] [].

Definition card (title href price : string) : ToyNode :=
  TNode "li.item" EmptyString []
        [ leaf "h3" title; TNode "a" EmptyString [("href", href)] [];
          leaf "span.price" price ].


Definition listing (cards : list ToyNode) : ToyNode :=
  TNode "html" EmptyString [] cards.



Definition old_url : string := "https://e.org/a".
Definition new_url : string := "https://e.org/b".



Definition two_items : list Item :=
  [ ("old board", old_url, Some 100%Q); ("new board", new_url, Some 100%Q) ].

Definition two_cards : ToyNode :=
  listing [ card " old board " "https://e.org/a" "$100";
            card "new board" "https://e.org/b" "$100.00" ].


(** A product whose configuration fixes a baseline. *)
Definition fixed_product (base : Q) : Product :=
  with_hints None None (Some base) plain_product.

(** The page shows 500 at the first fetch and 440 at the second. *)
Definition two_price_world : ToyWorld :=
  toy_world [Ok (priced_page "500"); Ok (priced_page "440")] [] true.

(** The ledger after a first run that observed 500. *)
Definition first_ledger : State :=
  fst (run_seq [shop [plain_product] []] empty_state two_price_world).

(** A ledger in which the search has seen the old listing. *)
Definition seen_ledger : State :=
  {| products := ∅; searches := {[ "boards" := {| seen := [old_url] |} ]} |}.


Definition new_match : Match :=
  {| m_title := "new board"; m_url := new_url; m_price := Some 100%Q;
     m_reason := BelowCeiling 2300%Q |}.


(* ===================================================================== *)
(** ** The structured data as the specification describes it *)
(* ===================================================================== *)

Fixpoint str_take_while (p : ascii -> bool) (s : string) : string :=
  match s with
  | String c s' => if p c then String c (str_take_while p s') else EmptyString
  | EmptyString => EmptyString
  end.

Fixpoint str_drop_while (p : ascii -> bool) (s : string) : string :=
  match s with
  | String c s' => if p c then str_drop_while p s' else s
  | EmptyString => EmptyString
  end.

Fixpoint str_all (p : ascii -> bool) (s : string) : bool :=
  match s with
  | String c s' => p c && str_all p s'
  | EmptyString => true
  end.

(** The rest of [s] after the word [w] at its head. *)
Fixpoint after_word (w s : string) : option string :=
  match w, s with
  | EmptyString, _ => Some s
  | String a w', String b s' => if ascii_eqb a b then after_word w' s' else None
  | String _ _, EmptyString => None
  end.

(** The same, letter case aside. *)
Fixpoint after_word_ci (w s : string) : option string :=
  match w, s with
  | EmptyString, _ => Some s
  | String a w', String b s' =>
      if ascii_eqb (lower_char b) (lower_char a) then after_word_ci w' s' else None
  | String _ _, EmptyString => None
  end.

Definition is_quote (c : ascii) : bool := ascii_eqb c dquote || ascii_eqb c squote.

(** [s] without the double quote at its head, if there is one. *)
Definition skip_dquote (s : string) : string :=
  match s with
  | String c s' => if ascii_eqb c dquote then s' else s
  | EmptyString => EmptyString
  end.

Definition is_numeral_char (c : ascii) : bool :=
  is_digit c || ascii_eqb c "." || ascii_eqb c ",".

Definition not_gt (c : ascii) : bool := negb (ascii_eqb c ">").

(** The numeral under the key [k] where the entry starts at the head of
    [s], and the text after the entry: the key in double quotes, white
    space, a colon, white space, an optional double quote and then a
    digit; the numeral is the longest run of digits, points and commas
    from that digit on, and a double quote right after it belongs to
    the entry. *)
Definition value_at (k s : string) : option (string * string) :=
  match after_word (quoted k) s with
  | Some s1 =>
      match str_drop_while is_space s1 with
      | String c s2 =>
          if ascii_eqb c ":" then
            let s3 := skip_dquote (str_drop_while is_space s2) in
            match s3 with
            | String d _ =>
                if is_digit d
                then Some (str_take_while is_numeral_char s3,
                           skip_dquote (str_drop_while is_numeral_char s3))
                else None
            | EmptyString => None
            end
          else None
      | EmptyString => None
      end
  | None => None
  end.

(** The type attribute of a JSON-LD block at the head of [s]: type=,
    a quote, application/ld+json, a quote; letter case aside. *)
Definition ld_json_type (s : string) : bool :=
  match after_word_ci "type=" s with
  | Some (String q s1) =>
      is_quote q &&
      match after_word_ci "application/ld+json" s1 with
      | Some (String q' _) => is_quote q'
      | _ => false
      end
  | _ => false
  end.

(** The attribute starts somewhere in [s] before the first [>]. *)
Fixpoint type_in_tag (s : string) : bool :=
  match s with
  | String c s' => if not_gt c then ld_json_type s || type_in_tag s' else false
  | EmptyString => false
  end.

(** The text before the first closing script tag, and the text after
    that tag. *)
Fixpoint until_close (s : string) : option (string * string) :=
  match after_word_ci "</script>" s with
  | Some rest => Some (EmptyString, rest)
  | None =>
      match s with
      | String c s' =>
          match until_close s' with
          | Some (b, rest) => Some (String c b, rest)
          | None => None
          end
      | EmptyString => None
      end
  end.

(** The body of the JSON-LD block whose opening tag starts at the head
    of [s], and the text after its closing tag: the tag is the word
    script after [<], at least one further character, the type
    attribute somewhere after that character and before the [>] that
    ends the tag; the body ends before the first closing script tag. *)
Definition block_at (s : string) : option (string * string) :=
  match after_word_ci "<script" s with
  | Some (String c s0) =>
      if not_gt c && type_in_tag s0 then
        match str_drop_while not_gt s0 with
        | String _ body_on => until_close body_on
        | EmptyString => None
        end
      else None
  | _ => None
  end.

Definition not_quote (c : ascii) : bool := negb (is_quote c).

(** The value of the content attribute at the head of [s], and the text
    after it: content=, a quote, a non-empty run of characters other
    than quotes, a quote; letter case aside. *)
Definition content_at (s : string) : option (string * string) :=
  match after_word_ci "content=" s with
  | Some (String q v) =>
      if is_quote q then
        match str_take_while not_quote v, str_drop_while not_quote v with
        | String c value, String _ rest => Some (String c value, rest)
        | _, _ => None
        end
      else None
  | _ => None
  end.

(** What [look] finds at the last place of [s] before the first [>]. *)
Fixpoint last_before_gt {A : Type} (look : string -> option A) (s : string)
  : option A :=
  match s with
  | String c s' =>
      if not_gt c then
        match last_before_gt look s' with
        | Some x => Some x
        | None => look s
        end
      else look s
  | EmptyString => look s
  end.

(** The content of the meta tag whose attribute [attr] names [name] at
    the head of [s]: the attribute, a quote, the name, a quote, and then
    the last content attribute before the end of the tag. *)
Definition meta_at (attr name s : string) : option (string * string) :=
  match after_word_ci attr s with
  | Some (String q s1) =>
      if is_quote q then
        match after_word_ci name s1 with
        | Some (String q' s2) =>
            if is_quote q' then last_before_gt content_at s2 else None
        | _ => None
        end
      else None
  | _ => None
  end.

(** The first place, from the left, where [look] finds something. *)
Fixpoint first_at {A : Type} (look : string -> option (A * string)) (s : string)
  : option (A * string) :=
  match look s with
  | Some x => Some x
  | None =>
      match s with
      | String _ s' => first_at look s'
      | EmptyString => None
      end
  end.

(** Everything [look] finds from left to right, each search starting
    where the previous find ended. *)
Fixpoint scan_fuel {A : Type} (look : string -> option (A * string)) (fuel : nat)
         (s : string) : list A :=
  match fuel with
  | O => []
  | S fuel' =>
      match first_at look s with
      | None => []
      | Some (a, rest) =>
          a :: (if (String.length rest <? String.length s)%nat
                then scan_fuel look fuel' rest else [])
      end
  end.

Definition scan {A : Type} (look : string -> option (A * string)) (s : string)
  : list A :=
  scan_fuel look (String.length s) s.

(** The values under the key [k] in the body of a block, read by the
    price parser. *)
Definition values_under (k body : string) : list Q :=
  omap parse_spec (scan (value_at k) body).

(** What the structured step collects from a page: from every JSON-LD
    block, the values under price, then those under lowPrice, then
    those under highPrice. *)
Definition collected (text : string) : list Q :=
  flat_map (fun body => values_under "price" body ++ values_under "lowPrice" body
                        ++ values_under "highPrice" body)
           (scan block_at text).

(** The Open Graph price of a page: the content of the first meta tag
    with the property product:price:amount, else of the first one named
    twitter:data1, read by the price parser. *)
Definition og_value (text : string) : option string :=
  match first_at (meta_at "property=" "product:price:amount") text with
  | Some (v, _) => Some v
  | None =>
      match first_at (meta_at "name=" "twitter:data1") text with
      | Some (v, _) => Some v
      | None => None
      end
  end.

Definition og_spec (text : string) : option Q :=
  match og_value text with
  | Some v => parse_spec v
  | None => None
  end.

(** Two blocks, the second in capital letters and with the lowPrice 30
    and the highPrice 20. *)
Definition two_block_page : string :=
  jsonld_block (quoted "price" +:+ ": " +:+ quoted "50.00")
  +:+ "<p>Foil</p>"
  +:+ "<SCRIPT defer TYPE='application/ld+json'>{"
  +:+ quoted "highPrice" +:+ ": 20, " +:+ quoted "lowPrice" +:+ ": 30"
  +:+ "}</SCRIPT>".

(** A block whose only price is negative, next to an Open Graph price
    of 12.50. *)
Definition negative_offer_page : string :=
  jsonld_block (quoted "price" +:+ ": -5") +:+ og_tag.

(** An unquoted price followed by the comma of the next entry. *)
Definition trailing_comma_page : string :=
  jsonld_block (quoted "price" +:+ ": 1299.00, " +:+ quoted "name" +:+ ": "
                +:+ quoted "Foil").

(** The pattern matches, its group holds no digit, and the page carries
    a block with prices. *)
Definition dotted_sale_page : string := "<b>Sale: $...</b>" +:+ offer_page.

(** A product with the pattern and a selector. *)
Definition sale_selector_product : Product :=
  with_hints (Some "sale:\s*\$([0-9.,]+)") (Some "span.price") None plain_product.

(** A second product. *)
Definition wing_product : Product := {|
  p_id := Some "wing"; p_name := None; p_url := "https://shop.example/wing";
  p_price_regex := None; p_selector := None; p_attr := None;
  p_drop_percent := None; p_baseline := None;
  p_user_agent := None; p_timeout := None
|}.

(* ===================================================================== *)
(** ** Definitions for the further properties *)
(* ===================================================================== *)

(* ===================================================================== *)
(** ** Further notions for the statements *)
(* ===================================================================== *)

Fixpoint all_digits (s : string) : bool :=
  match s with
  | EmptyString => true
  | String c s' => is_digit c && all_digits s'
  end.

Fixpoint has_digit (s : string) : bool :=
  match s with
  | EmptyString => false
  | String c s' => is_digit c || has_digit s'
  end.

(** No digit, point or comma. *)
Fixpoint no_price_chars (s : string) : bool :=
  match s with
  | EmptyString => true
  | String c s' => not_price_char c && no_price_chars s'
  end.

(** The number with the integer digits [ip] and the fraction digits [fp]. *)
Definition decimal (ip fp : string) : Q :=
  Qred (Qmake (digits_val 0 (ip +:+ fp)) (pow10 (String.length fp))).

(** The candidate a match was made from. *)
Definition match_item (m : Match) : Item := (m_title m, m_url m, m_price m).

(** A search with the percentage rule alone. *)
Definition percent_search : Search := with_rules None (Some 20%Q) plain_search.

(** A seen list as [main] writes it: in ascending order, without
    duplicates, of at most 2000 urls. *)
Definition seen_wf (l : list string) : Prop :=
  StronglySorted String.le l /\ NoDup l /\ (length l <= 2000)%nat.

(** A product entry as a priced pass leaves it: at most 300 samples,
    the last price that of the last sample, and a baseline once there
    is a price. *)
Definition entry_wf (e : ProductEntry) : Prop :=
  (length (history e) <= 300)%nat /\
  last_price e = snd <$> last (history e) /\
  (is_Some (last_price e) -> is_Some (baseline e)).

Definition ledger_wf (st : State) : Prop :=
  (forall pid e, products st !! pid = Some e -> entry_wf e) /\
  (forall sid e, searches st !! sid = Some e -> seen_wf (seen e)).

(** The changes a turn of the two loops of [main] makes to the ledger:
    [setdefault] alone where the turn ends in [continue], and the
    update of the entry otherwise. *)
Inductive ledger_step (cfg : Config) : State -> State -> Prop :=
| step_product_skipped (prod : Product) (st : State) :
    In prod (c_products cfg) ->
    ledger_step cfg st (touched (pid_of prod) st)
| step_product_priced (prod : Product) (st : State) (t : Z) (price : Q) :
    In prod (c_products cfg) -> (0 <= price)%Q ->
    ledger_step cfg st
      (put_product (pid_of prod)
         (priced_entry prod (entry_of st (pid_of prod)) t price)
         (touched (pid_of prod) st))
| step_search_skipped (scfg : Search) (st : State) :
    In scfg (c_searches cfg) ->
    ledger_step cfg st (touched_search (sid_of scfg) st)
| step_search_passed (scfg : Search) (st : State) (ms : list Match) :
    In scfg (c_searches cfg) ->
    ledger_step cfg st
      (put_search (sid_of scfg)
         {| seen := persist_seen
                      (add_seen (list_to_set (seen (search_entry_of st (sid_of scfg))))
                                ms) |}
         (touched_search (sid_of scfg) st)).

(** A step of some run of a sequence. *)
Definition run_step (cfgs : list Config) (st st' : State) : Prop :=
  exists cfg, In cfg cfgs /\ ledger_step cfg st st'.

(** What a priced pass logs before the mail. *)
Definition priced_events (cfg : Config) (prod : Product) (st : ProductEntry)
           (price : Q) : list LogEvent :=
  let pid := pid_of prod in
  let base := base_price prod st price in
  match p_baseline prod, baseline st with
  | None, None => [LogBaselineInit pid price]
  | _, _ => []
  end ++
  [LogRetailer (default pid (p_name prod)) price base (pct_drop base price)
               (drop_needed cfg prod)].

(** Whether the pass goes on to the mail transport. *)
Definition mails (cfg : Config) (prod : Product) (st : ProductEntry)
           (price : Q) : bool :=
  Qle_bool (drop_needed cfg prod) (pct_drop (base_price prod st price) price)
  && c_smtp_ok cfg.

Section Progress.

Context {World : Type}.

(** Between two states of a run: the ledger moved by steps of the
    configuration and nothing was saved. *)
Definition advances (cfg : Config) : relation (@Sys World) :=
  fun s s' => saved s' = saved s /\ rtc (ledger_step cfg) (ledger s) (ledger s').

End Progress.

(** The mail of a pass of a search. *)
Definition used_alert (scfg : Search) (ms : list Match) : Payload :=
  UsedFinds (default (sid_of scfg) (s_name scfg)) (s_url scfg) ms.

(* ===================================================================== *)
(** ** The state file *)
(* ===================================================================== *)

(** [json.dump] and [json.load] between the ledger and the content of a
    file. *)
Class Json (Content : Type) : Type := {
  json_dump : State -> Content;
  json_load : Content -> result State
}.

Module Disk.

Section Files.

Context {Content : Type} `{!Json Content}.

(** The regular files of the working directory are a map from paths to
    contents. *)

(** [os.replace(src, dst)] *)
Definition os_replace (src dst : string) (fs : gmap string Content) : result (gmap string Content) :=
  match fs !! src with
  | Some c => Ok (<[dst := c]> (delete src fs))
  | None => Raise "FileNotFoundError"
  end.

Definition load_state (path : string) (fs : gmap string Content) : result State :=
  match fs !! path with
  | None => Ok empty_state
  | Some c => json_load c
  end.

Definition save_state (path : string) (data : State) (fs : gmap string Content) : result (gmap string Content) :=
  let tmp := path +:+ ".tmp" in
  os_replace tmp path (<[tmp := json_dump data]> fs).

Context {World Node : Type} `{!Collaborators World Node}.

(** [main] from the state file to the state file. *)
Definition main (path : string) (cfg : Config) (fs : gmap string Content) (w : World)
  : result (gmap string Content * World) :=
  match load_state path fs with
  | Raise e => Raise e
  | Ok st =>
      let '(r, s) := main cfg {| world := w; ledger := st; logs := [];
                                 saved := None |} in
      match r, saved s with
      | Ok _, Some st' =>
          match save_state path st' fs with
          | Ok fs' => Ok (fs', world s)
          | Raise e => Raise e
          end
      | Ok _, None => Ok (fs, world s)
      | Raise e, _ => Raise e
      end
  end.

(** Successive invocations of the program. *)
Fixpoint invocations (path : string) (cfgs : list Config) (fs : gmap string Content) (w : World)
  : result (gmap string Content * World) :=
  match cfgs with
  | [] => Ok (fs, w)
  | cfg :: rest =>
      match main path cfg fs w with
      | Ok (fs', w') => invocations path rest fs' w'
      | Raise e => Raise e
      end
  end.

End Files.

End Disk.

(** The codec that stores the ledger as it is. *)
Definition plain_json : Json State := {| json_dump := id; json_load := Ok |}.

(* ===================================================================== *)
(** ** Strings: append, prefixes and substrings *)
(* ===================================================================== *)

Lemma app_nil_l (s : string) : EmptyString +:+ s = s.
Proof. reflexivity. Qed.

Lemma app_cons (c : ascii) (a b : string) : String c a +:+ b = String c (a +:+ b).
Proof. reflexivity. Qed.

Lemma app_nil_r (s : string) : s +:+ EmptyString = s.
Proof. induction s as [|c s IH]; [reflexivity|]. rewrite app_cons, IH. reflexivity. Qed.

Lemma app_assoc (a b c : string) : (a +:+ b) +:+ c = a +:+ (b +:+ c).
Proof.
  induction a as [|x a IH]; [reflexivity|].
  rewrite !app_cons, IH. reflexivity.
Qed.

Lemma app_length (a b : string) :
  String.length (a +:+ b) = (String.length a + String.length b)%nat.
Proof. induction a as [|x a IH]; [reflexivity|]. rewrite app_cons. simpl. lia. Qed.

Lemma ascii_eqb_eq (a b : ascii) : ascii_eqb a b = true <-> a = b.
Proof. apply Ascii.eqb_eq. Qed.

Lemma ascii_eqb_refl (a : ascii) : ascii_eqb a a = true.
Proof. apply Ascii.eqb_refl. Qed.

Lemma ascii_eqb_sym (a b : ascii) : ascii_eqb a b = ascii_eqb b a.
Proof. apply Ascii.eqb_sym. Qed.

Lemma startswith_spec (p s : string) :
  startswith p s = true <-> exists t, s = p +:+ t.
Proof.
  revert s. induction p as [|a p IH]; intros s; simpl.
  - split; [intros _; exists s; reflexivity | reflexivity].
  - destruct s as [|b s].
    + split; [discriminate | intros [t Ht]; rewrite app_cons in Ht; discriminate].
    + rewrite andb_true_iff, ascii_eqb_eq, IH. split.
      * intros [-> [t ->]]. exists t. reflexivity.
      * intros [t Ht]. rewrite app_cons in Ht. injection Ht as -> ->. eauto.
Qed.

Lemma str_in_spec (k s : string) :
  str_in k s = true <-> exists pre post, s = pre +:+ k +:+ post.
Proof.
  induction s as [|c s IH].
  - simpl. rewrite orb_false_r, startswith_spec. split.
    + intros [t Ht]. exists EmptyString, t. exact Ht.
    + intros [pre [post H]]. destruct pre as [|x pre].
      * exists post. exact H.
      * rewrite app_cons in H. discriminate.
  - change (str_in k (String c s))
      with (startswith k (String c s) || str_in k s).
    rewrite orb_true_iff, startswith_spec, IH. split.
    + intros [[t Ht] | [pre [post Ht]]].
      * exists EmptyString, t. exact Ht.
      * exists (String c pre), post. rewrite app_cons, Ht. reflexivity.
    + intros [pre [post H]]. destruct pre as [|x pre].
      * left. exists post. exact H.
      * right. rewrite app_cons in H. injection H as _ ->. eauto.
Qed.

Lemma lower_app (a b : string) : lower (a +:+ b) = lower a +:+ lower b.
Proof.
  induction a as [|x a IH]; [reflexivity|].
  rewrite app_cons. simpl. rewrite IH, app_cons. reflexivity.
Qed.

Lemma lower_split (s a b : string) :
  lower s = a +:+ b -> exists x y, s = x +:+ y /\ lower x = a /\ lower y = b.
Proof.
  revert s. induction a as [|c a IH]; intros s H.
  - exists EmptyString, s. auto.
  - destruct s as [|d s]; [discriminate|].
    rewrite app_cons in H. simpl in H. injection H as Hc Hs.
    destruct (IH _ Hs) as (x & y & -> & <- & <-).
    exists (String d x), y. rewrite app_cons. simpl. rewrite Hc. auto.
Qed.

Lemma occurs_ci_str_in (k s : string) :
  occurs_ci k s <-> str_in (lower k) (lower s) = true.
Proof.
  rewrite str_in_spec. split.
  - intros (pre & mid & post & -> & Hm).
    exists (lower pre), (lower post). rewrite !lower_app, Hm. reflexivity.
  - intros (pre & post & H).
    apply lower_split in H as (x & y & -> & Hx & Hy).
    apply lower_split in Hy as (m & z & -> & Hm & Hz).
    exists x, m, z. auto.
Qed.

Lemma forallb_false {A : Type} (f : A -> bool) (l : list A) :
  forallb f l = false <-> exists x, In x l /\ f x = false.
Proof.
  induction l as [|a l IH]; simpl.
  - split; [discriminate | intros (x & [] & _)].
  - rewrite andb_false_iff, IH. split.
    + intros [H | (x & Hx & Hf)]; eauto.
    + intros (x & [-> | Hx] & Hf); eauto.
Qed.

Lemma nonempty_true {A : Type} (x : A) (l : list A) : In x l -> nonempty l = true.
Proof. destruct l; [intros [] | reflexivity]. Qed.

(* ===================================================================== *)
(** ** The keyword filter *)
(* ===================================================================== *)

(** C6. [text_ok] discards a title exactly when some exclude keyword
    occurs in it as a substring, letter case aside, or some include
    keyword does not; the surfboard titled with 90L is discarded and the
    one with 110L is kept. *)
Theorem text_ok_keyword_filter :
  (forall (s : string) (includes excludes : list string),
      text_ok s includes excludes = false <->
      (exists k, In k excludes /\ occurs_ci k s) \/
      (exists k, In k includes /\ ~ occurs_ci k s)) /\
  text_ok "6'7 surfboard 90L" ["6'7"] ["90L"] = false /\
  text_ok "6'7 110L" ["6'7"] ["90L"] = true.
Proof.
  split; [|split; reflexivity].
  intros s includes excludes. unfold text_ok.
  destruct (forallb (fun k => str_in (lower k) (lower s)) includes) eqn:Hall.
  - rewrite andb_false_r.
    destruct (existsb (fun k => str_in (lower k) (lower s)) excludes) eqn:Hex.
    + apply existsb_exists in Hex as (k & Hk & Hin).
      rewrite (nonempty_true k) by exact Hk. simpl.
      split; [intros _|reflexivity].
      left. exists k. split; [exact Hk|]. apply occurs_ci_str_in. exact Hin.
    + rewrite andb_false_r. split; [discriminate|].
      intros [(k & Hk & Hocc) | (k & Hk & Hocc)]; exfalso.
      * assert (existsb (fun k => str_in (lower k) (lower s)) excludes = true)
          as Hc; [|congruence].
        apply existsb_exists. exists k. split; [exact Hk|].
        apply occurs_ci_str_in. exact Hocc.
      * apply Hocc, occurs_ci_str_in.
        rewrite forallb_forall in Hall. apply Hall. exact Hk.
  - apply forallb_false in Hall as (k & Hk & Hf).
    rewrite (nonempty_true k) by exact Hk. simpl.
    split; [intros _|reflexivity].
    right. exists k. split; [exact Hk|].
    rewrite occurs_ci_str_in, Hf. discriminate.
Qed.

(* ===================================================================== *)
(** ** The percentage drop *)
(* ===================================================================== *)

Lemma pct_drop_pos (old new : Q) :
  (0 < old)%Q -> pct_drop old new = ((old - new) / old * 100)%Q.
Proof.
  intros H. unfold pct_drop.
  destruct (Qle_bool old 0) eqn:E; [|reflexivity].
  apply Qle_bool_iff in E. exfalso. apply (Qlt_not_le _ _ H E).
Qed.

Lemma pct_drop_nonpos (old new : Q) :
  ~ (0 < old)%Q -> pct_drop old new = 0%Q.
Proof.
  intros H. unfold pct_drop.
  destruct (Qle_bool old 0) eqn:E; [reflexivity|].
  exfalso. apply H. apply Qnot_le_lt. intros Hle.
  apply Qle_bool_iff in Hle. congruence.
Qed.

Lemma pct_drop_increase (old new : Q) :
  (0 < old)%Q -> (old < new)%Q -> (pct_drop old new < 0)%Q.
Proof.
  intros Hold Hnew. rewrite pct_drop_pos by exact Hold.
  assert (0 < / old)%Q as Hinv by (apply Qinv_lt_0_compat; exact Hold).
  unfold Qdiv. nra.
Qed.

(** In binary64 arithmetic the three samples come out exactly. *)
Lemma pct_drop64_samples :
  pct_drop64 100 90 = 10%float /\
  pct_drop64 100 110 = (-10)%float /\
  pct_drop64 0 50 = 0%float.
Proof. repeat split. Qed.

(** In binary64 arithmetic too the guard splits the positive baselines
    from the others; a NaN baseline alone escapes both branches. *)
Lemma pct_drop64_cases (old new : float) :
  (PrimFloat.ltb 0 old = true ->
   pct_drop64 old new = ((old - new) / old * 100)%float) /\
  (PrimFloat.is_nan old = false -> PrimFloat.ltb 0 old = false ->
   pct_drop64 old new = 0%float).
Proof.
  assert (Prim2SF 0%float = S754_zero false) as Hzero by reflexivity.
  unfold pct_drop64, PrimFloat.is_nan.
  rewrite FloatAxioms.ltb_spec, FloatAxioms.leb_spec, FloatAxioms.eqb_spec, Hzero.
  unfold SFltb, SFleb, SFeqb.
  destruct (Prim2SF old) as [sg|sg| |sg m e]; cbn; try destruct sg;
    split; intros; try reflexivity; try discriminate.
Qed.

(** C3. [pct_drop old new] is [((old - new) / old) * 100] for a positive
    [old] and 0 otherwise; a [new] above [old] gives a negative
    percentage; 100 to 90 is 10, 100 to 110 is -10, and from 0 it is 0,
    over the rationals and in binary64 arithmetic alike. *)
Theorem pct_drop_spec (old new : Q) :
  ((0 < old -> pct_drop old new == ((old - new) / old) * 100) /\
   (~ 0 < old -> pct_drop old new == 0) /\
   (0 < old -> old < new -> pct_drop old new < 0) /\
   pct_drop 100 90 == 10 /\
   pct_drop 100 110 == -10 /\
   pct_drop 0 50 == 0)%Q /\
  pct_drop64 100 90 = 10%float /\
  pct_drop64 100 110 = (-10)%float /\
  pct_drop64 0 50 = 0%float.
Proof.
  split; [|exact pct_drop64_samples].
  split; [|split; [|split; [|split; [|split]]]].
  - intros H. rewrite pct_drop_pos by exact H. reflexivity.
  - intros H. rewrite pct_drop_nonpos by exact H. reflexivity.
  - apply pct_drop_increase.
  - reflexivity.
  - reflexivity.
  - reflexivity.
Qed.

Lemma pct_drop_spec_witness :
  (pct_drop 100 110 == ((100 - 110) / 100) * 100 /\ pct_drop 100 110 < 0)%Q /\
  (pct_drop (-3) 5 == 0)%Q.
Proof.
  destruct (pct_drop_spec 100 110) as ((Hpos & _ & Hup & _) & _).
  destruct (pct_drop_spec (-3) 5) as ((_ & Hneg & _) & _).
  split; [split|].
  - apply Hpos. reflexivity.
  - apply Hup; reflexivity.
  - apply Hneg. discriminate.
Defined.

(* ===================================================================== *)
(** ** The price parser *)
(* ===================================================================== *)

Lemma str_filter_ext (p q : ascii -> bool) (s : string) :
  (forall c, p c = q c) -> str_filter p s = str_filter q s.
Proof.
  intros H. induction s as [|c s IH]; [reflexivity|].
  simpl. rewrite H, IH. reflexivity.
Qed.

Lemma cleaned_is_kept (text : string) :
  re_sub_delete not_price_char text = keep_price_chars text.
Proof.
  apply str_filter_ext. intros c. unfold not_price_char, is_separator.
  rewrite negb_involutive, orb_assoc. reflexivity.
Qed.

(** The comparison of the two [rfind] results names the last separator. *)
Lemma rfind_from_last (s : string) (i fc fd : Z) :
  fc < i -> fd < i ->
  (rfind_from i "," s fc >? rfind_from i "." s fd) =
  match last_separator s with
  | Some x => ascii_eqb x ","
  | None => fc >? fd
  end.
Proof.
  revert i fc fd. induction s as [|a s IH]; intros i fc fd Hc Hd.
  - reflexivity.
  - simpl. rewrite IH.
    + destruct (last_separator s) as [x|]; [reflexivity|].
      unfold is_separator.
      destruct (ascii_eqb a ",") eqn:Ec.
      * apply ascii_eqb_eq in Ec. subst a. simpl.
        rewrite Z.gtb_ltb. apply Z.ltb_lt. lia.
      * destruct (ascii_eqb a ".") eqn:Ed; simpl; [|reflexivity].
        rewrite Ec, Z.gtb_ltb. apply Z.ltb_ge. lia.
    + destruct (ascii_eqb a ","); lia.
    + destruct (ascii_eqb a "."); lia.
Qed.

Lemma main_is_normalised (cleaned : string) :
  (if rfind "," cleaned >? rfind "." cleaned
   then replace_char "," "." (remove_char "." cleaned)
   else remove_char "," cleaned) = normalise_spec cleaned.
Proof.
  unfold rfind, normalise_spec. rewrite rfind_from_last by lia.
  destruct (last_separator cleaned) as [x|]; reflexivity.
Qed.

Lemma take_drop_digits (s : string) : s = take_digits s +:+ drop_digits s.
Proof.
  induction s as [|c s IH]; [reflexivity|].
  simpl. destruct (is_digit c); [|reflexivity].
  rewrite app_cons, <- IH. reflexivity.
Qed.

Lemma fraction_rest (r : string) : r = fraction_of r +:+ after_fraction r.
Proof.
  destruct r as [|c f]; [reflexivity|].
  unfold fraction_of, after_fraction.
  destruct (ascii_eqb c "." && negb (is_empty (take_digits f))) eqn:E;
    [|reflexivity].
  apply andb_true_iff in E as [Ec _]. apply ascii_eqb_eq in Ec. subst c.
  rewrite app_cons, <- take_drop_digits. reflexivity.
Qed.

Lemma str_take_app (a b : string) : str_take (String.length a) (a +:+ b) = a.
Proof.
  induction a as [|c a IH]; [destruct b; reflexivity|].
  rewrite app_cons. simpl. rewrite IH. reflexivity.
Qed.

Lemma consumed_app (a rest : string) : consumed (a +:+ rest) rest = a.
Proof.
  unfold consumed. rewrite app_length.
  replace (String.length a + String.length rest - String.length rest)%nat
    with (String.length a) by lia.
  apply str_take_app.
Qed.

Lemma drop_digits_length (s : string) :
  (String.length (drop_digits s) <= String.length s)%nat.
Proof.
  induction s as [|c s IH]; [reflexivity|].
  simpl. destruct (is_digit c); simpl; lia.
Qed.

Section NumberPattern.

Context {A : Type}.
Implicit Types (k : @Re.cont A) (s : string) (g : option string).

(** A greedy run of digits before a continuation that cannot fail takes
    all the digits. *)
Lemma star_digits k n s g :
  (forall s' g', k s' g' <> None) ->
  (String.length s <= n)%nat ->
  Re.star_loop (Re.run (Re.Chr is_digit)) k n s g = k (drop_digits s) g.
Proof.
  intros Hk. revert s. induction n as [|n IH]; intros s Hn.
  - destruct s; [reflexivity | simpl in Hn; lia].
  - destruct s as [|c s]; [reflexivity|].
    simpl. destruct (is_digit c); [|reflexivity].
    unfold Re.progress at 1. simpl.
    replace (String.length s <? S (String.length s))%nat with true
      by (symmetry; apply Nat.ltb_lt; lia).
    simpl in Hn. rewrite IH by lia.
    destruct (k (drop_digits s) g) eqn:E; [reflexivity|].
    exfalso. apply (Hk _ _ E).
Qed.

Lemma plus_digits k s g :
  (forall s' g', k s' g' <> None) ->
  Re.run (Re.Plus (Re.Chr is_digit)) s g k =
  match s with
  | String c s' => if is_digit c then k (drop_digits s') g else None
  | EmptyString => None
  end.
Proof.
  intros Hk. destruct s as [|c s]; [reflexivity|].
  simpl. destruct (is_digit c); [|reflexivity].
  apply star_digits; [exact Hk | lia].
Qed.

Lemma optional_fraction k s g :
  (forall s' g', k s' g' <> None) ->
  Re.run (Re.Opt (Re.Seq (Re.ch ".") (Re.Plus (Re.Chr is_digit)))) s g k =
  k (after_fraction s) g.
Proof.
  intros Hk. unfold Re.Opt.
  change (Re.run (Re.Alt ?a Re.Eps) s g k)
    with (match Re.run a s g k with Some x => Some x | None => k s g end).
  destruct s as [|c f]; [reflexivity|].
  unfold after_fraction.
  change (Re.run (Re.Seq (Re.ch ".") ?b) (String c f) g k)
    with (if ascii_eqb "." c then Re.run b f g k else None).
  rewrite plus_digits by exact Hk.
  replace (ascii_eqb "." c) with (ascii_eqb c ".")
    by (unfold ascii_eqb; apply Ascii.eqb_sym).
  destruct (ascii_eqb c "."); [|reflexivity].
  destruct f as [|d f']; [reflexivity|].
  simpl. destruct (is_digit d); [|reflexivity].
  simpl. destruct (k (drop_digits f') g) eqn:E; [reflexivity|].
  exfalso. apply (Hk _ _ E).
Qed.

End NumberPattern.

Lemma match_at_number (s : string) :
  Re.match_at number_re s =
  match s with
  | String c _ =>
      if is_digit c
      then Some (Re.Found (take_digits s +:+ fraction_of (drop_digits s)) None
                          (after_fraction (drop_digits s)))
      else None
  | EmptyString => None
  end.
Proof.
  unfold Re.match_at, number_re.
  change (Re.run (Re.Seq ?a ?b) s None ?k)
    with (Re.run a s None (fun s' g' => Re.run b s' g' k)).
  rewrite plus_digits.
  - destruct s as [|c s']; [reflexivity|].
    destruct (is_digit c) eqn:Ec; [|reflexivity].
    rewrite optional_fraction by discriminate.
    assert (drop_digits (String c s') = drop_digits s') as Hd
        by (simpl; rewrite Ec; reflexivity).
    rewrite Hd. f_equal. f_equal.
    rewrite <- Hd.
    rewrite (take_drop_digits (String c s')) at 1.
    rewrite (fraction_rest (drop_digits (String c s'))) at 1.
    rewrite <- app_assoc. apply consumed_app.
  - intros s' g'. rewrite optional_fraction by discriminate. discriminate.
Qed.

(** [re.search] with the number pattern finds the first number token. *)
Lemma search_number (s : string) :
  option_map Re.group0 (Re.search number_re s) = first_number_token s.
Proof.
  induction s as [|c s IH].
  - reflexivity.
  - change (Re.search number_re (String c s))
      with (match Re.match_at number_re (String c s) with
            | Some m => Some m
            | None => Re.search number_re s
            end).
    rewrite match_at_number.
    change (first_number_token (String c s))
      with (if is_digit c
            then Some (take_digits (String c s)
                       +:+ fraction_of (drop_digits (String c s)))
            else first_number_token s).
    destruct (is_digit c); [reflexivity | exact IH].
Qed.

(** The parser of the source computes what the specification describes. *)
Lemma extract_price_number_refines (text : string) :
  extract_price_number text = parse_spec text.
Proof.
  unfold extract_price_number, parse_spec.
  rewrite cleaned_is_kept, main_is_normalised.
  destruct text as [|c text]; [reflexivity|].
  cbn [is_empty].
  destruct (is_empty (keep_price_chars (String c text))); [reflexivity|].
  rewrite <- search_number.
  destruct (Re.search number_re _); reflexivity.
Qed.

(** C2, as the source has it.  [extract_price_number] keeps the digits,
    points and commas, gives [None] when nothing is left, takes the
    separator that occurs last as the decimal point (a comma: the points
    are removed and the commas become points; otherwise the commas are
    removed) and reads the first integer[.fraction] token.  With it
    2,747.00 and 2.747,00 are 2747, the text $1,299 is 1.299, and the
    empty text and abc give [None]. *)
Theorem extract_price_number_spec :
  (forall text, extract_price_number text = parse_spec text) /\
  extract_price_number "2,747.00" = Some 2747%Q /\
  extract_price_number "2.747,00" = Some 2747%Q /\
  extract_price_number "$1,299" = Some (1299 # 1000)%Q /\
  extract_price_number EmptyString = None /\
  extract_price_number "abc" = None.
Proof.
  split; [exact extract_price_number_refines|].
  repeat split; vm_compute; reflexivity.
Qed.

(** C2 as stated fails: the text $1,299 is not parsed to 1299. *)
Lemma extract_price_number_1299_counterexample :
  ~ exists v, extract_price_number "$1,299" = Some v /\ (v == 1299)%Q.
Proof.
  intros (v & Hv & Heq).
  vm_compute in Hv. injection Hv as <-. vm_compute in Heq. discriminate.
Qed.

(* ===================================================================== *)
(** ** The rules on a used listing *)
(* ===================================================================== *)

Lemma truthy_num_some (o : option Q) (x : Q) :
  o = Some x -> ~ (x == 0)%Q -> truthy_num o = Some x.
Proof.
  intros -> Hx. unfold truthy_num.
  destruct (Qeq_bool x 0) eqn:E; [|reflexivity].
  apply Qeq_bool_iff in E. contradiction.
Qed.

Lemma truthy_num_inv (o : option Q) (x : Q) :
  truthy_num o = Some x -> o = Some x /\ ~ (x == 0)%Q.
Proof.
  destruct o as [y|]; [|discriminate]. unfold truthy_num.
  destruct (Qeq_bool y 0) eqn:E; [discriminate|].
  intros [= ->]. split; [reflexivity|].
  intros H. apply Qeq_bool_iff in H. congruence.
Qed.

Lemma Qle_bool_false (x y : Q) : Qle_bool x y = false <-> (y < x)%Q.
Proof.
  split.
  - intros H. apply Qnot_le_lt. intros Hle. apply Qle_bool_iff in Hle. congruence.
  - intros H. destruct (Qle_bool x y) eqn:E; [|reflexivity].
    apply Qle_bool_iff in E. exfalso. apply (Qlt_not_le _ _ H E).
Qed.

(** The ceiling rule decides alone when it fires. *)
Lemma trigger_ceiling (scfg : Search) (msrp : option Q) (c p : Q) :
  s_alert_below scfg = Some c -> ~ (c == 0)%Q -> (p <= c)%Q ->
  trigger scfg msrp (Some p) = Some (BelowCeiling c).
Proof.
  intros Hc Hnz Hle. unfold trigger.
  rewrite (truthy_num_some _ c Hc Hnz).
  apply Qle_bool_iff in Hle. rewrite Hle. reflexivity.
Qed.

(** When the ceiling rule does not fire, the percentage rule decides. *)
Lemma trigger_percent (scfg : Search) (msrp price : option Q) :
  ceiling_silent scfg price ->
  trigger scfg msrp price =
  match truthy_num msrp, truthy_num (s_alert_percent_below_msrp scfg), price with
  | Some ref, Some pct, Some p =>
      if Qle_bool pct (pct_drop ref p) then Some (BelowMsrp (pct_drop ref p))
      else None
  | _, _, _ => None
  end.
Proof.
  intros Hsilent. unfold trigger.
  destruct Hsilent as [H | [H | (c & p & Hc & Hp & Hlt)]].
  - rewrite H. reflexivity.
  - rewrite H. destruct (truthy_num (s_alert_below scfg)); reflexivity.
  - rewrite Hp. destruct (truthy_num (s_alert_below scfg)) as [c'|] eqn:E;
      [|reflexivity].
    apply truthy_num_inv in E as [E _]. rewrite Hc in E. injection E as <-.
    apply Qle_bool_false in Hlt. rewrite Hlt. reflexivity.
Qed.

Lemma examine_filtered (scfg : Search) (seen : gset string) (msrp : option Q)
      (title url : string) (price : option Q) :
  text_ok title (s_include_keywords scfg) (s_exclude_keywords scfg) = false ->
  examine scfg seen msrp (title, url, price) = None.
Proof. intros H. unfold examine. rewrite H. reflexivity. Qed.

Lemma examine_seen (scfg : Search) (seen : gset string) (msrp : option Q)
      (title url : string) (price : option Q) :
  url <> EmptyString -> url ∈ seen ->
  examine scfg seen msrp (title, url, price) = None.
Proof.
  intros Hne Hin. unfold examine.
  destruct (negb (text_ok _ _ _)); [reflexivity|].
  destruct url as [|c u]; [contradiction|].
  rewrite bool_decide_eq_true_2 by exact Hin. reflexivity.
Qed.

(** A candidate that passes both filters is judged by [trigger] alone. *)
Lemma examine_passed (scfg : Search) (seen : gset string) (msrp : option Q)
      (title url : string) (price : option Q) :
  text_ok title (s_include_keywords scfg) (s_exclude_keywords scfg) = true ->
  url = EmptyString \/ url ∉ seen ->
  examine scfg seen msrp (title, url, price) =
  option_map (fun r => {| m_title := title; m_url := url; m_price := price;
                          m_reason := r |})
             (trigger scfg msrp price).
Proof.
  intros Hok Hurl. unfold examine. rewrite Hok. cbn [negb].
  assert (negb (is_empty url) && bool_decide (url ∈ seen) = false) as ->.
  { destruct Hurl as [-> | Hnot]; [reflexivity|].
    rewrite bool_decide_eq_false_2 by exact Hnot. apply andb_false_r. }
  destruct (trigger scfg msrp price); reflexivity.
Qed.

(** C5, as the source has it.  A candidate meets the keyword filter,
    then the seen filter, then the ceiling rule, then the percentage
    rule, and the first that applies decides.  The ceiling rule fires
    when a ceiling other than 0 is configured, the price is known and
    the price is at most the ceiling; the percentage rule is consulted
    only when the ceiling rule does not fire. *)
Theorem examine_rule_order (scfg : Search) (seen : gset string)
        (msrp : option Q) (title url : string) (price : option Q) :
  let passes :=
    text_ok title (s_include_keywords scfg) (s_exclude_keywords scfg) in
  let found r :=
    Some {| m_title := title; m_url := url; m_price := price; m_reason := r |} in
  (passes = false -> examine scfg seen msrp (title, url, price) = None) /\
  (url <> EmptyString -> url ∈ seen ->
   examine scfg seen msrp (title, url, price) = None) /\
  (passes = true -> url = EmptyString \/ url ∉ seen ->
   forall c p, s_alert_below scfg = Some c -> ~ (c == 0)%Q ->
               price = Some p -> (p <= c)%Q ->
     examine scfg seen msrp (title, url, price) = found (BelowCeiling c)) /\
  (passes = true -> url = EmptyString \/ url ∉ seen ->
   ceiling_silent scfg price ->
   (forall ref pct p,
       msrp = Some ref -> ~ (ref == 0)%Q ->
       s_alert_percent_below_msrp scfg = Some pct -> ~ (pct == 0)%Q ->
       price = Some p ->
       ((pct <= pct_drop ref p)%Q ->
        examine scfg seen msrp (title, url, price)
        = found (BelowMsrp (pct_drop ref p))) /\
       ((pct_drop ref p < pct)%Q ->
        examine scfg seen msrp (title, url, price) = None)) /\
   (truthy_num msrp = None \/
    truthy_num (s_alert_percent_below_msrp scfg) = None \/ price = None ->
    examine scfg seen msrp (title, url, price) = None)).
Proof.
  intros passes found. split; [|split; [|split]].
  - apply examine_filtered.
  - apply examine_seen.
  - intros Hok Hurl c p Hc Hnz -> Hle.
    rewrite examine_passed by assumption.
    rewrite (trigger_ceiling _ _ c p) by assumption. reflexivity.
  - intros Hok Hurl Hsilent.
    rewrite examine_passed by assumption.
    rewrite trigger_percent by assumption. split.
    + intros ref pct p Href Hrnz Hpct Hpnz ->.
      rewrite (truthy_num_some _ ref Href Hrnz), (truthy_num_some _ pct Hpct Hpnz).
      split; intros H.
      * apply Qle_bool_iff in H. rewrite H. reflexivity.
      * apply Qle_bool_false in H. rewrite H. reflexivity.
    + intros [H | [H | H]]; rewrite H.
      * reflexivity.
      * destruct (truthy_num msrp); reflexivity.
      * destruct (truthy_num msrp), (truthy_num (s_alert_percent_below_msrp scfg));
          reflexivity.
Qed.

Lemma examine_rule_order_witness :
  examine board_search {["https://used.example/1"]} (Some 2747%Q)
          ("foil", "https://used.example/1", Some 100%Q) = None /\
  examine board_search ∅ (Some 2747%Q) ("foil", "https://used.example/1", Some 2000%Q)
  = Some {| m_title := "foil"; m_url := "https://used.example/1";
            m_price := Some 2000%Q; m_reason := BelowCeiling 2300%Q |} /\
  examine board_search ∅ (Some 2747%Q) ("foil", "https://used.example/1", Some 2600%Q)
  = None.
Proof.
  pose proof (examine_rule_order board_search {["https://used.example/1"]}
                (Some 2747%Q) "foil" "https://used.example/1" (Some 100%Q))
    as (_ & Hseen & _).
  pose proof (examine_rule_order board_search ∅ (Some 2747%Q) "foil"
                "https://used.example/1" (Some 2000%Q)) as (_ & _ & Hceil & _).
  pose proof (examine_rule_order board_search ∅ (Some 2747%Q) "foil"
                "https://used.example/1" (Some 2600%Q)) as (_ & _ & _ & Hpct).
  split; [|split].
  - apply Hseen; [discriminate | set_solver].
  - apply (Hceil eq_refl (or_intror (not_elem_of_empty _)) 2300%Q 2000%Q);
      [reflexivity | discriminate | reflexivity | discriminate].
  - assert (ceiling_silent board_search (Some 2600%Q)) as Hs.
    { right. right. exists 2300%Q, 2600%Q. repeat split. }
    destruct (Hpct eq_refl (or_intror (not_elem_of_empty _)) Hs) as [Hrule _].
    apply (Hrule 2747%Q 20%Q 2600%Q);
      [reflexivity | discriminate | reflexivity | discriminate | reflexivity
      | reflexivity].
Defined.

(** C5 as stated fails: with a ceiling of 0 configured and a known price
    of 0, at most the ceiling, the ceiling rule does not fire. *)
Lemma zero_ceiling_counterexample :
  s_alert_below zero_ceiling_search = Some 0%Q /\ (0 <= 0)%Q /\
  examine zero_ceiling_search ∅ None
          ("free foil board", "https://used.example/9", Some 0%Q) = None.
Proof. split; [reflexivity|]. split; [discriminate|]. reflexivity. Qed.

(* ===================================================================== *)
(** ** Prices are never negative *)
(* ===================================================================== *)

Lemma digit_val_nonneg (c : ascii) : is_digit c = true -> 0 <= digit_val c.
Proof.
  unfold is_digit, digit_val. intros H.
  apply andb_true_iff in H as [H _]. apply N.leb_le in H. lia.
Qed.

Lemma digits_val_nonneg (s : string) (acc : Z) :
  0 <= acc -> 0 <= digits_val acc (take_digits s).
Proof.
  revert acc. induction s as [|c s IH]; intros acc Hacc; [exact Hacc|].
  simpl. destruct (is_digit c) eqn:Ec; [|exact Hacc].
  simpl. apply IH. pose proof (digit_val_nonneg c Ec). lia.
Qed.

Lemma float_of_token_nonneg (tok : string) : (0 <= float_of_token tok)%Q.
Proof.
  unfold float_of_token. rewrite Qred_correct.
  unfold Qle. simpl. rewrite Z.mul_1_r.
  destruct (drop_digits tok) as [|c f].
  - simpl. apply digits_val_nonneg. lia.
  - apply digits_val_nonneg, digits_val_nonneg. lia.
Qed.

Lemma extract_price_number_nonneg (text : string) (v : Q) :
  extract_price_number text = Some v -> (0 <= v)%Q.
Proof.
  unfold extract_price_number. intros H.
  repeat case_match; simplify_eq; apply float_of_token_nonneg.
Qed.

Lemma Qltb_lt (x y : Q) : Is_true (Qltb x y) <-> (x < y)%Q.
Proof.
  unfold Qltb. rewrite <- Qle_bool_false.
  destruct (Qle_bool y x); simpl; intuition congruence.
Qed.

(** [py_min] returns a member of the list that no member is below. *)
Lemma py_min_spec (ps : list Q) (p : Q) :
  In (py_min p ps) (p :: ps) /\
  forall x, In x (p :: ps) -> (py_min p ps <= x)%Q.
Proof.
  unfold py_min. revert p. induction ps as [|a ps IH]; intros p.
  - simpl. split; [left; reflexivity|].
    intros x [<- | []]. apply Qle_refl.
  - simpl. destruct (Qltb a p) eqn:E.
    + destruct (IH a) as [Hin Hle]. split.
      * right. exact Hin.
      * intros x [<- | Hx]; [|apply Hle; exact Hx].
        apply Qle_trans with a; [apply Hle; left; reflexivity|].
        apply Qlt_le_weak, Qltb_lt. rewrite E. exact I.
    + destruct (IH p) as [Hin Hle]. split.
      * destruct Hin as [<- | Hin]; [left; reflexivity | right; right; exact Hin].
      * intros x [<- | [<- | Hx]].
        -- apply Hle. left. reflexivity.
        -- apply Qle_trans with p; [apply Hle; left; reflexivity|].
           apply Qnot_lt_le. intros Hlt. apply Qltb_lt in Hlt.
           rewrite E in Hlt. exact Hlt.
        -- apply Hle. right. exact Hx.
Qed.

Lemma min_positive_some (jl : list Q) (m : Q) :
  min_positive jl = Some m -> is_min_positive jl m.
Proof.
  unfold min_positive.
  destruct (filter (fun p => Is_true (Qltb 0 p)) jl) as [|p ps] eqn:E;
    [discriminate|].
  intros [= <-]. destruct (py_min_spec ps p) as [Hin Hle].
  rewrite <- E in Hin, Hle.
  assert (forall x, In x (filter (fun p => Is_true (Qltb 0 p)) jl)
                    <-> (0 < x)%Q /\ In x jl) as Hfilter.
  { intros x. rewrite <- !list_elem_of_In, list_elem_of_filter, Qltb_lt.
    reflexivity. }
  apply Hfilter in Hin as [Hpos Hin].
  split; [exact Hin|]. split; [exact Hpos|].
  intros x Hx Hxpos. apply Hle, Hfilter. split; assumption.
Qed.

Lemma min_positive_none (jl : list Q) :
  min_positive jl = None <-> forall p, In p jl -> ~ (0 < p)%Q.
Proof.
  unfold min_positive.
  destruct (filter (fun p => Is_true (Qltb 0 p)) jl) as [|p ps] eqn:E.
  - split; [|reflexivity]. intros _ x Hx Hpos.
    assert (x ∈ filter (fun p => Is_true (Qltb 0 p)) jl) as Hin.
    { apply list_elem_of_filter. split; [apply Qltb_lt; exact Hpos|].
      apply list_elem_of_In. exact Hx. }
    rewrite E in Hin. inversion Hin.
  - split; [discriminate|]. intros H. exfalso.
    assert (p ∈ filter (fun p => Is_true (Qltb 0 p)) jl) as Hin
        by (rewrite E; left).
    apply list_elem_of_filter in Hin as [Hpos Hin].
    apply (H p); [apply list_elem_of_In; exact Hin | apply Qltb_lt; exact Hpos].
Qed.

(* ===================================================================== *)
(** ** Passes of a search: the seen list and the cap *)
(* ===================================================================== *)

Lemma examine_some (scfg : Search) (seen : gset string) (msrp : option Q)
      (it : Item) (m : Match) :
  examine scfg seen msrp it = Some m ->
  m_url m = item_url it /\ (m_url m = EmptyString \/ m_url m ∉ seen).
Proof.
  destruct it as [[title url] price]. unfold examine, item_url. cbn.
  destruct (negb (text_ok _ _ _)); [discriminate|].
  destruct (negb (is_empty url) && bool_decide (url ∈ seen)) eqn:E; [discriminate|].
  destruct (trigger scfg msrp price); [|discriminate].
  intros [= <-]. cbn. split; [reflexivity|].
  apply andb_false_iff in E as [E | E].
  - left. destruct url; [reflexivity | discriminate].
  - right. apply bool_decide_eq_false in E. exact E.
Qed.

Lemma matches_of_spec (scfg : Search) (msrp : option Q) (cands : list Item)
      (seen : list string) (m : Match) :
  In m (matches_of scfg msrp cands seen) <->
  exists it, In it cands /\ examine scfg (list_to_set seen) msrp it = Some m.
Proof.
  unfold matches_of. rewrite <- list_elem_of_In, list_elem_of_omap.
  split; intros (it & H1 & H2); exists it; split; auto;
    apply list_elem_of_In; exact H1.
Qed.

Lemma add_seen_spec (ms : list Match) (seen : gset string) (x : string) :
  x ∈ add_seen seen ms <->
  x ∈ seen \/ (x <> EmptyString /\ exists m, In m ms /\ m_url m = x).
Proof.
  unfold add_seen. revert seen. induction ms as [|m ms IH]; intros seen.
  - cbn. split; [auto|]. intros [H | (_ & m & [] & _)]. exact H.
  - cbn [fold_left]. rewrite IH. destruct (m_url m) as [|c u] eqn:E; cbn.
    + split.
      * intros [H | (Hne & m' & Hin & Hu)]; [auto|]. right. split; [exact Hne|]. eauto.
      * intros [H | (Hne & m' & [<- | Hin] & Hu)]; [auto | congruence |].
        right. split; [exact Hne|]. eauto.
    + rewrite elem_of_union, elem_of_singleton. split.
      * intros [[H | ->] | (Hne & m' & Hin & Hu)]; [auto | |].
        -- right. split; [discriminate|]. exists m. auto.
        -- right. split; [exact Hne|]. eauto.
      * intros [H | (Hne & m' & [<- | Hin] & Hu)]; [auto | |].
        -- left. right. congruence.
        -- right. split; [exact Hne|]. eauto.
Qed.

Lemma last_n_sub {A : Type} (n : nat) (l : list A) (x : A) :
  x ∈ last_n n l -> x ∈ l.
Proof.
  unfold last_n. intros H.
  rewrite <- (take_drop (length l - n) l). apply elem_of_app. right. exact H.
Qed.

Lemma last_n_all {A : Type} (n : nat) (l : list A) :
  (length l <= n)%nat -> last_n n l = l.
Proof.
  intros H. unfold last_n.
  replace (length l - n)%nat with 0%nat by lia. reflexivity.
Qed.

Lemma sorted_elements (seen : gset string) (x : string) :
  x ∈ merge_sort String.le (elements seen) <-> x ∈ seen.
Proof. rewrite merge_sort_Permutation. apply elem_of_elements. Qed.

Lemma persist_seen_sub (seen : gset string) (x : string) :
  In x (persist_seen seen) -> x ∈ seen.
Proof.
  unfold persist_seen. rewrite <- list_elem_of_In. intros H.
  apply last_n_sub in H. apply sorted_elements. exact H.
Qed.

Lemma persist_seen_all (seen : gset string) (x : string) :
  (size seen <= 2000)%nat -> In x (persist_seen seen) <-> x ∈ seen.
Proof.
  intros H. unfold persist_seen. rewrite last_n_all.
  - rewrite <- list_elem_of_In. apply sorted_elements.
  - rewrite merge_sort_Permutation. exact H.
Qed.

Section Passes.

Variables (scfg : Search) (msrp : option Q) (cands : list Item) (seen0 : list string).

Lemma match_url_candidate (seen : list string) (m : Match) :
  In m (matches_of scfg msrp cands seen) -> In (m_url m) (map item_url cands).
Proof.
  intros H. apply matches_of_spec in H as (it & Hin & Hex).
  apply examine_some in Hex as [-> _]. apply in_map. exact Hin.
Qed.


Lemma seen_after_sub (seen : list string) (x : string) :
  In x (seen_after scfg msrp cands seen) ->
  In x seen \/ (x <> EmptyString /\
                exists m, In m (matches_of scfg msrp cands seen) /\ m_url m = x).
Proof.
  unfold seen_after. intros H. apply persist_seen_sub, add_seen_spec in H.
  destruct H as [H | H]; [left | right; exact H].
  apply elem_of_list_to_set in H. apply list_elem_of_In. exact H.
Qed.

Lemma seen_at_bounded (n : nat) (x : string) :
  In x (seen_at scfg msrp cands seen0 n) -> x ∈ known_urls seen0 cands.
Proof.
  revert x. induction n as [|n IH]; intros x H; unfold known_urls.
  - apply elem_of_union. left. apply elem_of_list_to_set, list_elem_of_In. exact H.
  - cbn [seen_at] in H. apply seen_after_sub in H as [H | (_ & m & Hm & <-)].
    + apply IH. exact H.
    + apply elem_of_union. right.
      apply elem_of_list_to_set, list_elem_of_In.
      eapply match_url_candidate. exact Hm.
Qed.

Lemma seen_after_all (n : nat) (x : string) :
  (size (known_urls seen0 cands) <= 2000)%nat ->
  In x (seen_at scfg msrp cands seen0 (S n)) <->
  In x (seen_at scfg msrp cands seen0 n) \/
  (x <> EmptyString /\
   exists m, In m (alerts_at scfg msrp cands seen0 n) /\ m_url m = x).
Proof.
  intros Hcap. cbn [seen_at]. unfold seen_after, alerts_at.
  rewrite persist_seen_all.
  - rewrite add_seen_spec, elem_of_list_to_set, list_elem_of_In. reflexivity.
  - etransitivity; [|exact Hcap]. apply subseteq_size.
    intros y Hy. apply add_seen_spec in Hy as [Hy | (_ & m & Hm & <-)].
    + apply seen_at_bounded with n.
      apply elem_of_list_to_set in Hy. apply list_elem_of_In. exact Hy.
    + unfold known_urls. apply elem_of_union. right.
      apply elem_of_list_to_set, list_elem_of_In.
      eapply match_url_candidate. exact Hm.
Qed.


End Passes.




(** The sample block yields 50.00 and 30; its -5 is not collected, as a
    value has to start with a digit. *)
Lemma offer_page_prices : jsonld_prices offer_page = [50%Q; 30%Q].
Proof. vm_compute. reflexivity. Qed.

(* ===================================================================== *)
(** ** The patterns of the structured data, step by step *)
(* ===================================================================== *)

Lemma drop_while_length (p : ascii -> bool) (s : string) :
  (String.length (str_drop_while p s) <= String.length s)%nat.
Proof.
  induction s as [|c s IH]; [reflexivity|].
  simpl. destruct (p c); simpl; lia.
Qed.

Lemma take_drop_while (p : ascii -> bool) (s : string) :
  s = str_take_while p s +:+ str_drop_while p s.
Proof.
  induction s as [|c s IH]; [reflexivity|].
  simpl. destruct (p c); [|reflexivity].
  rewrite app_cons, <- IH. reflexivity.
Qed.

Lemma drop_while_head (p : ascii -> bool) (s : string) (c : ascii) (r : string) :
  str_drop_while p s = String c r -> p c = false.
Proof.
  induction s as [|x s IH]; [discriminate|].
  simpl. destruct (p x) eqn:E; [exact IH|]. intros [= <- _]. exact E.
Qed.

Lemma after_word_length (w s rest : string) :
  after_word w s = Some rest ->
  (String.length rest + String.length w = String.length s)%nat.
Proof.
  revert s. induction w as [|a w IH]; intros s.
  - intros [= <-]. simpl. lia.
  - destruct s as [|b s]; [discriminate|]. simpl.
    destruct (ascii_eqb a b); [|discriminate].
    intros H. apply IH in H. lia.
Qed.

Lemma after_word_ci_length (w s rest : string) :
  after_word_ci w s = Some rest ->
  (String.length rest + String.length w = String.length s)%nat.
Proof.
  revert s. induction w as [|a w IH]; intros s.
  - intros [= <-]. simpl. lia.
  - destruct s as [|b s]; [discriminate|]. simpl.
    destruct (ascii_eqb (lower_char b) (lower_char a)); [|discriminate].
    intros H. apply IH in H. lia.
Qed.

(** A word without [>] is not matched across a [>]. *)
Lemma after_word_ci_tag (w s rest : string) :
  str_all (fun a => negb (ascii_eqb (lower_char a) ">")) w = true ->
  after_word_ci w s = Some rest ->
  str_drop_while not_gt s = str_drop_while not_gt rest.
Proof.
  revert s. induction w as [|a w IH]; intros s Hw.
  - intros [= <-]. reflexivity.
  - destruct s as [|b s]; [discriminate|].
    cbn [str_all] in Hw. apply andb_true_iff in Hw as [Ha Hw].
    cbn [after_word_ci].
    destruct (ascii_eqb (lower_char b) (lower_char a)) eqn:E; [|discriminate].
    intros H. cbn [str_drop_while].
    assert (not_gt b = true) as ->; [|apply IH; assumption].
    unfold not_gt. apply negb_true_iff. apply negb_true_iff in Ha.
    apply ascii_eqb_eq in E.
    destruct (ascii_eqb b ">") eqn:Eb; [|reflexivity].
    apply ascii_eqb_eq in Eb. subst b. rewrite <- E in Ha. discriminate.
Qed.


Section PatternSteps.

Context {A : Type}.
Implicit Types (k : @Re.cont A) (s : string) (g : option string).

Lemma run_lit (w : string) s g k :
  Re.run (Re.lit w) s g k
  = match after_word w s with Some s' => k s' g | None => None end.
Proof.
  revert s. induction w as [|a w IH]; intros s; [reflexivity|].
  destruct s as [|b s]; [reflexivity|].
  cbn [Re.lit Re.run Re.ch after_word].
  destruct (ascii_eqb a b); [apply IH | reflexivity].
Qed.

Lemma run_lit_ci_steps (w : string) s g k :
  Re.run (Re.lit_ci w) s g k
  = match after_word_ci w s with Some s' => k s' g | None => None end.
Proof.
  revert s. induction w as [|a w IH]; intros s; [reflexivity|].
  destruct s as [|b s]; [reflexivity|].
  cbn [Re.lit_ci Re.run Re.ch_ci after_word_ci].
  destruct (ascii_eqb (lower_char b) (lower_char a)); [apply IH | reflexivity].
Qed.

(** A greedy run over a class takes the whole run when the continuation
    that fails after the whole run fails after every shorter one. *)
Lemma star_class (p : ascii -> bool) k (n : nat) s g :
  (String.length s <= n)%nat ->
  (forall c s', p c = true -> k (str_drop_while p s') g = None ->
                k (String c s') g = None) ->
  Re.star_loop (Re.run (Re.Chr p)) k n s g = k (str_drop_while p s) g.
Proof.
  intros Hn Hk. revert s Hn. induction n as [|n IH]; intros s Hn.
  - destruct s; [reflexivity | simpl in Hn; lia].
  - destruct s as [|c s]; [reflexivity|].
    cbn [Re.star_loop Re.run str_drop_while].
    destruct (p c) eqn:Ec; [|reflexivity].
    unfold Re.progress at 1.
    replace (String.length s <? String.length (String c s))%nat with true
      by (symmetry; apply Nat.ltb_lt; simpl; lia).
    simpl in Hn. rewrite IH by lia.
    destruct (k (str_drop_while p s) g) eqn:E; [reflexivity|].
    apply Hk; assumption.
Qed.

Lemma run_star_class (p : ascii -> bool) k s g :
  (forall c s', p c = true -> k (str_drop_while p s') g = None ->
                k (String c s') g = None) ->
  Re.run (Re.Star (Re.Chr p)) s g k = k (str_drop_while p s) g.
Proof. intros Hk. cbn [Re.run]. apply star_class; [lia | exact Hk]. Qed.

(** The greedy run over the attributes of a tag, with the type
    attribute to follow: the run gives way until the attribute is at
    its end, and what follows the attribute does not depend on where
    the attribute stands. *)
Lemma star_tag (p : ascii -> bool) k (R : string -> option A) (n : nat) s g :
  (forall c, p c = not_gt c) ->
  (forall t, k t g = if ld_json_type t then R (str_drop_while not_gt t) else None) ->
  (String.length s <= n)%nat ->
  Re.star_loop (Re.run (Re.Chr p)) k n s g
  = if type_in_tag s then R (str_drop_while not_gt s) else None.
Proof.
  intros Hp Hk. revert s. induction n as [|n IH]; intros s Hn.
  - destruct s; [|simpl in Hn; lia]. cbn. rewrite Hk. reflexivity.
  - destruct s as [|c s]; [cbn; rewrite Hk; reflexivity|].
    cbn [Re.star_loop Re.run type_in_tag str_drop_while]. rewrite Hp.
    destruct (not_gt c) eqn:Ec.
    + unfold Re.progress at 1.
      replace (String.length s <? String.length (String c s))%nat with true
        by (symmetry; apply Nat.ltb_lt; simpl; lia).
      simpl in Hn. rewrite IH by lia. rewrite Hk.
      cbn [str_drop_while]. rewrite Ec.
      destruct (type_in_tag s), (ld_json_type (String c s)),
               (R (str_drop_while not_gt s)); reflexivity.
    + rewrite Hk.
      assert (ld_json_type (String c s) = false) as ->; [|reflexivity].
      unfold not_gt in Ec. apply negb_false_iff, ascii_eqb_eq in Ec. subst c.
      reflexivity.
Qed.

(** The lazy run before the closing tag ends at the first closing
    tag. *)
Lemma lazy_until_close (F : string -> string -> A) (pre : string) (n : nat) s g :
  (String.length s <= n)%nat ->
  Re.lazy_loop (Re.run Re.any)
    (fun s' _ =>
       match after_word_ci "</script>" s' with
       | Some rest => Some (F (consumed (pre +:+ s) s') rest)
       | None => None
       end) n s g
  = match until_close s with
    | Some (body, rest) => Some (F (pre +:+ body) rest)
    | None => None
    end.
Proof.
  revert pre s. induction n as [|n IH]; intros pre s Hn.
  - destruct s; [|simpl in Hn; lia]. reflexivity.
  - destruct s as [|c s]; [reflexivity|].
    change (until_close (String c s))
      with (match after_word_ci "</script>" (String c s) with
            | Some rest => Some (EmptyString, rest)
            | None => match until_close s with
                      | Some (b, rest) => Some (String c b, rest)
                      | None => None
                      end
            end).
    cbn [Re.lazy_loop].
    destruct (after_word_ci "</script>" (String c s)) as [rest|] eqn:E.
    + rewrite consumed_app, app_nil_r. reflexivity.
    + change (Re.run Re.any (String c s) g ?K) with (K s g).
      unfold Re.progress at 1.
      replace (String.length s <? String.length (String c s))%nat with true
        by (symmetry; apply Nat.ltb_lt; simpl; lia).
      simpl in Hn.
      specialize (IH (pre +:+ String c EmptyString) s ltac:(lia)).
      rewrite app_assoc in IH. rewrite app_cons, app_nil_l in IH.
      rewrite IH. destruct (until_close s) as [[b r]|]; [|reflexivity].
      rewrite app_assoc, app_cons, app_nil_l. reflexivity.
Qed.

End PatternSteps.

Lemma str_drop_while_ext (p q : ascii -> bool) (s : string) :
  (forall c, p c = q c) -> str_drop_while p s = str_drop_while q s.
Proof.
  intros H. induction s as [|c s IH]; [reflexivity|].
  simpl. rewrite H, IH. reflexivity.
Qed.

Lemma str_take_while_ext (p q : ascii -> bool) (s : string) :
  (forall c, p c = q c) -> str_take_while p s = str_take_while q s.
Proof.
  intros H. induction s as [|c s IH]; [reflexivity|].
  simpl. rewrite H, IH. reflexivity.
Qed.

Lemma none_of_gt (c : ascii) :
  negb (existsb (ascii_eqb c) [">"%char]) = not_gt c.
Proof. unfold not_gt. cbn. rewrite orb_false_r. reflexivity. Qed.

Lemma one_of_quotes (c : ascii) :
  existsb (ascii_eqb c) [dquote; squote] = is_quote c.
Proof. unfold is_quote. cbn. rewrite orb_false_r. reflexivity. Qed.

Lemma quote_not_gt (q : ascii) : is_quote q = true -> not_gt q = true.
Proof.
  unfold is_quote, not_gt. intros H. apply negb_true_iff.
  destruct (ascii_eqb q ">") eqn:E; [|reflexivity].
  apply ascii_eqb_eq in E. subst q. discriminate.
Qed.

Section ScriptPattern.

Context {A : Type}.
Implicit Types (k : @Re.cont A) (s t : string) (g : option string).

Lemma run_seqs_cons (a : Re.regex) (rs : list Re.regex) s g k :
  Re.run (seqs (a :: rs)) s g k
  = Re.run a s g (fun s' g' => Re.run (seqs rs) s' g' k).
Proof. reflexivity. Qed.

Lemma run_chr (p : ascii -> bool) s g k :
  Re.run (Re.Chr p) s g k
  = match s with
    | String c s' => if p c then k s' g else None
    | EmptyString => None
    end.
Proof. destruct s; reflexivity. Qed.

Lemma run_plus_chr (p : ascii -> bool) s g k :
  Re.run (Re.Plus (Re.Chr p)) s g k
  = match s with
    | String c s' =>
        if p c then Re.star_loop (Re.run (Re.Chr p)) k (String.length s') s' g
        else None
    | EmptyString => None
    end.
Proof. destruct s; reflexivity. Qed.

Lemma lazy_loop_ext (k1 k2 : @Re.cont A) (n : nat) s g :
  (forall s' g', k1 s' g' = k2 s' g') ->
  Re.lazy_loop (Re.run Re.any) k1 n s g = Re.lazy_loop (Re.run Re.any) k2 n s g.
Proof.
  intros H. revert s g. induction n as [|n IH]; intros s g; cbn [Re.lazy_loop].
  - apply H.
  - rewrite H. destruct (k2 s g); [reflexivity|].
    destruct s as [|c s]; [reflexivity|].
    change (Re.run Re.any (String c s) g ?K) with (K s g).
    unfold Re.progress. destruct (_ <? _)%nat; [apply IH | reflexivity].
Qed.

End ScriptPattern.

(** What follows the greedy run over the attributes of the tag. *)
Lemma tag_rest (s t : string) :
  Re.run (seqs [ Re.lit_ci "type="; quote; Re.lit_ci "application/ld+json"; quote;
                 Re.Star (Re.none_of [">"%char]); Re.ch ">";
                 Re.Group (Re.Lazy Re.any); Re.lit_ci "</script>" ])
         t None (fun s' g => Some (Re.Found (consumed s s') g s'))
  = if ld_json_type t
    then match str_drop_while not_gt t with
         | String _ body_on =>
             match until_close body_on with
             | Some (body, rest) => Some (Re.Found (consumed s rest) (Some body) rest)
             | None => None
             end
         | EmptyString => None
         end
    else None.
Proof.
  rewrite run_seqs_cons, run_lit_ci_steps. unfold ld_json_type.
  destruct (after_word_ci "type=" t) as [t1|] eqn:E1; [|reflexivity].
  rewrite (after_word_ci_tag "type=" t t1 eq_refl E1).
  rewrite run_seqs_cons. unfold quote at 1, Re.one_of. rewrite run_chr.
  destruct t1 as [|q t2]; [reflexivity|].
  rewrite one_of_quotes. destruct (is_quote q) eqn:Eq; [|reflexivity].
  cbn [andb str_drop_while]. rewrite (quote_not_gt q Eq).
  rewrite run_seqs_cons, run_lit_ci_steps.
  destruct (after_word_ci "application/ld+json" t2) as [t3|] eqn:E2; [|reflexivity].
  rewrite (after_word_ci_tag "application/ld+json" t2 t3 eq_refl E2).
  rewrite run_seqs_cons. unfold quote at 1, Re.one_of. rewrite run_chr.
  destruct t3 as [|q' t4]; [reflexivity|].
  rewrite one_of_quotes. destruct (is_quote q') eqn:Eq'; [|reflexivity].
  cbn [str_drop_while]. rewrite (quote_not_gt q' Eq').
  rewrite run_seqs_cons. unfold Re.none_of.
  rewrite run_star_class.
  - rewrite (str_drop_while_ext _ not_gt) by apply none_of_gt.
    rewrite run_seqs_cons. unfold Re.ch. rewrite run_chr.
    destruct (str_drop_while not_gt t4) as [|c body_on] eqn:Ed; [reflexivity|].
    apply drop_while_head in Ed. unfold not_gt in Ed.
    apply negb_false_iff, ascii_eqb_eq in Ed. subst c.
    cbn [ascii_eqb Ascii.eqb Bool.eqb]. 
    rewrite run_seqs_cons. cbn [Re.run].
    erewrite lazy_loop_ext.
    + apply (lazy_until_close
               (fun b rest => Re.Found (consumed s rest) (Some b) rest)
               EmptyString (String.length body_on) body_on None). lia.
    + intros s' g'. cbv beta. rewrite run_seqs_cons, run_lit_ci_steps.
      rewrite app_nil_l. destruct (after_word_ci "</script>" s'); reflexivity.
  - intros c s' Hc _. rewrite run_seqs_cons. unfold Re.ch. rewrite run_chr.
    rewrite none_of_gt in Hc. unfold not_gt in Hc. apply negb_true_iff in Hc.
    rewrite ascii_eqb_sym, Hc. reflexivity.
Qed.

(** The pattern of a JSON-LD block finds what the specification
    describes. *)
Lemma match_at_script (s : string) :
  Re.match_at jsonld_script_re s
  = match block_at s with
    | Some (body, rest) => Some (Re.Found (consumed s rest) (Some body) rest)
    | None => None
    end.
Proof.
  unfold Re.match_at, jsonld_script_re, block_at.
  rewrite run_seqs_cons, run_lit_ci_steps.
  destruct (after_word_ci "<script" s) as [s1|]; [|reflexivity].
  rewrite run_seqs_cons. unfold Re.none_of at 1. rewrite run_plus_chr.
  destruct s1 as [|c s0]; [reflexivity|].
  rewrite none_of_gt. destruct (not_gt c); [|reflexivity].
  cbn [andb].
  rewrite (star_tag _ _
             (fun r => match r with
                       | String _ body_on =>
                           match until_close body_on with
                           | Some (body, rest) =>
                               Some (Re.Found (consumed s rest) (Some body) rest)
                           | None => None
                           end
                       | EmptyString => None
                       end)).
  - destruct (type_in_tag s0); [|reflexivity].
    destruct (str_drop_while not_gt s0); reflexivity.
  - apply none_of_gt.
  - intros t. apply tag_rest.
  - lia.
Qed.

Lemma after_word_app (a b s : string) :
  after_word (a +:+ b) s
  = match after_word a s with Some s' => after_word b s' | None => None end.
Proof.
  revert s. induction a as [|x a IH]; intros s; [reflexivity|].
  rewrite app_cons. destruct s as [|y s]; [reflexivity|].
  cbn [after_word]. destruct (ascii_eqb x y); [apply IH | reflexivity].
Qed.

Lemma space_is_plain (c : ascii) :
  is_space c = true ->
  ascii_eqb ":" c = false /\ ascii_eqb dquote c = false /\ is_digit c = false.
Proof.
  destruct c as [[] [] [] [] [] [] [] []]; try discriminate; intros _;
    repeat split; reflexivity.
Qed.

Lemma take_while_consumed (p : ascii -> bool) (s : string) :
  consumed s (str_drop_while p s) = str_take_while p s.
Proof. rewrite (take_drop_while p s) at 1. apply consumed_app. Qed.

Section KeyPattern.

Context {A : Type}.
Implicit Types (k : @Re.cont A) (s t : string) (g : option string).

Lemma run_group_step (a : Re.regex) s g k :
  Re.run (Re.Group a) s g k
  = Re.run a s g (fun s' _ => k s' (Some (consumed s s'))).
Proof. reflexivity. Qed.

Lemma run_seq_step (a b : Re.regex) s g k :
  Re.run (Re.Seq a b) s g k = Re.run a s g (fun s' g' => Re.run b s' g' k).
Proof. reflexivity. Qed.

Lemma run_star_step (a : Re.regex) s g k :
  Re.run (Re.Star a) s g k = Re.star_loop (Re.run a) k (String.length s) s g.
Proof. reflexivity. Qed.

Lemma run_quoted_key (key : string) (rs : list Re.regex) s g k :
  Re.run (seqs (Re.ch dquote :: Re.lit key :: Re.ch dquote :: rs)) s g k
  = match after_word (quoted key) s with
    | Some s1 => Re.run (seqs rs) s1 g k
    | None => None
    end.
Proof.
  rewrite run_seqs_cons. unfold Re.ch at 1. rewrite run_chr. unfold quoted.
  destruct s as [|q s0]; [reflexivity|]. cbn [after_word].
  destruct (ascii_eqb dquote q); [|reflexivity].
  rewrite run_seqs_cons, run_lit, after_word_app.
  destruct (after_word key s0) as [s1|]; [|reflexivity].
  rewrite run_seqs_cons. unfold Re.ch at 1. rewrite run_chr.
  destruct s1 as [|q' s2]; [reflexivity|]. cbn [after_word].
  destruct (ascii_eqb dquote q'); reflexivity.
Qed.

Lemma run_opt_dquote s g k :
  (forall r, k r g = None -> k (String dquote r) g = None) ->
  Re.run (Re.Opt (Re.ch dquote)) s g k = k (skip_dquote s) g.
Proof.
  intros Hk. unfold Re.Opt, Re.ch. cbn [Re.run].
  destruct s as [|c r]; [reflexivity|]. cbn [skip_dquote].
  rewrite (ascii_eqb_sym c dquote).
  destruct (ascii_eqb dquote c) eqn:E; [|reflexivity].
  apply ascii_eqb_eq in E. subst c.
  destruct (k r g) eqn:Er; [reflexivity|]. apply Hk. exact Er.
Qed.

End KeyPattern.

(** The pattern of a key finds what the specification describes. *)
Lemma match_at_key (key s : string) :
  Re.match_at (jsonld_key_re key) s
  = match value_at key s with
    | Some (num, rest) => Some (Re.Found (consumed s rest) (Some num) rest)
    | None => None
    end.
Proof.
  unfold Re.match_at, jsonld_key_re, value_at.
  rewrite run_quoted_key.
  destruct (after_word (quoted key) s) as [s1|]; [|reflexivity].
  rewrite run_seqs_cons, run_star_class.
  2:{ intros c s' Hc _. rewrite run_seqs_cons. unfold Re.ch. rewrite run_chr.
      destruct (space_is_plain c Hc) as (-> & _). reflexivity. }
  rewrite run_seqs_cons. unfold Re.ch at 1. rewrite run_chr.
  destruct (str_drop_while is_space s1) as [|c s2]; [reflexivity|].
  rewrite (ascii_eqb_sym c ":").
  destruct (ascii_eqb ":" c); [|reflexivity].
  assert (forall t g,
             Re.run (seqs [Re.Opt (Re.ch dquote)]) t g
                    (fun s' g' => Some (Re.Found (consumed s s') g' s'))
             = Some (Re.Found (consumed s (skip_dquote t)) g (skip_dquote t)))
    as Hlast.
  { intros t g. rewrite run_seqs_cons, run_opt_dquote; [reflexivity|].
    intros r. discriminate. }
  assert (forall t,
             Re.run (seqs [Re.Group
                             (Re.Seq (Re.Chr is_digit)
                                (Re.Star (Re.Chr (fun c => is_digit c || ascii_eqb c "."
                                                           || ascii_eqb c ","))));
                           Re.Opt (Re.ch dquote)]) t None
                    (fun s' g' => Some (Re.Found (consumed s s') g' s'))
             = match t with
               | String d _ =>
                   if is_digit d
                   then Some (Re.Found
                                (consumed s (skip_dquote (str_drop_while is_numeral_char t)))
                                (Some (str_take_while is_numeral_char t))
                                (skip_dquote (str_drop_while is_numeral_char t)))
                   else None
               | EmptyString => None
               end) as Hgroup.
  { intros t. rewrite run_seqs_cons.
    destruct t as [|d r]; [reflexivity|].
    rewrite run_group_step, run_seq_step, run_chr.
    destruct (is_digit d) eqn:Ed; [|reflexivity].
    change (fun c0 : ascii => is_digit c0 || ascii_eqb c0 "." || ascii_eqb c0 ",")
      with is_numeral_char.
    rewrite run_star_step, star_class; [| lia |].
    - rewrite Hlast.
      assert (str_drop_while is_numeral_char (String d r)
              = str_drop_while is_numeral_char r) as Hd
          by (cbn [str_drop_while]; unfold is_numeral_char at 1; rewrite Ed;
              reflexivity).
      rewrite Hd. rewrite <- Hd at 2. rewrite take_while_consumed. reflexivity.
    - intros c0 s' _ H. rewrite Hlast in H. discriminate. }
  rewrite run_seqs_cons, run_star_class.
  2:{ intros c0 s' Hc _. destruct (space_is_plain c0 Hc) as (_ & Hq & Hd).
      rewrite run_seqs_cons, run_opt_dquote.
      - rewrite Hgroup. cbn [skip_dquote]. rewrite ascii_eqb_sym, Hq, Hd.
        reflexivity.
      - intros r _. rewrite Hgroup. reflexivity. }
  cbv zeta. rewrite run_seqs_cons, run_opt_dquote.
  - rewrite Hgroup.
    destruct (skip_dquote (str_drop_while is_space s2)) as [|d r]; [reflexivity|].
    destruct (is_digit d); reflexivity.
  - intros r _. rewrite Hgroup. reflexivity.
Qed.

Lemma search_first (r : Re.regex) (look : string -> option (string * string))
      (s : string) :
  (forall t, Re.match_at r t
             = match look t with
               | Some (a, rest) => Some (Re.Found (consumed t rest) (Some a) rest)
               | None => None
               end) ->
  match Re.search r s with
  | Some m => first_at look s = Some (group1_text m, Re.after m)
  | None => first_at look s = None
  end.
Proof.
  intros Hm. induction s as [|c s IH].
  - cbn [Re.search first_at]. rewrite Hm.
    destruct (look EmptyString) as [[a rest]|]; reflexivity.
  - cbn [Re.search first_at]. rewrite Hm.
    destruct (look (String c s)) as [[a rest]|]; [reflexivity | exact IH].
Qed.

Lemma finditer_fuel_scan (r : Re.regex) (look : string -> option (string * string))
      (fuel : nat) (s : string) :
  (forall t, Re.match_at r t
             = match look t with
               | Some (a, rest) => Some (Re.Found (consumed t rest) (Some a) rest)
               | None => None
               end) ->
  map group1_text (Re.finditer_fuel fuel r s) = scan_fuel look fuel s.
Proof.
  intros Hm. revert s. induction fuel as [|fuel IH]; intros s; [reflexivity|].
  cbn [Re.finditer_fuel scan_fuel].
  pose proof (search_first r look s Hm) as H.
  destruct (Re.search r s) as [m|]; rewrite H; [|reflexivity].
  cbn [map]. f_equal.
  destruct (String.length (Re.after m) <? String.length s)%nat;
    [apply IH | reflexivity].
Qed.

Lemma finditer_scan (r : Re.regex) (look : string -> option (string * string))
      (s : string) :
  (forall t, Re.match_at r t
             = match look t with
               | Some (a, rest) => Some (Re.Found (consumed t rest) (Some a) rest)
               | None => None
               end) ->
  map group1_text (Re.finditer r s) = scan look s.
Proof. apply finditer_fuel_scan. Qed.

Lemma flat_map_map {A B C : Type} (f : B -> list C) (g : A -> B) (l : list A) :
  flat_map f (map g l) = flat_map (fun x => f (g x)) l.
Proof. induction l as [|x l IH]; [reflexivity|]. cbn. rewrite IH. reflexivity. Qed.

Lemma omap_map {A B C : Type} (f : B -> option C) (g : A -> B) (l : list A) :
  omap f (map g l) = omap (fun x => f (g x)) l.
Proof.
  induction l as [|x l IH]; [reflexivity|].
  cbn. rewrite IH. reflexivity.
Qed.

Lemma omap_pointwise {A B : Type} (f g : A -> option B) (l : list A) :
  (forall x, f x = g x) -> omap f l = omap g l.
Proof.
  intros H. induction l as [|x l IH]; [reflexivity|].
  cbn. rewrite H, IH. reflexivity.
Qed.

Lemma key_prices_values (blob key : string) :
  key_prices blob key = values_under key blob.
Proof.
  unfold key_prices, values_under.
  rewrite <- (finditer_scan (jsonld_key_re key) (value_at key) blob (match_at_key key)).
  rewrite omap_map. apply omap_pointwise.
  intros pm. apply extract_price_number_refines.
Qed.

(** The structured step collects what the specification describes. *)
Lemma jsonld_prices_collected (text : string) :
  jsonld_prices text = collected text.
Proof.
  unfold jsonld_prices, collected.
  rewrite <- (finditer_scan jsonld_script_re block_at text match_at_script).
  rewrite flat_map_map. apply flat_map_ext. intros m.
  unfold blob_prices, jsonld_keys. cbn [flat_map].
  rewrite !key_prices_values, List.app_nil_r. reflexivity.
Qed.

Lemma none_of_quotes (c : ascii) :
  negb (existsb (ascii_eqb c) [dquote; squote]) = not_quote c.
Proof. unfold not_quote. rewrite one_of_quotes. reflexivity. Qed.

Lemma last_before_gt_map {A B : Type} (f : A -> B) (look : string -> option A)
      (s : string) :
  last_before_gt (fun t => option_map f (look t)) s
  = option_map f (last_before_gt look s).
Proof.
  induction s as [|c s IH]; [reflexivity|].
  cbn [last_before_gt]. destruct (not_gt c); [|reflexivity].
  rewrite IH. destruct (last_before_gt look s); reflexivity.
Qed.

Section MetaPattern.

Context {A : Type}.
Implicit Types (k : @Re.cont A) (s t : string) (g : option string).

(** A greedy run over the attributes of a tag gives way until what
    follows is found: at the last place before the end of the tag. *)
Lemma star_last (p : ascii -> bool) k (F : string -> option A) (n : nat) s g :
  (forall c, p c = not_gt c) ->
  (forall t, k t g = F t) ->
  (String.length s <= n)%nat ->
  Re.star_loop (Re.run (Re.Chr p)) k n s g = last_before_gt F s.
Proof.
  intros Hp Hk. revert s. induction n as [|n IH]; intros s Hn.
  - destruct s; [|simpl in Hn; lia]. cbn. apply Hk.
  - destruct s as [|c s]; [cbn; apply Hk|].
    cbn [Re.star_loop last_before_gt]. rewrite run_chr, Hp.
    destruct (not_gt c); [|apply Hk].
    unfold Re.progress at 1.
    replace (String.length s <? String.length (String c s))%nat with true
      by (symmetry; apply Nat.ltb_lt; simpl; lia).
    simpl in Hn. rewrite IH by lia. rewrite Hk. reflexivity.
Qed.

End MetaPattern.

(** What follows the greedy run over the attributes of a meta tag. *)
Lemma content_rest (s t : string) :
  Re.run (seqs [ Re.lit_ci "content="; quote;
                 Re.Group (Re.Plus (Re.none_of [dquote; squote])); quote ])
         t None (fun s' g => Some (Re.Found (consumed s s') g s'))
  = option_map (fun '(v, rest) => Re.Found (consumed s rest) (Some v) rest)
               (content_at t).
Proof.
  rewrite run_seqs_cons, run_lit_ci_steps. unfold content_at.
  destruct (after_word_ci "content=" t) as [[|q v]|]; [reflexivity| |reflexivity].
  rewrite run_seqs_cons. unfold quote at 1, Re.one_of. rewrite run_chr.
  rewrite one_of_quotes. destruct (is_quote q); [|reflexivity].
  rewrite run_seqs_cons, run_group_step. unfold Re.none_of. rewrite run_plus_chr.
  destruct v as [|c v']; [reflexivity|].
  rewrite none_of_quotes. cbn [str_take_while str_drop_while].
  destruct (not_quote c) eqn:Ec; [|reflexivity].
  rewrite star_class; [| lia |].
  - rewrite (str_drop_while_ext _ not_quote) by apply none_of_quotes.
    rewrite run_seqs_cons. unfold quote, Re.one_of. rewrite run_chr.
    assert (str_drop_while not_quote (String c v') = str_drop_while not_quote v')
      as Hd by (cbn [str_drop_while]; rewrite Ec; reflexivity).
    destruct (str_drop_while not_quote v') as [|q' rest] eqn:Er; [reflexivity|].
    rewrite one_of_quotes.
    pose proof (drop_while_head _ _ _ _ Er) as Hq. unfold not_quote in Hq.
    apply negb_false_iff in Hq. rewrite Hq. cbn [Re.run option_map].
    rewrite <- Hd, take_while_consumed. cbn [str_take_while]. rewrite Ec.
    reflexivity.
  - intros c0 s' Hc _. rewrite run_seqs_cons. unfold quote, Re.one_of.
    rewrite run_chr, one_of_quotes. rewrite none_of_quotes in Hc.
    unfold not_quote in Hc. apply negb_true_iff in Hc. rewrite Hc. reflexivity.
Qed.

(** The pattern of a meta tag finds what the specification describes. *)
Lemma match_at_meta (attr name s : string) :
  Re.match_at (seqs [ Re.lit_ci attr; quote; Re.lit_ci name; quote;
                      Re.Star (Re.none_of [">"%char]); Re.lit_ci "content="; quote;
                      Re.Group (Re.Plus (Re.none_of [dquote; squote])); quote ]) s
  = match meta_at attr name s with
    | Some (v, rest) => Some (Re.Found (consumed s rest) (Some v) rest)
    | None => None
    end.
Proof.
  unfold Re.match_at, meta_at.
  rewrite run_seqs_cons, run_lit_ci_steps.
  destruct (after_word_ci attr s) as [[|q s1]|]; [reflexivity| |reflexivity].
  rewrite run_seqs_cons. unfold quote at 1, Re.one_of. rewrite run_chr.
  rewrite one_of_quotes. destruct (is_quote q); [|reflexivity].
  rewrite run_seqs_cons, run_lit_ci_steps.
  destruct (after_word_ci name s1) as [[|q' s2]|]; [reflexivity| |reflexivity].
  rewrite run_seqs_cons. unfold quote at 1, Re.one_of. rewrite run_chr.
  rewrite one_of_quotes. destruct (is_quote q'); [|reflexivity].
  rewrite run_seqs_cons, run_star_step. unfold Re.none_of at 1.
  rewrite (star_last _ _
             (fun t => option_map
                         (fun '(v, rest) => Re.Found (consumed s rest) (Some v) rest)
                         (content_at t))).
  - rewrite last_before_gt_map.
    destruct (last_before_gt content_at s2) as [[v rest]|]; reflexivity.
  - apply none_of_gt.
  - intros t. apply content_rest.
  - lia.
Qed.

(** The Open Graph step reads what the specification describes. *)
Lemma og_price_refines (text : string) : og_price text = og_spec text.
Proof.
  unfold og_price, og_spec, og_value.
  pose proof (search_first og_re (meta_at "property=" "product:price:amount") text
                (match_at_meta "property=" "product:price:amount"))
    as Hog.
  pose proof (search_first twitter_re (meta_at "name=" "twitter:data1") text
                (match_at_meta "name=" "twitter:data1"))
    as Htw.
  destruct (Re.search og_re text) as [m|]; rewrite Hog.
  - apply extract_price_number_refines.
  - destruct (Re.search twitter_re text) as [m|]; rewrite Htw.
    + apply extract_price_number_refines.
    + reflexivity.
Qed.

Lemma og_page_prices :
  jsonld_prices og_page = [] /\ og_price og_page = Some (25 # 2)%Q.
Proof. vm_compute. split; reflexivity. Qed.

Lemma two_block_page_prices : jsonld_prices two_block_page = [50; 30; 20]%Q.
Proof. vm_compute. reflexivity. Qed.

Lemma negative_offer_page_prices :
  jsonld_prices negative_offer_page = [] /\
  og_price negative_offer_page = Some (25 # 2)%Q.
Proof. vm_compute. split; reflexivity. Qed.

Lemma trailing_comma_page_prices : jsonld_prices trailing_comma_page = [129900%Q].
Proof. vm_compute. reflexivity. Qed.

(* ===================================================================== *)
(** ** The runs of the tracker *)
(* ===================================================================== *)

Section TrackerProperties.

Context {World Node : Type} `{!Collaborators World Node}.
Implicit Types (s : @Sys World) (prod : Product) (cfg : Config).

Ltac run_m :=
  unfold bind, ret, lift, in_world, log, get_ledger, set_ledger, try_except,
    save_state, now in *.

Lemma same_store_refl s : same_store s s.
Proof. repeat split. Qed.

Lemma same_store_trans s1 s2 s3 :
  same_store s1 s2 -> same_store s2 s3 -> same_store s1 s3.
Proof. unfold same_store. intros (?&?&?) (?&?&?). repeat split; congruence. Qed.

Lemma in_world_frame {A : Type} (f : World -> result A * World) s r s' :
  in_world f s = (r, s') -> same_store s s'.
Proof.
  unfold in_world. destruct (f (world s)) as [r' w]. intros [= <- <-].
  repeat split.
Qed.

Lemma fetch_page_frame prod s r s' :
  fetch_page prod s = (r, s') -> same_store s s'.
Proof. apply in_world_frame. Qed.

Lemma selector_price_pure prod text s :
  exists r, selector_price prod text s = (r, s) /\
            forall v, r = Ok (Some v) -> (0 <= v)%Q.
Proof.
  unfold selector_price. run_m.
  repeat case_match; simplify_eq; eexists; (split; [reflexivity|]);
    intros v Hv; simplify_eq; eauto using extract_price_number_nonneg.
Qed.

Lemma truthy_og_nonneg (text : string) (v : Q) :
  truthy_num (og_price text) = Some v -> (0 <= v)%Q.
Proof.
  intros H. apply truthy_num_inv in H as [H _].
  unfold og_price in H. repeat case_match; simplify_eq;
    eauto using extract_price_number_nonneg.
Qed.

(** The structured step where values were collected. *)
Lemma structured_price_collected prod text s :
  jsonld_prices text <> [] ->
  structured_price prod text s = (Ok (min_positive (jsonld_prices text)), s).
Proof.
  intros H. unfold structured_price.
  destruct (jsonld_prices text); [contradiction | reflexivity].
Qed.

(** The structured step where nothing was collected. *)
Lemma structured_price_fallback prod text s :
  jsonld_prices text = [] ->
  structured_price prod text s =
  match truthy_num (og_price text) with
  | Some og => (Ok (Some og), s)
  | None => selector_price prod text s
  end.
Proof.
  intros H. unfold structured_price. rewrite H. cbn [nonempty].
  destruct (truthy_num (og_price text)); reflexivity.
Qed.

Lemma structured_price_pure prod text s :
  exists r, structured_price prod text s = (r, s) /\
            forall v, r = Ok (Some v) -> (0 <= v)%Q.
Proof.
  destruct (jsonld_prices text) as [|p ps] eqn:E.
  - rewrite structured_price_fallback by exact E.
    destruct (truthy_num (og_price text)) as [og|] eqn:Eog.
    + eexists. split; [reflexivity|]. intros v [= <-].
      eapply truthy_og_nonneg; eauto.
    + apply selector_price_pure.
  - rewrite structured_price_collected by (rewrite E; discriminate).
    eexists. split; [reflexivity|]. intros v [= Hv].
    apply min_positive_some in Hv as (_ & Hpos & _).
    apply Qlt_le_weak. exact Hpos.
Qed.

Lemma fetch_product_price_frame prod s r s' :
  fetch_product_price prod s = (r, s') ->
  same_store s s' /\ forall v, r = Ok (Some v) -> (0 <= v)%Q.
Proof.
  assert (forall s r s',
             bind (fetch_page prod) (structured_price prod) s = (r, s') ->
             same_store s s' /\ forall v, r = Ok (Some v) -> (0 <= v)%Q) as Hrest.
  { clear. intros s r s'. unfold bind.
    destruct (fetch_page prod s) as [[text|e] s1] eqn:E1.
    - destruct (structured_price_pure prod text s1) as (r' & -> & Hr').
      intros [= <- <-]. split; [eapply fetch_page_frame; eauto | exact Hr'].
    - intros [= <- <-]. split; [eapply fetch_page_frame; eauto | discriminate]. }
  unfold fetch_product_price.
  destruct (truthy_str (p_price_regex prod)) as [pat|]; [|apply Hrest].
  unfold bind at 1.
  destruct (fetch_page prod s) as [[text|e] s1] eqn:E1.
  - apply fetch_page_frame in E1. unfold bind at 1, lift.
    destruct (re_search_group1 pat text) as [[g|]|e].
    + unfold ret. intros [= <- <-]. split; [exact E1|].
      intros v [= Hv]. eauto using extract_price_number_nonneg.
    + intros H. apply Hrest in H as [Hs Hv].
      split; [eapply same_store_trans; eauto | exact Hv].
    + intros [= <- <-]. split; [exact E1 | discriminate].
  - intros [= <- <-]. split; [eapply fetch_page_frame; eauto | discriminate].
Qed.

(** C1, as the source has it.  The structured step reads every JSON-LD
    block of the page: a script tag that carries the type attribute
    application/ld+json, up to the first closing script tag.  From each
    block it collects, for the keys price, lowPrice and highPrice in
    this order, every value that starts, after an optional double
    quote, with a digit: the longest run of digits, points and commas
    from that digit, read by the price parser.  A negative value is not
    collected, and a comma that follows an unquoted number is read with
    it.  When one of the collected values is strictly positive the step
    returns the least strictly positive one; when values were collected
    and none is strictly positive it returns [None]; when nothing was
    collected it returns the Open Graph value, the content of the first
    meta tag with the property product:price:amount or else of the
    first one named twitter:data1, if that is not 0, and goes on to the
    selector otherwise.  Of 50, 30 and -5 the value returned is 30. *)
Theorem structured_price_spec prod (text : string) s :
  let jl := jsonld_prices text in
  jl = collected text /\
  og_price text = og_spec text /\
  ((exists p, In p jl /\ (0 < p)%Q) ->
   exists m, structured_price prod text s = (Ok (Some m), s) /\
             is_min_positive jl m) /\
  (jl <> [] -> (forall p, In p jl -> ~ (0 < p)%Q) ->
   structured_price prod text s = (Ok None, s)) /\
  (jl = [] -> forall og, og_price text = Some og -> ~ (og == 0)%Q ->
   structured_price prod text s = (Ok (Some og), s)) /\
  (jl = [] -> truthy_num (og_price text) = None ->
   structured_price prod text s = selector_price prod text s) /\
  min_positive [50; 30; -5]%Q = Some 30%Q /\
  structured_price prod offer_page s = (Ok (Some 30%Q), s) /\
  collected two_block_page = [50; 30; 20]%Q /\
  structured_price prod two_block_page s = (Ok (Some 20%Q), s) /\
  collected negative_offer_page = [] /\
  structured_price prod negative_offer_page s = (Ok (Some (25 # 2)%Q), s) /\
  collected trailing_comma_page = [129900%Q].
Proof.
  intros jl.
  split; [apply jsonld_prices_collected|].
  split; [apply og_price_refines|].
  split; [|split; [|split; [|split; [|split; [|split; [|split; [|split; [|split; [|split]]]]]]]]].
  - intros (p & Hin & Hpos).
    assert (jl <> []) as Hne by (intros E; rewrite E in Hin; destruct Hin).
    rewrite structured_price_collected by exact Hne. fold jl.
    destruct (min_positive jl) as [m|] eqn:Em.
    + exists m. split; [reflexivity|]. apply min_positive_some. exact Em.
    + exfalso. rewrite min_positive_none in Em. apply (Em p Hin Hpos).
  - intros Hne Hnone. rewrite structured_price_collected by exact Hne.
    fold jl. apply min_positive_none in Hnone. rewrite Hnone. reflexivity.
  - intros Hnil og Hog Hnz. rewrite structured_price_fallback by exact Hnil.
    rewrite (truthy_num_some _ og Hog Hnz). reflexivity.
  - intros Hnil Hog. rewrite structured_price_fallback by exact Hnil.
    rewrite Hog. reflexivity.
  - reflexivity.
  - rewrite structured_price_collected, offer_page_prices;
      [reflexivity | discriminate].
  - rewrite <- jsonld_prices_collected. apply two_block_page_prices.
  - rewrite structured_price_collected, two_block_page_prices;
      [reflexivity | discriminate].
  - rewrite <- jsonld_prices_collected. apply negative_offer_page_prices.
  - destruct negative_offer_page_prices as [Hjl Hog].
    rewrite structured_price_fallback by exact Hjl. rewrite Hog. reflexivity.
  - rewrite <- jsonld_prices_collected. apply trailing_comma_page_prices.
Qed.

Lemma selector_price_found prod (text : string) s (sel : string) (doc node : Node)
      (nodes : list Node) :
  truthy_str (p_selector prod) = Some sel ->
  html_fromstring text = Ok doc ->
  cssselect sel doc = Ok (node :: nodes) ->
  selector_price prod text s
  = (Ok (extract_price_number
           match truthy_str (p_attr prod) with
           | Some a => default EmptyString (node_get node a)
           | None => text_content node
           end), s).
Proof.
  intros Hsel Hdoc Hnodes. unfold selector_price. rewrite Hsel. run_m.
  rewrite Hdoc, Hnodes. reflexivity.
Qed.

Lemma selector_price_absent prod (text : string) s :
  truthy_str (p_selector prod) = None \/
  (exists sel doc, truthy_str (p_selector prod) = Some sel /\
                   html_fromstring text = Ok doc /\ cssselect sel doc = Ok []) ->
  selector_price prod text s = (Ok None, s).
Proof.
  unfold selector_price. intros [-> | (sel & doc & -> & Hdoc & Hnodes)];
    [reflexivity|].
  run_m. rewrite Hdoc, Hnodes. reflexivity.
Qed.

(** C4, as the source has it.  With a pattern configured the strategies
    come in the order pattern, structured data with Open Graph,
    selector, and the first strategy that applies decides, whether or
    not it yields a price.  A pattern that matches the fetched page
    decides: the parsed value of its group, [None] if the group does
    not parse, is returned after that one fetch, whatever structured
    data the page holds.  A pattern that does not match leaves the
    decision to a second fetch: collected JSON-LD values decide with
    their least strictly positive value or [None]; else an Open Graph
    value other than 0 decides; else the selector gives the parsed
    attribute or text of the first node it selects, and [None] when it
    is not configured or selects no node. *)
Theorem fetch_product_price_order prod (pat : string) s :
  truthy_str (p_price_regex prod) = Some pat ->
  (forall text s1 g,
      fetch_page prod s = (Ok text, s1) ->
      re_search_group1 pat text = Ok (Some g) ->
      fetch_product_price prod s
      = (Ok (extract_price_number (default EmptyString g)), s1)) /\
  (forall text s1,
      fetch_page prod s = (Ok text, s1) ->
      re_search_group1 pat text = Ok None ->
      fetch_product_price prod s
      = bind (fetch_page prod) (structured_price prod) s1) /\
  (forall text s2, jsonld_prices text <> [] ->
      structured_price prod text s2
      = (Ok (min_positive (jsonld_prices text)), s2)) /\
  (forall text s2 og, jsonld_prices text = [] ->
      truthy_num (og_price text) = Some og ->
      structured_price prod text s2 = (Ok (Some og), s2)) /\
  (forall text s2, jsonld_prices text = [] ->
      truthy_num (og_price text) = None ->
      structured_price prod text s2 = selector_price prod text s2) /\
  (forall text, jsonld_prices text = collected text /\ og_price text = og_spec text) /\
  (forall text s2 sel (doc node : Node) nodes,
      truthy_str (p_selector prod) = Some sel ->
      html_fromstring text = Ok doc ->
      cssselect sel doc = Ok (node :: nodes) ->
      selector_price prod text s2
      = (Ok (extract_price_number
               match truthy_str (p_attr prod) with
               | Some a => default EmptyString (node_get node a)
               | None => text_content node
               end), s2)) /\
  (forall text s2,
      truthy_str (p_selector prod) = None \/
      (exists sel doc, truthy_str (p_selector prod) = Some sel /\
                       html_fromstring text = Ok doc /\ cssselect sel doc = Ok []) ->
      selector_price prod text s2 = (Ok None, s2)) /\
  og_spec og_page = Some (25 # 2)%Q.
Proof.
  intros Hpat. split; [|split; [|split; [|split; [|split; [|split; [|split; [|split]]]]]]].
  - intros text s1 g Hfetch Hre. unfold fetch_product_price.
    rewrite Hpat. unfold bind at 1. rewrite Hfetch.
    unfold bind, lift. rewrite Hre. reflexivity.
  - intros text s1 Hfetch Hre. unfold fetch_product_price.
    rewrite Hpat. unfold bind at 1. rewrite Hfetch.
    unfold bind at 1, lift. rewrite Hre. reflexivity.
  - intros text s2. apply structured_price_collected.
  - intros text s2 og Hnil Hog.
    rewrite structured_price_fallback by exact Hnil. rewrite Hog. reflexivity.
  - intros text s2 Hnil Hog.
    rewrite structured_price_fallback by exact Hnil. rewrite Hog. reflexivity.
  - intros text. split; [apply jsonld_prices_collected | apply og_price_refines].
  - intros text s2 sel doc node nodes. apply selector_price_found.
  - intros text s2. apply selector_price_absent.
  - rewrite <- og_price_refines. apply og_page_prices.
Qed.

Lemma setdefault_product_spec (pid : string) s :
  setdefault_product pid s
  = (Ok (entry_of (ledger s) pid), with_ledger s (touched pid (ledger s))).
Proof.
  unfold setdefault_product, entry_of, touched. run_m.
  destruct (products (ledger s) !! pid); [destruct s|]; reflexivity.
Qed.

Lemma process_product_fetch_failed cfg prod s (e : string) s1 :
  fetch_product_price prod (with_ledger s (touched (pid_of prod) (ledger s)))
  = (Raise e, s1) ->
  process_product cfg prod s = (Ok tt, with_log s1 [LogFetchFailed (pid_of prod) e]).
Proof.
  intros H. unfold process_product. unfold bind at 1.
  rewrite setdefault_product_spec. unfold bind at 1, try_except, bind at 1.
  rewrite H. reflexivity.
Qed.

Lemma process_product_no_price cfg prod s s1 :
  fetch_product_price prod (with_ledger s (touched (pid_of prod) (ledger s)))
  = (Ok None, s1) ->
  process_product cfg prod s = (Ok tt, with_log s1 [LogNoPrice (pid_of prod)]).
Proof.
  intros H. unfold process_product. unfold bind at 1.
  rewrite setdefault_product_spec. unfold bind at 1, try_except, bind at 1.
  rewrite H. reflexivity.
Qed.

Lemma process_product_priced cfg prod s s1 (price : Q) (t : Z) (w2 : World) :
  fetch_product_price prod (with_ledger s (touched (pid_of prod) (ledger s)))
  = (Ok (Some price), s1) ->
  clock (world s1) = (t, w2) ->
  exists s', process_product cfg prod s = (Ok tt, s') /\
             saved s' = saved s /\
             ledger s' = put_product (pid_of prod)
                           (priced_entry prod (entry_of (ledger s) (pid_of prod)) t price)
                           (touched (pid_of prod) (ledger s)).
Proof.
  intros H Hclock. unfold process_product. unfold bind at 1.
  rewrite setdefault_product_spec. unfold bind at 1, try_except, bind at 1.
  rewrite H. cbn [ret].
  apply fetch_product_price_frame in H as [(Hl & Hlog & Hsaved) _].
  cbn in Hl, Hsaved.
  unfold priced_entry, base_price.
  destruct (match p_baseline prod with
            | Some b => Some b
            | None => baseline (entry_of (ledger s) (pid_of prod))
            end) as [b|];
  run_m; unfold update_product; run_m; rewrite Hclock; cbn;
  repeat case_match; simplify_eq; cbn; eexists; (split; [reflexivity|]); cbn; rewrite ?Hl, ?Hsaved; auto.
Qed.

Lemma setdefault_search_spec (sid : string) s :
  setdefault_search sid s
  = (Ok (search_entry_of (ledger s) sid), with_ledger s (touched_search sid (ledger s))).
Proof.
  unfold setdefault_search, search_entry_of, touched_search. run_m.
  destruct (searches (ledger s) !! sid); [destruct s|]; reflexivity.
Qed.

Lemma search_used_market_frame scfg (seen : gset string) (msrp : option Q) s r s' :
  search_used_market scfg seen msrp s = (r, s') -> same_store s s'.
Proof.
  unfold search_used_market. unfold bind at 1.
  destruct (in_world _ s) as [[doc|e] s1] eqn:E; apply in_world_frame in E.
  - run_m. destruct (extract_items doc scfg); intros [= <- <-]; exact E.
  - intros [= <- <-]. exact E.
Qed.

Lemma search_used_market_found scfg (seen : gset string) (msrp : option Q) s
      (doc : Node) (w1 : World) (cands : list Item) :
  fetch_doc (s_url scfg) (user_agent (s_user_agent scfg)) (timeout (s_timeout scfg))
            (world s) = (Ok doc, w1) ->
  extract_items doc scfg = Ok cands ->
  search_used_market scfg seen msrp s
  = (Ok (omap (examine scfg seen msrp) cands), with_world s w1).
Proof.
  intros Hdoc Hitems. unfold search_used_market. run_m.
  rewrite Hdoc, Hitems. reflexivity.
Qed.

Lemma process_search_failed cfg (msrp : Q) scfg s (e : string) s1 :
  search_used_market scfg (list_to_set (seen (search_entry_of (ledger s) (sid_of scfg))))
                     (reference msrp)
                     (with_ledger s (touched_search (sid_of scfg) (ledger s)))
  = (Raise e, s1) ->
  process_search cfg msrp scfg s = (Ok tt, with_log s1 [LogUsedFailed (sid_of scfg) e]).
Proof.
  intros H. unfold process_search. unfold bind at 1.
  rewrite setdefault_search_spec. unfold bind at 1, try_except, bind at 1.
  rewrite H. reflexivity.
Qed.

Lemma process_search_matched cfg (msrp : Q) scfg s (ms : list Match) s1 :
  search_used_market scfg (list_to_set (seen (search_entry_of (ledger s) (sid_of scfg))))
                     (reference msrp)
                     (with_ledger s (touched_search (sid_of scfg) (ledger s)))
  = (Ok ms, s1) ->
  exists s', process_search cfg msrp scfg s = (Ok tt, s') /\
             saved s' = saved s /\
             ledger s' = put_search (sid_of scfg)
               {| seen := persist_seen
                            (add_seen (list_to_set (seen (search_entry_of (ledger s) (sid_of scfg)))) ms) |}
               (touched_search (sid_of scfg) (ledger s)).
Proof.
  intros H. unfold process_search. unfold bind at 1.
  rewrite setdefault_search_spec. unfold bind at 1, try_except, bind at 1.
  rewrite H. cbn [ret].
  apply search_used_market_frame in H as (Hl & Hlog & Hsaved).
  cbn in Hl, Hsaved.
  unfold update_search; run_m;
  repeat case_match; simplify_eq; cbn; eexists; (split; [reflexivity|]); cbn; rewrite ?Hl, ?Hsaved; auto.
Qed.

Lemma for_each_inv {A : Type} (body : A -> M unit) (P : @Sys World -> Prop) (l : list A) :
  (forall x s, In x l -> P s -> exists s', body x s = (Ok tt, s') /\ P s') ->
  forall s, P s -> exists s', for_each body l s = (Ok tt, s') /\ P s'.
Proof.
  induction l as [|x l IH]; intros Hbody s HP.
  - exists s. split; [reflexivity | exact HP].
  - destruct (Hbody x s (or_introl eq_refl) HP) as (s1 & Hx & HP1).
    destruct (IH (fun y s Hy => Hbody y s (or_intror Hy)) s1 HP1) as (s2 & Hl & HP2).
    exists s2. split; [|exact HP2].
    cbn [for_each]. unfold bind. rewrite Hx. exact Hl.
Qed.

Lemma process_product_step cfg prod s :
  exists s', process_product cfg prod s = (Ok tt, s') /\
             saved s' = saved s /\
             (ledger s' = touched (pid_of prod) (ledger s) \/
              exists t price,
                (0 <= price)%Q /\
                ledger s' = put_product (pid_of prod)
                  (priced_entry prod (entry_of (ledger s) (pid_of prod)) t price)
                  (touched (pid_of prod) (ledger s))).
Proof.
  destruct (fetch_product_price prod
              (with_ledger s (touched (pid_of prod) (ledger s))))
    as [[[price|]|e] s1] eqn:E.
  - destruct (clock (world s1)) as [t w2] eqn:Ec.
    destruct (process_product_priced cfg prod s s1 price t w2 E Ec)
      as (s' & Hrun & Hsaved & Hledger).
    exists s'. split; [exact Hrun|]. split; [exact Hsaved|].
    right. exists t, price. split; [|exact Hledger].
    apply fetch_product_price_frame in E as [_ Hv]. apply Hv. reflexivity.
  - rewrite (process_product_no_price cfg prod s s1 E).
    apply fetch_product_price_frame in E as [(Hl & _ & Hs) _].
    eexists. split; [reflexivity|]. cbn. split; [exact Hs | left; exact Hl].
  - rewrite (process_product_fetch_failed cfg prod s e s1 E).
    apply fetch_product_price_frame in E as [(Hl & _ & Hs) _].
    eexists. split; [reflexivity|]. cbn. split; [exact Hs | left; exact Hl].
Qed.

Lemma products_touched_search (sid : string) (st : State) :
  products (touched_search sid st) = products st.
Proof. unfold touched_search. destruct (searches st !! sid); reflexivity. Qed.

Lemma process_search_step cfg (msrp : Q) scfg s :
  exists s', process_search cfg msrp scfg s = (Ok tt, s') /\
             saved s' = saved s /\
             products (ledger s') = products (ledger s).
Proof.
  destruct (search_used_market scfg
              (list_to_set (seen (search_entry_of (ledger s) (sid_of scfg))))
              (reference msrp)
              (with_ledger s (touched_search (sid_of scfg) (ledger s))))
    as [[ms|e] s1] eqn:E.
  - destruct (process_search_matched cfg msrp scfg s ms s1 E)
      as (s' & Hrun & Hsaved & Hledger).
    exists s'. split; [exact Hrun|]. split; [exact Hsaved|].
    rewrite Hledger. cbn. apply products_touched_search.
  - rewrite (process_search_failed cfg msrp scfg s e s1 E).
    apply search_used_market_frame in E as (Hl & _ & Hs).
    eexists. split; [reflexivity|]. cbn. split; [exact Hs|].
    rewrite Hl. cbn. apply products_touched_search.
Qed.

(** Whatever the products pass preserves holds of the ledger [main] saves. *)
Lemma main_inv cfg (P : State -> Prop) s :
  (forall prod st, In prod (c_products cfg) -> P st ->
                   P (touched (pid_of prod) st)) ->
  (forall prod st t price,
      In prod (c_products cfg) -> P st -> (0 <= price)%Q ->
      P (put_product (pid_of prod)
           (priced_entry prod (entry_of st (pid_of prod)) t price)
           (touched (pid_of prod) st))) ->
  (forall st st', P st -> products st' = products st -> P st') ->
  P (ledger s) ->
  exists s', main cfg s = (Ok tt, s') /\ saved s' = Some (ledger s') /\
             P (ledger s').
Proof.
  intros Htouch Hpriced Hframe HP. unfold main.
  destruct (for_each_inv (process_product cfg) (fun s => P (ledger s))
              (c_products cfg)) with (s := s) as (s1 & H1 & HP1); [|exact HP|].
  { intros prod s0 Hin HP0.
    destruct (process_product_step cfg prod s0) as (s' & Hrun & _ & Hl).
    exists s'. split; [exact Hrun|].
    destruct Hl as [-> | (t & price & Hpos & ->)]; eauto. }
  destruct (for_each_inv (process_search cfg (default 0%Q (c_msrp cfg)))
              (fun s => P (ledger s)) (c_searches cfg)) with (s := s1)
    as (s2 & H2 & HP2); [|exact HP1|].
  { intros scfg s0 _ HP0.
    destruct (process_search_step cfg (default 0%Q (c_msrp cfg)) scfg s0)
      as (s' & Hrun & _ & Hl).
    exists s'. split; [exact Hrun|]. eapply Hframe; eauto. }
  unfold bind at 1. rewrite H1. unfold bind at 1. rewrite H2.
  eexists. split; [reflexivity|]. split; [reflexivity | exact HP2].
Qed.

Lemma run_once_inv cfg (P : State -> Prop) (st : State) (w : World) :
  (forall prod st, In prod (c_products cfg) -> P st ->
                   P (touched (pid_of prod) st)) ->
  (forall prod st t price,
      In prod (c_products cfg) -> P st -> (0 <= price)%Q ->
      P (put_product (pid_of prod)
           (priced_entry prod (entry_of st (pid_of prod)) t price)
           (touched (pid_of prod) st))) ->
  (forall st st', P st -> products st' = products st -> P st') ->
  P st -> P (fst (run_once cfg st w)).
Proof.
  intros Htouch Hpriced Hframe HP. unfold run_once.
  destruct (main_inv cfg P {| world := w; ledger := st; logs := []; saved := None |}
              Htouch Hpriced Hframe HP) as (s' & -> & Hsaved & HP').
  rewrite Hsaved. exact HP'.
Qed.

Lemma run_seq_inv (cfgs : list Config) (P : State -> Prop) :
  (forall cfg prod st, In cfg cfgs -> In prod (c_products cfg) -> P st ->
                       P (touched (pid_of prod) st)) ->
  (forall cfg prod st t price,
      In cfg cfgs -> In prod (c_products cfg) -> P st -> (0 <= price)%Q ->
      P (put_product (pid_of prod)
           (priced_entry prod (entry_of st (pid_of prod)) t price)
           (touched (pid_of prod) st))) ->
  (forall st st', P st -> products st' = products st -> P st') ->
  forall st w, P st -> P (fst (run_seq cfgs st w)).
Proof.
  intros Htouch Hpriced Hframe.
  induction cfgs as [|cfg cfgs IH]; intros st w HP; [exact HP|].
  cbn [run_seq].
  pose proof (run_once_inv cfg P st w
                (fun prod st => Htouch cfg prod st (or_introl eq_refl))
                (fun prod st t price => Hpriced cfg prod st t price (or_introl eq_refl))
                Hframe HP) as H1.
  destruct (run_once cfg st w) as [st1 w1]. apply IH; [| |exact H1].
  - intros c prod st0 Hc. apply Htouch. right. exact Hc.
  - intros c prod st0 t price Hc. apply Hpriced. right. exact Hc.
Qed.

Lemma baseline_of_touched (pid pid' : string) (st : State) :
  baseline_of (touched pid' st) pid = baseline_of st pid.
Proof.
  unfold touched, baseline_of.
  destruct (products st !! pid') eqn:E; [reflexivity|]. cbn.
  destruct (decide (pid' = pid)) as [->|Hne].
  - rewrite lookup_insert_eq, E. reflexivity.
  - rewrite lookup_insert_ne by exact Hne. reflexivity.
Qed.

Lemma baseline_of_put (pid pid' : string) (e : ProductEntry) (st : State) :
  baseline_of (put_product pid' e st) pid =
  if decide (pid' = pid) then baseline e else baseline_of st pid.
Proof.
  unfold put_product, baseline_of. cbn. rewrite lookup_insert.
  destruct (decide (pid' = pid)); reflexivity.
Qed.

Lemma baseline_entry_of (st : State) (pid : string) :
  baseline (entry_of st pid) = baseline_of st pid.
Proof.
  unfold entry_of, baseline_of. destruct (products st !! pid); reflexivity.
Qed.

Lemma baselines_nonneg_alt (st : State) :
  baselines_nonneg st <-> forall pid, nonneg_opt (baseline_of st pid).
Proof.
  unfold baselines_nonneg, baseline_of. split.
  - intros H pid. destruct (products st !! pid) as [e|] eqn:E; cbn; eauto.
  - intros H pid e E. specialize (H pid). rewrite E in H. exact H.
Qed.

(** C7, as the source has it.  Over any sequence of runs, no baseline
    of the ledger becomes negative as long as the ledger starts without
    one and no configuration supplies one; and a baseline the ledger
    holds stays what it is through every run whose configuration gives
    the product no baseline of its own. *)
Theorem baseline_persists (cfgs : list Config) (st : State) (w : World) :
  (baselines_nonneg st ->
   (forall cfg prod, In cfg cfgs -> In prod (c_products cfg) ->
                     nonneg_opt (p_baseline prod)) ->
   baselines_nonneg (fst (run_seq cfgs st w))) /\
  (forall pid b,
      baseline_of st pid = Some b ->
      (forall cfg prod, In cfg cfgs -> In prod (c_products cfg) ->
                        pid_of prod = pid -> p_baseline prod = None) ->
      baseline_of (fst (run_seq cfgs st w)) pid = Some b).
Proof.
  split.
  - intros Hst Hcfg. apply (run_seq_inv cfgs baselines_nonneg); [| | |exact Hst].
    + intros cfg prod st0 _ _ H. apply baselines_nonneg_alt. intros pid.
      rewrite baseline_of_touched. apply baselines_nonneg_alt. exact H.
    + intros cfg prod st0 t price Hc Hp H Hprice.
      apply baselines_nonneg_alt. intros pid.
      rewrite baseline_of_put, baseline_of_touched.
      destruct (decide (pid_of prod = pid)) as [_|_];
        [|apply baselines_nonneg_alt; exact H].
      cbn. unfold base_price. specialize (Hcfg cfg prod Hc Hp).
      destruct (p_baseline prod) as [b|]; [exact Hcfg|].
      rewrite baseline_entry_of.
      rewrite baselines_nonneg_alt in H. specialize (H (pid_of prod)).
      destruct (baseline_of st0 (pid_of prod)); [exact H | exact Hprice].
    + intros st0 st1 H Heq. unfold baselines_nonneg in *. rewrite Heq. exact H.
  - intros pid b Hb Hcfg.
    apply (run_seq_inv cfgs (fun st => baseline_of st pid = Some b)); [| | |exact Hb].
    + intros cfg prod st0 _ _ H. rewrite baseline_of_touched. exact H.
    + intros cfg prod st0 t price Hc Hp H _.
      rewrite baseline_of_put, baseline_of_touched.
      destruct (decide (pid_of prod = pid)) as [Hpid|_]; [|exact H].
      cbn. unfold base_price.
      rewrite (Hcfg cfg prod Hc Hp Hpid), baseline_entry_of.
      rewrite <- Hpid in H. rewrite H. reflexivity.
    + intros st0 st1 H Heq. unfold baseline_of in *. rewrite Heq. exact H.
Qed.

Lemma process_product_mail_failed cfg prod s s1 (price : Q) (t : Z)
      (w2 w3 : World) (e : string) :
  let st := entry_of (ledger s) (pid_of prod) in
  fetch_product_price prod (with_ledger s (touched (pid_of prod) (ledger s)))
  = (Ok (Some price), s1) ->
  clock (world s1) = (t, w2) ->
  c_smtp_ok cfg = true ->
  Qle_bool (drop_needed cfg prod) (pct_drop (base_price prod st price) price) = true ->
  send_email (drop_alert cfg prod st price) w2 = (Raise e, w3) ->
  exists s', process_product cfg prod s = (Ok tt, s') /\
             last (logs s') = Some (LogEmailFailed e) /\
             saved s' = saved s /\
             ledger s' = put_product (pid_of prod) (priced_entry prod st t price)
                           (touched (pid_of prod) (ledger s)).
Proof.
  intros st H Hclock Hsmtp Hdrop Hsend. unfold process_product. unfold bind at 1.
  rewrite setdefault_product_spec. unfold bind at 1, try_except, bind at 1.
  rewrite H. cbn [ret].
  apply fetch_product_price_frame in H as [(Hl & Hlog & Hsaved) _].
  cbn in Hl, Hsaved.
  unfold priced_entry, drop_alert, base_price in *. fold st.
  rewrite Hsmtp.
  destruct (match p_baseline prod with
            | Some b => Some b
            | None => baseline st
            end) as [b|];
    cbn in Hdrop, Hsend; run_m; unfold update_product; run_m; rewrite Hclock; cbn;
    rewrite Hdrop; cbn; rewrite Hsend; cbn;
    eexists; (split; [reflexivity|]); cbn; rewrite ?Hl, ?Hsaved;
    (split; [apply last_snoc|]); auto.
Qed.

Lemma lookup_touched (pid pid' : string) (st : State) :
  pid' <> pid -> products (touched pid st) !! pid' = products st !! pid'.
Proof.
  intros Hne. unfold touched. destruct (products st !! pid); [reflexivity|].
  cbn. apply lookup_insert_ne. congruence.
Qed.

Lemma searches_touched (pid : string) (st : State) :
  searches (touched pid st) = searches st.
Proof. unfold touched. destruct (products st !! pid); reflexivity. Qed.

Lemma lookup_touched_search (sid sid' : string) (st : State) :
  sid' <> sid -> searches (touched_search sid st) !! sid' = searches st !! sid'.
Proof.
  intros Hne. unfold touched_search. destruct (searches st !! sid); [reflexivity|].
  cbn. apply lookup_insert_ne. congruence.
Qed.


(** The state a pass over a fetched listing ends in. *)
Lemma process_search_exact cfg (msrp : Q) scfg s (doc : Node) (w1 : World)
      (cands : list Item) :
  let sid := sid_of scfg in
  let old := seen (search_entry_of (ledger s) sid) in
  let ms := matches_of scfg (reference msrp) cands old in
  let mailed := nonempty ms && c_smtp_ok cfg in
  fetch_doc (s_url scfg) (user_agent (s_user_agent scfg)) (timeout (s_timeout scfg))
            (world s) = (Ok doc, w1) ->
  extract_items doc scfg = Ok cands ->
  process_search cfg msrp scfg s
  = (Ok tt,
     {| world := if mailed then snd (send_email (used_alert scfg ms) w1) else w1;
        ledger := put_search sid
                    {| seen := seen_after scfg (reference msrp) cands old |}
                    (touched_search sid (ledger s));
        logs := logs s ++
                if mailed
                then match fst (send_email (used_alert scfg ms) w1) with
                     | Ok _ => []
                     | Raise e => [LogUsedEmailFailed e]
                     end
                else [];
        saved := saved s |}).
Proof.
  intros sid old ms mailed Hdoc Hitems.
  pose proof (search_used_market_found scfg (list_to_set old) (reference msrp)
                (with_ledger s (touched_search sid (ledger s)))
                doc w1 cands Hdoc Hitems) as Hfound.
  unfold process_search. unfold bind at 1.
  rewrite setdefault_search_spec. unfold bind at 1, try_except, bind at 1.
  fold sid old. rewrite Hfound. cbn [ret].
  unfold seen_after, used_alert. fold sid. subst mailed. unfold matches_of in ms.
  fold ms.
  destruct (nonempty ms && c_smtp_ok cfg);
    unfold update_search; run_m; cbn;
    try match goal with |- context [send_email ?p ?w] =>
          destruct (send_email p w) as [[[]|e] w3] end;
    cbn; rewrite ?List.app_nil_r; reflexivity.
Qed.

Lemma for_each_app {A : Type} (body : A -> M unit) (l1 l2 : list A) s :
  for_each body (l1 ++ l2) s
  = match for_each body l1 s with
    | (Ok _, s') => for_each body l2 s'
    | (Raise e, s') => (Raise e, s')
    end.
Proof.
  revert s. induction l1 as [|x l1 IH]; intros s; [reflexivity|].
  cbn [for_each app]. unfold bind.
  destruct (body x s) as [[[]|e] s1]; [apply IH | reflexivity].
Qed.

Lemma process_product_other cfg prod s :
  exists s', process_product cfg prod s = (Ok tt, s') /\
             saved s' = saved s /\
             searches (ledger s') = searches (ledger s) /\
             forall pid', pid' <> pid_of prod ->
               products (ledger s') !! pid' = products (ledger s) !! pid'.
Proof.
  destruct (process_product_step cfg prod s) as (s' & Hrun & Hsaved & Hl).
  exists s'. split; [exact Hrun|]. split; [exact Hsaved|].
  destruct Hl as [-> | (t & price & _ & ->)]; cbn.
  - split; [apply searches_touched|]. intros pid' Hne. apply lookup_touched. exact Hne.
  - split; [apply searches_touched|]. intros pid' Hne.
    rewrite lookup_insert_ne by congruence. apply lookup_touched. exact Hne.
Qed.

Lemma process_search_other cfg (msrp : Q) scfg s :
  exists s', process_search cfg msrp scfg s = (Ok tt, s') /\
             saved s' = saved s /\
             products (ledger s') = products (ledger s) /\
             forall sid', sid' <> sid_of scfg ->
               searches (ledger s') !! sid' = searches (ledger s) !! sid'.
Proof.
  destruct (search_used_market scfg
              (list_to_set (seen (search_entry_of (ledger s) (sid_of scfg))))
              (reference msrp)
              (with_ledger s (touched_search (sid_of scfg) (ledger s))))
    as [[ms|e] s1] eqn:E.
  - destruct (process_search_matched cfg msrp scfg s ms s1 E)
      as (s' & Hrun & Hsaved & Hl).
    exists s'. split; [exact Hrun|]. split; [exact Hsaved|]. rewrite Hl. cbn.
    split; [apply products_touched_search|]. intros sid' Hne.
    rewrite lookup_insert_ne by congruence. apply lookup_touched_search. exact Hne.
  - rewrite (process_search_failed cfg msrp scfg s e s1 E).
    apply search_used_market_frame in E as (Hl & _ & Hs).
    eexists. split; [reflexivity|]. cbn. split; [exact Hs|]. rewrite Hl. cbn.
    split; [apply products_touched_search|]. intros sid' Hne.
    apply lookup_touched_search. exact Hne.
Qed.

(** The loop over the products: every turn completes, and the entries
    of the products it does not name are left as they were. *)
Lemma products_loop cfg (l : list Product) s :
  exists s', for_each (process_product cfg) l s = (Ok tt, s') /\
             saved s' = saved s /\
             searches (ledger s') = searches (ledger s) /\
             forall pid, (forall p, In p l -> pid_of p <> pid) ->
               products (ledger s') !! pid = products (ledger s) !! pid.
Proof.
  revert s. induction l as [|prod l IH]; intros s.
  - exists s. cbn. auto.
  - destruct (process_product_other cfg prod s) as (s1 & Hrun & Hsaved & Hs & Hp).
    destruct (IH s1) as (s2 & Hloop & Hsaved2 & Hs2 & Hp2).
    exists s2. cbn [for_each]. unfold bind. rewrite Hrun.
    split; [exact Hloop|]. split; [congruence|]. split; [congruence|].
    intros pid Hpid. rewrite Hp2, Hp.
    + reflexivity.
    + intros E. apply (Hpid prod); [left; reflexivity | auto].
    + intros p Hin. apply Hpid. right. exact Hin.
Qed.

(** The loop over the searches, likewise. *)
Lemma searches_loop cfg (msrp : Q) (l : list Search) s :
  exists s', for_each (process_search cfg msrp) l s = (Ok tt, s') /\
             saved s' = saved s /\
             products (ledger s') = products (ledger s) /\
             forall sid, (forall x, In x l -> sid_of x <> sid) ->
               searches (ledger s') !! sid = searches (ledger s) !! sid.
Proof.
  revert s. induction l as [|scfg l IH]; intros s.
  - exists s. cbn. auto.
  - destruct (process_search_other cfg msrp scfg s) as (s1 & Hrun & Hsaved & Hp & Hs).
    destruct (IH s1) as (s2 & Hloop & Hsaved2 & Hp2 & Hs2).
    exists s2. cbn [for_each]. unfold bind. rewrite Hrun.
    split; [exact Hloop|]. split; [congruence|]. split; [congruence|].
    intros sid Hsid. rewrite Hs2, Hs.
    + reflexivity.
    + intros E. apply (Hsid scfg); [left; reflexivity | auto].
    + intros x Hin. apply Hsid. right. exact Hin.
Qed.

Lemma main_loops cfg s (s1 s2 : @Sys World) :
  for_each (process_product cfg) (c_products cfg) s = (Ok tt, s1) ->
  for_each (process_search cfg (default 0%Q (c_msrp cfg))) (c_searches cfg) s1
  = (Ok tt, s2) ->
  main cfg s = (Ok tt, {| world := world s2; ledger := ledger s2; logs := logs s2;
                          saved := Some (ledger s2) |}).
Proof.
  intros H1 H2. unfold main. unfold bind at 1. rewrite H1.
  unfold bind at 1. rewrite H2. reflexivity.
Qed.

(** C9.  A run goes through the loop over the products and then the
    loop over the searches, and saves the ledger it ends with.  Every
    turn of either loop completes, from the state the turn before it
    left, whatever happened in that turn; and the entry a turn leaves
    for its product or search is the entry the run saves, unless a
    later turn is for the same product or search.  In a turn, a fetch
    that fails and a page without price are logged and the product is
    skipped; a mail that cannot be sent is logged and the ledger is
    updated all the same; a search that fails is logged and skipped;
    and the entries of the other entities are left as they were. *)
Theorem run_completes cfg s :
  (exists s', main cfg s = (Ok tt, s') /\ saved s' = Some (ledger s')) /\
  (exists s1 s2,
      for_each (process_product cfg) (c_products cfg) s = (Ok tt, s1) /\
      for_each (process_search cfg (default 0%Q (c_msrp cfg))) (c_searches cfg) s1
      = (Ok tt, s2) /\
      main cfg s = (Ok tt, {| world := world s2; ledger := ledger s2;
                              logs := logs s2; saved := Some (ledger s2) |})) /\
  (forall before prod after,
      c_products cfg = before ++ prod :: after ->
      exists sa sb s',
        for_each (process_product cfg) before s = (Ok tt, sa) /\
        process_product cfg prod sa = (Ok tt, sb) /\
        main cfg s = (Ok tt, s') /\ saved s' = Some (ledger s') /\
        ((forall p, In p after -> pid_of p <> pid_of prod) ->
         products (ledger s') !! pid_of prod
         = products (ledger sb) !! pid_of prod)) /\
  (forall before scfg after,
      c_searches cfg = before ++ scfg :: after ->
      exists s1 sa sb s',
        for_each (process_product cfg) (c_products cfg) s = (Ok tt, s1) /\
        for_each (process_search cfg (default 0%Q (c_msrp cfg))) before s1
        = (Ok tt, sa) /\
        process_search cfg (default 0%Q (c_msrp cfg)) scfg sa = (Ok tt, sb) /\
        main cfg s = (Ok tt, s') /\ saved s' = Some (ledger s') /\
        ((forall x, In x after -> sid_of x <> sid_of scfg) ->
         searches (ledger s') !! sid_of scfg
         = searches (ledger sb) !! sid_of scfg)) /\
  (forall s0 prod,
      exists s', process_product cfg prod s0 = (Ok tt, s') /\
                 searches (ledger s') = searches (ledger s0) /\
                 forall pid', pid' <> pid_of prod ->
                   products (ledger s') !! pid' = products (ledger s0) !! pid') /\
  (forall s0 prod e s1,
      fetch_product_price prod (with_ledger s0 (touched (pid_of prod) (ledger s0)))
      = (Raise e, s1) ->
      process_product cfg prod s0
      = (Ok tt, with_log s1 [LogFetchFailed (pid_of prod) e])) /\
  (forall s0 prod s1,
      fetch_product_price prod (with_ledger s0 (touched (pid_of prod) (ledger s0)))
      = (Ok None, s1) ->
      process_product cfg prod s0 = (Ok tt, with_log s1 [LogNoPrice (pid_of prod)])) /\
  (forall s0 prod s1 price t w2 w3 e,
      fetch_product_price prod (with_ledger s0 (touched (pid_of prod) (ledger s0)))
      = (Ok (Some price), s1) ->
      clock (world s1) = (t, w2) ->
      c_smtp_ok cfg = true ->
      Qle_bool (drop_needed cfg prod)
               (pct_drop (base_price prod (entry_of (ledger s0) (pid_of prod)) price)
                         price) = true ->
      send_email (drop_alert cfg prod (entry_of (ledger s0) (pid_of prod)) price) w2
      = (Raise e, w3) ->
      exists s', process_product cfg prod s0 = (Ok tt, s') /\
                 last (logs s') = Some (LogEmailFailed e) /\
                 ledger s' = put_product (pid_of prod)
                   (priced_entry prod (entry_of (ledger s0) (pid_of prod)) t price)
                   (touched (pid_of prod) (ledger s0))) /\
  (forall s0 msrp scfg,
      exists s', process_search cfg msrp scfg s0 = (Ok tt, s') /\
                 products (ledger s') = products (ledger s0) /\
                 forall sid', sid' <> sid_of scfg ->
                   searches (ledger s') !! sid' = searches (ledger s0) !! sid') /\
  (forall s0 msrp scfg e s1,
      search_used_market scfg
        (list_to_set (seen (search_entry_of (ledger s0) (sid_of scfg))))
        (reference msrp)
        (with_ledger s0 (touched_search (sid_of scfg) (ledger s0)))
      = (Raise e, s1) ->
      process_search cfg msrp scfg s0
      = (Ok tt, with_log s1 [LogUsedFailed (sid_of scfg) e])) /\
  (forall s0 msrp scfg (doc : Node) w1 cands e w3,
      fetch_doc (s_url scfg) (user_agent (s_user_agent scfg))
                (timeout (s_timeout scfg)) (world s0) = (Ok doc, w1) ->
      extract_items doc scfg = Ok cands ->
      matches_of scfg (reference msrp) cands
                 (seen (search_entry_of (ledger s0) (sid_of scfg))) <> [] ->
      c_smtp_ok cfg = true ->
      send_email (used_alert scfg
                    (matches_of scfg (reference msrp) cands
                       (seen (search_entry_of (ledger s0) (sid_of scfg))))) w1
      = (Raise e, w3) ->
      exists s', process_search cfg msrp scfg s0 = (Ok tt, s') /\
                 last (logs s') = Some (LogUsedEmailFailed e) /\
                 searches (ledger s') !! sid_of scfg
                 = Some {| seen := seen_after scfg (reference msrp) cands
                                     (seen (search_entry_of (ledger s0)
                                                            (sid_of scfg))) |}).
Proof.
  destruct (products_loop cfg (c_products cfg) s) as (s1 & H1 & _ & _ & _).
  destruct (searches_loop cfg (default 0%Q (c_msrp cfg)) (c_searches cfg) s1)
    as (s2 & H2 & _ & Hprod2 & _).
  pose proof (main_loops cfg s s1 s2 H1 H2) as Hmain.
  split; [|split; [|split; [|split; [|split; [|split; [|split; [|split; [|split; [|split]]]]]]]]].
  - eexists. split; [exact Hmain | reflexivity].
  - exists s1, s2. auto.
  - intros before prod after Hsplit.
    destruct (products_loop cfg before s) as (sa & Ha & _).
    destruct (process_product_other cfg prod sa) as (sb & Hb & _).
    destruct (products_loop cfg after sb) as (sc & Hc & _ & _ & Hkeep).
    assert (sc = s1) as ->.
    { rewrite Hsplit, for_each_app, Ha in H1. cbn [for_each] in H1.
      unfold bind in H1. rewrite Hb, Hc in H1. congruence. }
    exists sa, sb. eexists. split; [exact Ha|]. split; [exact Hb|].
    split; [exact Hmain|]. split; [reflexivity|].
    intros Hafter. cbn [ledger]. rewrite Hprod2. apply Hkeep. exact Hafter.
  - intros before scfg after Hsplit.
    destruct (searches_loop cfg (default 0%Q (c_msrp cfg)) before s1) as (sa & Ha & _).
    destruct (process_search_other cfg (default 0%Q (c_msrp cfg)) scfg sa)
      as (sb & Hb & _).
    destruct (searches_loop cfg (default 0%Q (c_msrp cfg)) after sb)
      as (sc & Hc & _ & _ & Hkeep).
    assert (sc = s2) as ->.
    { rewrite Hsplit, for_each_app, Ha in H2. cbn [for_each] in H2.
      unfold bind in H2. rewrite Hb, Hc in H2. congruence. }
    exists s1, sa, sb. eexists. split; [exact H1|]. split; [exact Ha|].
    split; [exact Hb|]. split; [exact Hmain|]. split; [reflexivity|].
    intros Hafter. cbn [ledger]. apply Hkeep. exact Hafter.
  - intros s0 prod.
    destruct (process_product_other cfg prod s0) as (s' & Hrun & _ & Hs & Hp).
    exists s'. auto.
  - intros s0 prod e s'. apply process_product_fetch_failed.
  - intros s0 prod s'. apply process_product_no_price.
  - intros s0 prod s' price t w2 w3 e Hfetch Hclock Hsmtp Hdrop Hsend.
    destruct (process_product_mail_failed cfg prod s0 s' price t w2 w3 e
                Hfetch Hclock Hsmtp Hdrop Hsend) as (s'' & Hrun & Hlast & _ & Hl).
    exists s''. auto.
  - intros s0 msrp scfg.
    destruct (process_search_other cfg msrp scfg s0) as (s' & Hrun & _ & Hp & Hs).
    exists s'. auto.
  - intros s0 msrp scfg e s'. apply process_search_failed.
  - intros s0 msrp scfg doc w1 cands e w3 Hdoc Hitems Hne Hsmtp Hsend.
    rewrite (process_search_exact cfg msrp scfg s0 doc w1 cands Hdoc Hitems).
    eexists. split; [reflexivity|]. cbn [logs ledger].
    destruct (matches_of scfg (reference msrp) cands
                (seen (search_entry_of (ledger s0) (sid_of scfg))))
      as [|m ms] eqn:Em; [contradiction|].
    cbn [nonempty andb]. rewrite Hsmtp, Hsend. cbn [fst].
    split; [apply last_snoc|]. cbn. apply lookup_insert_eq.
Qed.


End TrackerProperties.


(* ===================================================================== *)
(** ** The statements on the sample pages and configurations *)
(* ===================================================================== *)

Lemma zero_offer_page_prices :
  jsonld_prices zero_offer_page = [0%Q] /\ og_price zero_offer_page = Some (25 # 2)%Q.
Proof. vm_compute. split; reflexivity. Qed.

Lemma bare_page_prices :
  jsonld_prices bare_page = [] /\ og_price bare_page = None.
Proof. vm_compute. split; reflexivity. Qed.

Lemma structured_price_spec_witness :
  (exists m, structured_price plain_product offer_page (start (toy_world [] [] true) empty_state)
             = (Ok (Some m), start (toy_world [] [] true) empty_state) /\
             is_min_positive (jsonld_prices offer_page) m) /\
  structured_price plain_product (priced_page "0") (start (toy_world [] [] true) empty_state)
  = (Ok None, start (toy_world [] [] true) empty_state) /\
  structured_price plain_product og_page (start (toy_world [] [] true) empty_state)
  = (Ok (Some (25 # 2)%Q), start (toy_world [] [] true) empty_state) /\
  structured_price selector_product bare_page (start (toy_world [] [] true) empty_state)
  = selector_price selector_product bare_page (start (toy_world [] [] true) empty_state).
Proof.
  destruct (structured_price_spec plain_product offer_page
              (start (toy_world [] [] true) empty_state)) as (_ & _ & Hmin & _).
  destruct (structured_price_spec plain_product (priced_page "0")
              (start (toy_world [] [] true) empty_state)) as (_ & _ & _ & Hnone & _).
  destruct (structured_price_spec plain_product og_page
              (start (toy_world [] [] true) empty_state))
    as (_ & _ & _ & _ & Hog & _).
  destruct (structured_price_spec selector_product bare_page
              (start (toy_world [] [] true) empty_state))
    as (_ & _ & _ & _ & _ & Hsel & _).
  split; [|split; [|split]].
  - apply Hmin. exists 50%Q. rewrite offer_page_prices.
    split; [left; reflexivity | reflexivity].
  - apply Hnone.
    + vm_compute. discriminate.
    + intros p Hp. assert (jsonld_prices (priced_page "0") = [0%Q]) as E
          by (vm_compute; reflexivity).
      rewrite E in Hp. destruct Hp as [<- | []]. apply Qlt_irrefl.
  - apply Hog.
    + apply og_page_prices.
    + apply og_page_prices.
    + discriminate.
  - apply Hsel.
    + apply bare_page_prices.
    + destruct bare_page_prices as [_ ->]. reflexivity.
Defined.

(** C1 as stated fails: a block whose only price is 0 ends the step with
    [None], although the page carries an Open Graph price of 12.50. *)
Lemma structured_zero_price_counterexample :
  jsonld_prices zero_offer_page = [0%Q] /\
  og_price zero_offer_page = Some (25 # 2)%Q /\
  structured_price plain_product zero_offer_page (start (toy_world [] [] true) empty_state)
  = (Ok None, start (toy_world [] [] true) empty_state).
Proof.
  destruct zero_offer_page_prices as [Hjl Hog].
  split; [exact Hjl|]. split; [exact Hog|].
  unfold structured_price. rewrite Hjl. reflexivity.
Qed.

Lemma fetch_product_price_order_witness :
  fetch_product_price sale_product
    (start (toy_world [Ok sale_page; Ok sale_page] [] true) empty_state)
  = (Ok (Some (8999 # 100)%Q), start (toy_world [Ok sale_page] [] true) empty_state) /\
  fetch_product_price sale_product
    (start (toy_world [Ok bare_page; Ok offer_page] [] true) empty_state)
  = (Ok (Some 30%Q), start (toy_world [] [] true) empty_state) /\
  fetch_product_price sale_product
    (start (toy_world [Ok bare_page; Ok og_page] [] true) empty_state)
  = (Ok (Some (25 # 2)%Q), start (toy_world [] [] true) empty_state) /\
  fetch_product_price sale_selector_product
    (start (toy_world [Ok bare_page; Ok bare_page] [] true) empty_state)
  = (Ok (Some 45%Q), start (toy_world [] [] true) empty_state) /\
  fetch_product_price sale_product
    (start (toy_world [Ok bare_page; Ok bare_page] [] true) empty_state)
  = (Ok None, start (toy_world [] [] true) empty_state).
Proof.
  split; [|split; [|split; [|split]]].
  - destruct (fetch_product_price_order sale_product "sale:\s*\$([0-9.,]+)"
                (start (toy_world [Ok sale_page; Ok sale_page] [] true) empty_state)
                eq_refl) as (Hmatch & _).
    rewrite (Hmatch sale_page
               (start (toy_world [Ok sale_page] [] true) empty_state)
               (Some "89.99")).
    + vm_compute. reflexivity.
    + reflexivity.
    + vm_compute. reflexivity.
  - destruct (fetch_product_price_order sale_product "sale:\s*\$([0-9.,]+)"
                (start (toy_world [Ok bare_page; Ok offer_page] [] true) empty_state)
                eq_refl) as (_ & Hmiss & Hjl & _).
    rewrite (Hmiss bare_page
               (start (toy_world [Ok offer_page] [] true) empty_state)).
    + unfold bind.
      change (fetch_page sale_product (start (toy_world [Ok offer_page] [] true) empty_state))
        with (Ok offer_page, start (toy_world [] [] true) empty_state).
      cbv beta iota. rewrite Hjl by (rewrite offer_page_prices; discriminate).
      rewrite offer_page_prices. vm_compute. reflexivity.
    + reflexivity.
    + vm_compute. reflexivity.
  - destruct (fetch_product_price_order sale_product "sale:\s*\$([0-9.,]+)"
                (start (toy_world [Ok bare_page; Ok og_page] [] true) empty_state)
                eq_refl) as (_ & Hmiss & _ & Hog & _).
    rewrite (Hmiss bare_page
               (start (toy_world [Ok og_page] [] true) empty_state)).
    + unfold bind.
      change (fetch_page sale_product (start (toy_world [Ok og_page] [] true) empty_state))
        with (Ok og_page, start (toy_world [] [] true) empty_state).
      cbv beta iota. apply Hog.
      * apply og_page_prices.
      * destruct og_page_prices as [_ ->]. reflexivity.
    + reflexivity.
    + vm_compute. reflexivity.
  - destruct (fetch_product_price_order sale_selector_product "sale:\s*\$([0-9.,]+)"
                (start (toy_world [Ok bare_page; Ok bare_page] [] true) empty_state)
                eq_refl) as (_ & Hmiss & _ & _ & Hsel & _ & Hfound & _).
    rewrite (Hmiss bare_page
               (start (toy_world [Ok bare_page] [] true) empty_state)).
    + unfold bind.
      change (fetch_page sale_selector_product
                (start (toy_world [Ok bare_page] [] true) empty_state))
        with (Ok bare_page, start (toy_world [] [] true) empty_state).
      cbv beta iota. rewrite Hsel.
      * rewrite (Hfound bare_page (start (toy_world [] [] true) empty_state)
                   "span.price"
                   (TNode "html" bare_page [] [TNode "span.price" bare_page [] []])
                   (TNode "span.price" bare_page [] []) []).
        -- vm_compute. reflexivity.
        -- reflexivity.
        -- reflexivity.
        -- reflexivity.
      * apply bare_page_prices.
      * destruct bare_page_prices as [_ ->]. reflexivity.
    + reflexivity.
    + vm_compute. reflexivity.
  - destruct (fetch_product_price_order sale_product "sale:\s*\$([0-9.,]+)"
                (start (toy_world [Ok bare_page; Ok bare_page] [] true) empty_state)
                eq_refl) as (_ & Hmiss & _ & _ & Hsel & _ & _ & Hnone & _).
    rewrite (Hmiss bare_page
               (start (toy_world [Ok bare_page] [] true) empty_state)).
    + unfold bind.
      change (fetch_page sale_product
                (start (toy_world [Ok bare_page] [] true) empty_state))
        with (Ok bare_page, start (toy_world [] [] true) empty_state).
      cbv beta iota. rewrite Hsel.
      * apply Hnone. left. reflexivity.
      * apply bare_page_prices.
      * destruct bare_page_prices as [_ ->]. reflexivity.
    + reflexivity.
    + vm_compute. reflexivity.
Defined.

(** C4 as stated fails: the pattern matches, its group does not parse,
    and the extraction ends with [None] after the one fetch, although
    the structured step would have returned 30 for the same page. *)
Lemma unparsed_pattern_counterexample :
  toy_re_search "sale:\s*\$([0-9.,]+)" dotted_sale_page = Ok (Some (Some "...")) /\
  extract_price_number "..." = None /\
  fetch_product_price sale_product
    (start (toy_world [Ok dotted_sale_page; Ok dotted_sale_page] [] true) empty_state)
  = (Ok None, start (toy_world [Ok dotted_sale_page] [] true) empty_state) /\
  structured_price sale_product dotted_sale_page
    (start (toy_world [] [] true) empty_state)
  = (Ok (Some 30%Q), start (toy_world [] [] true) empty_state).
Proof. vm_compute. repeat split; reflexivity. Qed.

Lemma baseline_persists_witness :
  baselines_nonneg
    (fst (run_seq [shop [plain_product] []; shop [plain_product] []]
                  empty_state two_price_world)) /\
  baseline_of
    (fst (run_seq [shop [plain_product] []] first_ledger
                  (toy_world [Ok (priced_page "440")] [] true))) "foil"
  = Some 500%Q.
Proof.
  split.
  - apply (baseline_persists [shop [plain_product] []; shop [plain_product] []]
                             empty_state two_price_world).
    + intros pid e H. cbn in H. rewrite lookup_empty in H. discriminate.
    + intros cfg prod [<- | [<- | []]] [<- | []]; exact I.
  - apply (baseline_persists [shop [plain_product] []] first_ledger
                             (toy_world [Ok (priced_page "440")] [] true)).
    + vm_compute. reflexivity.
    + intros cfg prod [<- | []] [<- | []] _. reflexivity.
Defined.

(** C7 as stated fails: a configured baseline of -5 is stored as it is. *)
Lemma negative_baseline_counterexample :
  p_baseline (fixed_product (-5)) = Some (-5)%Q /\
  baseline_of
    (fst (run_once (shop [fixed_product (-5)] []) empty_state two_price_world))
    "foil" = Some (-5)%Q /\
  (-5 < 0)%Q.
Proof. split; [reflexivity|]. split; [vm_compute; reflexivity | reflexivity]. Qed.

(** The scenario of the specification: 500 seeds the baseline without an
    alert; 440 then alerts with a drop of 12 percent and the baseline
    stays 500. *)
Lemma two_runs_scenario :
  baseline_of first_ledger "foil" = Some 500%Q /\
  outbox (snd (run_seq [shop [plain_product] []] empty_state two_price_world)) = [] /\
  baseline_of
    (fst (run_seq [shop [plain_product] []; shop [plain_product] []]
                  empty_state two_price_world)) "foil" = Some 500%Q /\
  outbox (snd (run_seq [shop [plain_product] []; shop [plain_product] []]
                       empty_state two_price_world))
  = [RetailDrop "foil" "https://shop.example/foil" 440 500 (pct_drop 500 440) 10] /\
  (pct_drop 500 440 == 12)%Q.
Proof. vm_compute. repeat split. Qed.

Lemma two_cards_items : extract_items two_cards capped_search = Ok two_items.
Proof. vm_compute. reflexivity. Qed.






Lemma run_completes_witness :
  (exists s',
      main (shop [plain_product; wing_product] [capped_search])
           (start (toy_world [Raise "timeout"; Ok (priced_page "500")] [] true)
                  empty_state)
      = (Ok tt, s') /\
      saved s' = Some (ledger s') /\
      logs s' = [ LogFetchFailed "foil" "timeout";
                  LogBaselineInit "wing" 500;
                  LogRetailer "wing" 500 500 (pct_drop 500 500) 10;
                  LogUsedFailed "boards" "timeout" ] /\
      products (ledger s') !! "foil" = Some empty_entry /\
      products (ledger s') !! "wing"
      = Some (priced_entry wing_product empty_entry 1000 500%Q) /\
      searches (ledger s') !! "boards" = Some empty_search_entry) /\
  process_product (shop [plain_product] []) plain_product
                  (start (toy_world [] [] true) empty_state)
  = (Ok tt,
     with_log (with_ledger (start (toy_world [] [] true) empty_state)
                           (touched "foil" empty_state))
              [LogFetchFailed "foil" "timeout"]) /\
  process_product (shop [plain_product] []) plain_product
                  (start (toy_world [Ok "sold out"] [] true) empty_state)
  = (Ok tt,
     with_log (with_ledger (start (toy_world [] [] true) empty_state)
                           (touched "foil" empty_state))
              [LogNoPrice "foil"]) /\
  (exists s',
      process_product (shop [fixed_product 1000] []) (fixed_product 1000)
                      (start (toy_world [Ok (priced_page "500")] [] false) empty_state)
      = (Ok tt, s') /\
      last (logs s') = Some (LogEmailFailed "smtp") /\
      ledger s' = put_product "foil"
                    (priced_entry (fixed_product 1000) empty_entry 1000 500%Q)
                    (touched "foil" empty_state)) /\
  process_search (shop [] [capped_search]) 0 capped_search
                 (start (toy_world [] [] true) empty_state)
  = (Ok tt,
     with_log (with_ledger (start (toy_world [] [] true) empty_state)
                           (touched_search "boards" empty_state))
              [LogUsedFailed "boards" "timeout"]) /\
  (exists s',
      process_search (shop [] [capped_search]) 0 capped_search
                     (start (toy_world [] [Ok two_cards] false) empty_state)
      = (Ok tt, s') /\
      last (logs s') = Some (LogUsedEmailFailed "smtp") /\
      searches (ledger s') !! "boards"
      = Some {| seen := seen_after capped_search (reference 0) two_items [] |}).
Proof.
  split; [|split; [|split; [|split; [|split]]]].
  - destruct (run_completes (shop [plain_product; wing_product] [capped_search])
                (start (toy_world [Raise "timeout"; Ok (priced_page "500")] [] true)
                       empty_state))
      as (_ & _ & Hprods & _).
    destruct (Hprods [plain_product] wing_product [] eq_refl)
      as (sa & sb & s' & _ & _ & Hmain & Hsaved & _).
    exists s'. split; [exact Hmain|]. split; [exact Hsaved|].
    vm_compute in Hmain. injection Hmain as <-.
    repeat split; vm_compute; reflexivity.
  - destruct (run_completes (shop [plain_product] [])
                (start (toy_world [] [] true) empty_state))
      as (_ & _ & _ & _ & _ & Hfail & _).
    apply Hfail. reflexivity.
  - destruct (run_completes (shop [plain_product] [])
                (start (toy_world [] [] true) empty_state))
      as (_ & _ & _ & _ & _ & _ & Hnone & _).
    apply Hnone. vm_compute. reflexivity.
  - destruct (run_completes (shop [fixed_product 1000] [])
                (start (toy_world [] [] true) empty_state))
      as (_ & _ & _ & _ & _ & _ & _ & Hmail & _).
    apply (Hmail (start (toy_world [Ok (priced_page "500")] [] false) empty_state)
                 (fixed_product 1000)
                 (with_ledger (start (toy_world [] [] false) empty_state)
                              (touched "foil" empty_state))
                 500%Q 1000
                 {| text_feed := []; doc_feed := []; mail_up := false;
                    outbox := []; time := 1001 |}
                 {| text_feed := []; doc_feed := []; mail_up := false;
                    outbox := []; time := 1001 |}
                 "smtp").
    + vm_compute. reflexivity.
    + reflexivity.
    + reflexivity.
    + vm_compute. reflexivity.
    + reflexivity.
  - destruct (run_completes (shop [] [capped_search])
                (start (toy_world [] [] true) empty_state))
      as (_ & _ & _ & _ & _ & _ & _ & _ & _ & Hsfail & _).
    apply Hsfail. reflexivity.
  - destruct (run_completes (shop [] [capped_search])
                (start (toy_world [] [] true) empty_state))
      as (_ & _ & _ & _ & _ & _ & _ & _ & _ & _ & Hsmail).
    apply (Hsmail (start (toy_world [] [Ok two_cards] false) empty_state)
                  0%Q capped_search two_cards (toy_world [] [] false) two_items
                  "smtp" (toy_world [] [] false)).
    + reflexivity.
    + exact two_cards_items.
    + vm_compute. discriminate.
    + reflexivity.
    + reflexivity.
Defined.


(* ===================================================================== *)
(** ** Further properties of the parser, the rules and the runs *)
(* ===================================================================== *)

Lemma str_filter_app (p : ascii -> bool) (a b : string) :
  str_filter p (a +:+ b) = str_filter p a +:+ str_filter p b.
Proof.
  induction a as [|c a IH]; [reflexivity|].
  rewrite app_cons. simpl. destruct (p c); rewrite IH; reflexivity.
Qed.

Lemma str_filter_all (p : ascii -> bool) (s : string) :
  (forall c, is_digit c = true -> p c = true) ->
  all_digits s = true -> str_filter p s = s.
Proof.
  intros Hp. induction s as [|c s IH]; [reflexivity|].
  simpl. intros H. apply andb_true_iff in H as [Hc Hs].
  rewrite (Hp c Hc), (IH Hs). reflexivity.
Qed.

Lemma str_filter_none (p : ascii -> bool) (s : string) :
  (forall c, not_price_char c = true -> p c = false) ->
  no_price_chars s = true -> str_filter p s = EmptyString.
Proof.
  intros Hp. induction s as [|c s IH]; [reflexivity|].
  simpl. intros H. apply andb_true_iff in H as [Hc Hs].
  rewrite (Hp c Hc). exact (IH Hs).
Qed.

Lemma digit_not_separator (c : ascii) :
  is_digit c = true -> is_separator c = false /\ ascii_eqb c "." = false
                       /\ ascii_eqb c "," = false.
Proof.
  unfold is_separator. intros H.
  destruct (ascii_eqb c ".") eqn:E1.
  { apply ascii_eqb_eq in E1. subst c. discriminate H. }
  destruct (ascii_eqb c ",") eqn:E2.
  { apply ascii_eqb_eq in E2. subst c. discriminate H. }
  auto.
Qed.

Lemma has_digit_filter (p : ascii -> bool) (s : string) :
  (forall c, is_digit c = true -> p c = true) ->
  has_digit (str_filter p s) = has_digit s.
Proof.
  intros Hp. induction s as [|c s IH]; [reflexivity|].
  simpl. destruct (p c) eqn:E; simpl; rewrite IH; [reflexivity|].
  destruct (is_digit c) eqn:Ec; [|reflexivity].
  rewrite (Hp c Ec) in E. discriminate.
Qed.

Lemma has_digit_replace (s : string) :
  has_digit (replace_char "," "." s) = has_digit s.
Proof.
  induction s as [|c s IH]; [reflexivity|].
  simpl. rewrite IH. destruct (ascii_eqb c ",") eqn:E; [|reflexivity].
  apply ascii_eqb_eq in E. subst c. reflexivity.
Qed.

Lemma has_digit_normalise (s : string) :
  has_digit (normalise_spec s) = has_digit s.
Proof.
  assert (forall a, is_digit a = false ->
                    has_digit (remove_char a s) = has_digit s) as Hrem.
  { intros a Ha. apply has_digit_filter. intros c Hc.
    destruct (ascii_eqb c a) eqn:E; [|reflexivity].
    apply ascii_eqb_eq in E. congruence. }
  unfold normalise_spec.
  destruct (last_separator s) as [c|]; [destruct (ascii_eqb c ",")|];
    rewrite ?has_digit_replace; apply Hrem; reflexivity.
Qed.

Lemma first_number_token_none (s : string) :
  first_number_token s = None <-> has_digit s = false.
Proof.
  induction s as [|c s IH]; [split; reflexivity|].
  change (first_number_token (String c s))
    with (if is_digit c
          then Some (take_digits (String c s)
                     +:+ fraction_of (drop_digits (String c s)))
          else first_number_token s).
  simpl. destruct (is_digit c); simpl; [split; discriminate | exact IH].
Qed.

Lemma has_digit_empty (s : string) : is_empty s = true -> has_digit s = false.
Proof. destruct s; [reflexivity | discriminate]. Qed.

Lemma extract_price_number_none (text : string) :
  extract_price_number text = None <-> has_digit text = false.
Proof.
  rewrite extract_price_number_refines. unfold parse_spec.
  rewrite <- (has_digit_filter (fun c => is_digit c || is_separator c) text)
    by (intros c ->; reflexivity).
  fold (keep_price_chars text).
  destruct (is_empty (keep_price_chars text)) eqn:E.
  - split; [intros _; apply has_digit_empty; exact E | reflexivity].
  - rewrite <- has_digit_normalise, <- first_number_token_none.
    destruct (first_number_token _); simpl; split; congruence.
Qed.

Lemma keep_price_chars_junk (a junk b : string) :
  no_price_chars junk = true ->
  keep_price_chars (a +:+ junk +:+ b) = keep_price_chars (a +:+ b).
Proof.
  intros H. unfold keep_price_chars. rewrite !str_filter_app.
  rewrite (str_filter_none _ junk); [reflexivity | | exact H].
  intros c Hc. unfold not_price_char, is_separator in *.
  apply negb_true_iff in Hc. rewrite <- orb_assoc in Hc. exact Hc.
Qed.

(** X1.  [extract_price_number] returns [None] exactly for a text without
    a digit, and characters that are neither digits, points nor commas
    can be inserted anywhere in a text without changing its result. *)
Theorem extract_price_number_edges :
  (forall text, extract_price_number text = None <-> has_digit text = false) /\
  (forall a junk b,
      no_price_chars junk = true ->
      extract_price_number (a +:+ junk +:+ b) = extract_price_number (a +:+ b)).
Proof.
  split; [exact extract_price_number_none|].
  intros a junk b H. rewrite !extract_price_number_refines. unfold parse_spec.
  rewrite (keep_price_chars_junk a junk b H). reflexivity.
Qed.

Lemma take_digits_app (d r : string) :
  all_digits d = true -> take_digits (d +:+ r) = d +:+ take_digits r.
Proof.
  induction d as [|c d IH]; [reflexivity|].
  intros H. simpl in H. apply andb_true_iff in H as [Hc Hd].
  rewrite !app_cons. simpl. rewrite Hc, (IH Hd). reflexivity.
Qed.

Lemma drop_digits_app (d r : string) :
  all_digits d = true -> drop_digits (d +:+ r) = drop_digits r.
Proof.
  induction d as [|c d IH]; [reflexivity|].
  intros H. simpl in H. apply andb_true_iff in H as [Hc Hd].
  rewrite app_cons. simpl. rewrite Hc. exact (IH Hd).
Qed.

Lemma take_digits_all (d : string) : all_digits d = true -> take_digits d = d.
Proof.
  intros H. rewrite <- (app_nil_r d) at 1.
  rewrite take_digits_app by exact H. apply app_nil_r.
Qed.

Lemma drop_digits_all (d : string) :
  all_digits d = true -> drop_digits d = EmptyString.
Proof.
  intros H. rewrite <- (app_nil_r d).
  rewrite drop_digits_app by exact H. reflexivity.
Qed.

Lemma all_digits_app (a b : string) :
  all_digits (a +:+ b) = all_digits a && all_digits b.
Proof.
  induction a as [|c a IH]; [reflexivity|].
  rewrite app_cons. simpl. rewrite IH, andb_assoc. reflexivity.
Qed.

Lemma digits_val_app (a b : string) (acc : Z) :
  digits_val acc (a +:+ b) = digits_val (digits_val acc a) b.
Proof.
  revert acc. induction a as [|c a IH]; intros acc; [reflexivity|].
  rewrite app_cons. simpl. apply IH.
Qed.

Lemma last_separator_app (a b : string) :
  last_separator (a +:+ b) =
  match last_separator b with
  | Some x => Some x
  | None => last_separator a
  end.
Proof.
  induction a as [|c a IH].
  - rewrite app_nil_l. destruct (last_separator b); reflexivity.
  - rewrite app_cons. simpl. rewrite IH.
    destruct (last_separator b); reflexivity.
Qed.

Lemma last_separator_digits (d : string) :
  all_digits d = true -> last_separator d = None.
Proof.
  induction d as [|c d IH]; [reflexivity|].
  simpl. intros H. apply andb_true_iff in H as [Hc Hd].
  rewrite (IH Hd). destruct (digit_not_separator c Hc) as [-> _]. reflexivity.
Qed.

Lemma remove_char_app (x : ascii) (a b : string) :
  remove_char x (a +:+ b) = remove_char x a +:+ remove_char x b.
Proof. apply str_filter_app. Qed.

Lemma remove_char_digits (x : ascii) (d : string) :
  is_digit x = false -> all_digits d = true -> remove_char x d = d.
Proof.
  intros Hx. apply str_filter_all. intros c Hc.
  destruct (ascii_eqb c x) eqn:E; [|reflexivity].
  apply ascii_eqb_eq in E. congruence.
Qed.

Lemma replace_char_app (x y : ascii) (a b : string) :
  replace_char x y (a +:+ b) = replace_char x y a +:+ replace_char x y b.
Proof.
  induction a as [|c a IH]; [reflexivity|].
  rewrite app_cons. simpl. rewrite IH, app_cons. reflexivity.
Qed.

Lemma replace_char_digits (x y : ascii) (d : string) :
  is_digit x = false -> all_digits d = true -> replace_char x y d = d.
Proof.
  intros Hx. induction d as [|c d IH]; [reflexivity|].
  simpl. intros H. apply andb_true_iff in H as [Hc Hd]. rewrite (IH Hd).
  destruct (ascii_eqb c x) eqn:E; [|reflexivity].
  apply ascii_eqb_eq in E. congruence.
Qed.

Lemma keep_price_chars_digits (d : string) :
  all_digits d = true -> keep_price_chars d = d.
Proof. apply str_filter_all. intros c ->. reflexivity. Qed.

(** The token read from digits, a point and what follows. *)
Lemma first_token_point (ip rest : string) :
  all_digits ip = true -> ip <> EmptyString ->
  first_number_token (ip +:+ String "." rest)
  = Some (ip +:+ fraction_of (String "." rest)).
Proof.
  intros Hip Hne. destruct ip as [|c ip]; [contradiction|].
  rewrite app_cons.
  change (first_number_token (String c ?s))
    with (if is_digit c
          then Some (take_digits (String c s) +:+ fraction_of (drop_digits (String c s)))
          else first_number_token s).
  pose proof Hip as Hc. simpl in Hc. apply andb_true_iff in Hc as [Hc _].
  rewrite Hc, <- app_cons.
  rewrite take_digits_app, drop_digits_app by exact Hip.
  change (take_digits (String "." rest)) with EmptyString.
  change (drop_digits (String "." rest)) with (String "." rest).
  rewrite app_nil_r. reflexivity.
Qed.

Lemma first_token_digits (ip : string) :
  all_digits ip = true -> ip <> EmptyString ->
  first_number_token ip = Some ip.
Proof.
  intros Hip Hne. destruct ip as [|c ip]; [contradiction|].
  change (first_number_token (String c ?s))
    with (if is_digit c
          then Some (take_digits (String c s) +:+ fraction_of (drop_digits (String c s)))
          else first_number_token s).
  pose proof Hip as Hc. simpl in Hc. apply andb_true_iff in Hc as [Hc _].
  rewrite Hc, take_digits_all, drop_digits_all by exact Hip.
  rewrite app_nil_r. reflexivity.
Qed.

Lemma fraction_of_point (fp rest : string) :
  all_digits fp = true -> fp <> EmptyString ->
  take_digits rest = EmptyString ->
  fraction_of (String "." (fp +:+ rest)) = String "." fp.
Proof.
  intros Hfp Hne Hrest. unfold fraction_of.
  rewrite take_digits_app, Hrest, app_nil_r by exact Hfp.
  destruct fp; [contradiction | reflexivity].
Qed.

Lemma float_of_token_decimal (ip fp rest : string) :
  all_digits ip = true -> all_digits fp = true ->
  take_digits rest = EmptyString ->
  float_of_token (ip +:+ String "." (fp +:+ rest)) = decimal ip fp.
Proof.
  intros Hip Hfp Hrest. unfold float_of_token, decimal.
  rewrite take_digits_app, drop_digits_app by exact Hip.
  change (take_digits (String "." ?r)) with EmptyString.
  change (drop_digits (String "." ?r)) with (String "." r).
  rewrite app_nil_r, take_digits_app, Hrest, app_nil_r by exact Hfp.
  rewrite digits_val_app. reflexivity.
Qed.

Lemma float_of_token_integer (ip : string) :
  all_digits ip = true -> float_of_token ip = decimal ip EmptyString.
Proof.
  intros Hip. unfold float_of_token, decimal.
  rewrite take_digits_all, drop_digits_all, app_nil_r by exact Hip.
  reflexivity.
Qed.

Lemma parse_cleaned (s : string) :
  keep_price_chars s = s -> s <> EmptyString ->
  extract_price_number s
  = option_map float_of_token (first_number_token (normalise_spec s)).
Proof.
  intros Hs Hne. rewrite extract_price_number_refines. unfold parse_spec.
  rewrite Hs. destruct s; [contradiction | reflexivity].
Qed.

Lemma app_not_empty (a b : string) : a <> EmptyString -> a +:+ b <> EmptyString.
Proof. destruct a; [contradiction | rewrite app_cons; discriminate]. Qed.

Lemma keep_app (a b : string) :
  keep_price_chars (a +:+ b) = keep_price_chars a +:+ keep_price_chars b.
Proof. apply str_filter_app. Qed.

Lemma keep_sep (sep : ascii) (r : string) :
  is_separator sep = true ->
  keep_price_chars (String sep r) = String sep (keep_price_chars r).
Proof.
  intros H. unfold keep_price_chars. simpl. rewrite H, orb_true_r. reflexivity.
Qed.

Lemma remove_keep (x c : ascii) (r : string) :
  ascii_eqb c x = false ->
  remove_char x (String c r) = String c (remove_char x r).
Proof. intros H. unfold remove_char. simpl. rewrite H. reflexivity. Qed.

Lemma remove_drop (x : ascii) (r : string) :
  remove_char x (String x r) = remove_char x r.
Proof. unfold remove_char. simpl. rewrite ascii_eqb_refl. reflexivity. Qed.

Lemma replace_hit (x y : ascii) (r : string) :
  replace_char x y (String x r) = String y (replace_char x y r).
Proof. simpl. rewrite ascii_eqb_refl. reflexivity. Qed.

Lemma last_separator_tail (x d : string) (sep : ascii) :
  is_separator sep = true -> all_digits d = true ->
  last_separator (x +:+ String sep d) = Some sep.
Proof.
  intros Hsep Hd. rewrite last_separator_app. simpl.
  rewrite (last_separator_digits d Hd), Hsep. reflexivity.
Qed.

Lemma normalise_point (s : string) :
  last_separator s = Some "."%char -> normalise_spec s = remove_char "," s.
Proof. intros H. unfold normalise_spec. rewrite H. reflexivity. Qed.

Lemma normalise_comma (s : string) :
  last_separator s = Some ","%char ->
  normalise_spec s = replace_char "," "." (remove_char "." s).
Proof. intros H. unfold normalise_spec. rewrite H. reflexivity. Qed.

(** The value read from integer digits, a point, fraction digits and a
    rest that does not go on with a digit. *)
Lemma token_value (ip fp rest : string) :
  all_digits ip = true -> ip <> EmptyString ->
  all_digits fp = true -> fp <> EmptyString ->
  take_digits rest = EmptyString ->
  option_map float_of_token
             (first_number_token (ip +:+ String "." (fp +:+ rest)))
  = Some (decimal ip fp).
Proof.
  intros Hip Hine Hfp Hfne Hrest.
  rewrite (first_token_point ip _ Hip Hine).
  rewrite (fraction_of_point fp rest Hfp Hfne Hrest). simpl.
  rewrite <- (app_nil_r fp) at 1.
  rewrite (float_of_token_decimal ip fp EmptyString Hip Hfp eq_refl).
  reflexivity.
Qed.

Lemma token_value_end (ip fp : string) :
  all_digits ip = true -> ip <> EmptyString ->
  all_digits fp = true -> fp <> EmptyString ->
  option_map float_of_token (first_number_token (ip +:+ String "." fp))
  = Some (decimal ip fp).
Proof.
  intros Hip Hine Hfp Hfne.
  pose proof (token_value ip fp EmptyString Hip Hine Hfp Hfne eq_refl) as H.
  rewrite app_nil_r in H. exact H.
Qed.

Ltac shape :=
  rewrite ?keep_app, ?remove_char_app, ?replace_char_app;
  repeat first
    [ rewrite keep_sep by reflexivity
    | rewrite remove_drop
    | rewrite remove_keep by reflexivity
    | rewrite replace_hit
    | rewrite keep_app | rewrite remove_char_app | rewrite replace_char_app
    | match goal with
      | H : all_digits ?d = true |- context [keep_price_chars ?d] =>
          rewrite (keep_price_chars_digits d H)
      | H : all_digits ?d = true |- context [remove_char ?x ?d] =>
          rewrite (remove_char_digits x d eq_refl H)
      | H : all_digits ?d = true |- context [replace_char ?x ?y ?d] =>
          rewrite (replace_char_digits x y d eq_refl H)
      end ].

(** X2.  For non-empty digit strings a, b and c: a alone is read as the
    integer a; a.c and a,c as a with the fraction c; a,b.c and a.b,c as
    ab with the fraction c; a,b,c and a.b.c as a with the fraction b,
    what follows the second separator being dropped.  So 1,299 is read
    as 1.299, and so is 1,299,000. *)
Theorem extract_price_number_separators (a b c : string) :
  all_digits a = true -> a <> EmptyString ->
  all_digits b = true -> b <> EmptyString ->
  all_digits c = true -> c <> EmptyString ->
  extract_price_number a = Some (decimal a EmptyString) /\
  extract_price_number (a +:+ "." +:+ c) = Some (decimal a c) /\
  extract_price_number (a +:+ "," +:+ c) = Some (decimal a c) /\
  extract_price_number (a +:+ "," +:+ b +:+ "." +:+ c) = Some (decimal (a +:+ b) c) /\
  extract_price_number (a +:+ "." +:+ b +:+ "," +:+ c) = Some (decimal (a +:+ b) c) /\
  extract_price_number (a +:+ "," +:+ b +:+ "," +:+ c) = Some (decimal a b) /\
  extract_price_number (a +:+ "." +:+ b +:+ "." +:+ c) = Some (decimal a b).
Proof.
  intros Ha Hane Hb Hbne Hc Hcne.
  assert (all_digits (a +:+ b) = true) as Hab
      by (rewrite all_digits_app, Ha, Hb; reflexivity).
  assert (a +:+ b <> EmptyString) as Habne by (apply app_not_empty; exact Hane).
  change ("." +:+ c) with (String "." c).
  change ("," +:+ c) with (String "," c).
  change ("," +:+ b +:+ String "." c) with (String "," (b +:+ String "." c)).
  change ("." +:+ b +:+ String "," c) with (String "." (b +:+ String "," c)).
  change ("," +:+ b +:+ String "," c) with (String "," (b +:+ String "," c)).
  change ("." +:+ b +:+ String "." c) with (String "." (b +:+ String "." c)).
  split; [|split; [|split; [|split; [|split; [|split]]]]].
  - rewrite parse_cleaned; [|apply keep_price_chars_digits; exact Ha | exact Hane].
    unfold normalise_spec. rewrite (last_separator_digits a Ha).
    rewrite (remove_char_digits "," a eq_refl Ha).
    rewrite (first_token_digits a Ha Hane). simpl.
    rewrite (float_of_token_integer a Ha). reflexivity.
  - rewrite parse_cleaned; [|shape; reflexivity | apply app_not_empty; exact Hane].
    rewrite normalise_point by (apply last_separator_tail; [reflexivity | exact Hc]).
    shape. apply token_value_end; auto.
  - rewrite parse_cleaned; [|shape; reflexivity | apply app_not_empty; exact Hane].
    rewrite normalise_comma by (apply last_separator_tail; [reflexivity | exact Hc]).
    shape. apply token_value_end; auto.
  - rewrite parse_cleaned; [|shape; reflexivity | apply app_not_empty; exact Hane].
    rewrite normalise_point.
    + shape. rewrite <- app_assoc. apply token_value_end; auto.
    + rewrite <- app_cons, <- app_assoc.
      apply last_separator_tail; [reflexivity | exact Hc].
  - rewrite parse_cleaned; [|shape; reflexivity | apply app_not_empty; exact Hane].
    rewrite normalise_comma.
    + shape. rewrite <- app_assoc. apply token_value_end; auto.
    + rewrite <- app_cons, <- app_assoc.
      apply last_separator_tail; [reflexivity | exact Hc].
  - rewrite parse_cleaned; [|shape; reflexivity | apply app_not_empty; exact Hane].
    rewrite normalise_comma.
    + shape. apply token_value; auto.
    + rewrite <- app_cons, <- app_assoc.
      apply last_separator_tail; [reflexivity | exact Hc].
  - rewrite parse_cleaned; [|shape; reflexivity | apply app_not_empty; exact Hane].
    rewrite normalise_point.
    + shape. apply token_value; auto.
    + rewrite <- app_cons, <- app_assoc.
      apply last_separator_tail; [reflexivity | exact Hc].
Qed.

Lemma extract_price_number_separators_witness :
  extract_price_number "2747" = Some 2747%Q /\
  extract_price_number "2,747.00" = Some 2747%Q /\
  extract_price_number "2.747,00" = Some 2747%Q /\
  extract_price_number "1,299" = Some (1299 # 1000)%Q /\
  extract_price_number "1,299,000" = Some (1299 # 1000)%Q /\
  extract_price_number "1.299.000" = Some (1299 # 1000)%Q.
Proof.
  destruct (extract_price_number_separators "2" "747" "00")
    as (_ & _ & _ & Hus & Heu & _); try reflexivity; try discriminate.
  destruct (extract_price_number_separators "2747" "1" "1")
    as (Hint & _); try reflexivity; try discriminate.
  destruct (extract_price_number_separators "1" "299" "000")
    as (_ & _ & _ & _ & _ & Hcc & Hpp); try reflexivity; try discriminate.
  destruct (extract_price_number_separators "1" "1" "299")
    as (_ & _ & Hone & _); try reflexivity; try discriminate.
  split; [exact Hint|]. split; [exact Hus|]. split; [exact Heu|].
  split; [exact Hone|]. split; [exact Hcc | exact Hpp].
Defined.

Lemma pct_drop_same (old : Q) : (pct_drop old old == 0)%Q.
Proof.
  unfold pct_drop. destruct (Qle_bool old 0) eqn:E; [reflexivity|].
  assert (~ old == 0)%Q as Hne.
  { intros H. rewrite H in E. discriminate. }
  field. exact Hne.
Qed.

Lemma pct_drop_at_most_100 (old new : Q) :
  (0 < old)%Q -> (0 <= new)%Q -> (pct_drop old new <= 100)%Q.
Proof.
  intros Hold Hnew. rewrite pct_drop_pos by exact Hold.
  assert (0 < / old)%Q as Hinv by (apply Qinv_lt_0_compat; exact Hold).
  assert (old * / old == 1)%Q as Hone by (apply Qmult_inv_r; lra).
  unfold Qdiv. nra.
Qed.

Lemma pct_drop_antitone (old new1 new2 : Q) :
  (new1 <= new2)%Q -> (pct_drop old new2 <= pct_drop old new1)%Q.
Proof.
  intros H. unfold pct_drop. destruct (Qle_bool old 0) eqn:E; [lra|].
  apply Qle_bool_false in E.
  assert (0 < / old)%Q as Hinv by (apply Qinv_lt_0_compat; exact E).
  unfold Qdiv. nra.
Qed.

Lemma pct_drop_sign (old new : Q) :
  (0 < old)%Q -> (0 < pct_drop old new)%Q <-> (new < old)%Q.
Proof.
  intros Hold. rewrite pct_drop_pos by exact Hold.
  assert (0 < / old)%Q as Hinv by (apply Qinv_lt_0_compat; exact Hold).
  unfold Qdiv. split; intros H.
  - destruct (Qlt_le_dec new old) as [Hlt | Hle]; [exact Hlt|].
    exfalso. nra.
  - nra.
Qed.

(** X3.  [pct_drop old old] is 0; for a positive old price and a
    non-negative new one the drop is at most 100; the drop does not
    grow with the new price; and for a positive old price the drop is
    positive exactly when the new price is below the old one. *)
Theorem pct_drop_bounds (old new : Q) :
  (pct_drop old old == 0)%Q /\
  ((0 < old)%Q -> (0 <= new)%Q -> (pct_drop old new <= 100)%Q) /\
  (forall new', (new <= new')%Q -> (pct_drop old new' <= pct_drop old new)%Q) /\
  ((0 < old)%Q -> (0 < pct_drop old new)%Q <-> (new < old)%Q).
Proof.
  split; [apply pct_drop_same|]. split; [apply pct_drop_at_most_100|].
  split; [intros new'; apply pct_drop_antitone|].
  apply pct_drop_sign.
Qed.

Lemma pct_drop_bounds_witness :
  (pct_drop 1000 899 <= 100)%Q /\
  (0 < pct_drop 1000 899)%Q /\
  ~ (0 < pct_drop 1000 1000)%Q.
Proof.
  destruct (pct_drop_bounds 1000 899) as (_ & Hmax & _ & Hfell).
  destruct (pct_drop_bounds 1000 1000) as (_ & _ & _ & Hsame).
  split; [apply Hmax; [reflexivity | discriminate]|].
  split.
  - apply Hfell; reflexivity.
  - intros H. apply Hsame in H; [|reflexivity]. discriminate H.
Defined.

Lemma trigger_inv (scfg : Search) (msrp price : option Q) (r : Reason) :
  trigger scfg msrp price = Some r ->
  exists p,
    price = Some p /\
    match r with
    | BelowCeiling c =>
        s_alert_below scfg = Some c /\ ~ (c == 0)%Q /\ (p <= c)%Q
    | BelowMsrp d =>
        ceiling_silent scfg price /\
        exists ref pct,
          msrp = Some ref /\ ~ (ref == 0)%Q /\
          s_alert_percent_below_msrp scfg = Some pct /\ ~ (pct == 0)%Q /\
          d = pct_drop ref p /\ (pct <= d)%Q
    end.
Proof.
  unfold trigger. intros H.
  destruct price as [p|];
    [|destruct (truthy_num (s_alert_below scfg)), (truthy_num msrp),
               (truthy_num (s_alert_percent_below_msrp scfg)); discriminate].
  destruct (truthy_num (s_alert_below scfg)) as [c|] eqn:Ec.
  - destruct (Qle_bool p c) eqn:Ele.
    + injection H as <-. exists p. split; [reflexivity|].
      apply truthy_num_inv in Ec as [Ec Hnz]. apply Qle_bool_iff in Ele. auto.
    + destruct (truthy_num msrp) as [ref|] eqn:Er; [|discriminate].
      destruct (truthy_num (s_alert_percent_below_msrp scfg)) as [pct|] eqn:Ep;
        [|discriminate].
      destruct (Qle_bool pct (pct_drop ref p)) eqn:Ed; [|discriminate].
      injection H as <-. exists p. split; [reflexivity|].
      apply truthy_num_inv in Ec as [Ec _], Er as [Er Hr], Ep as [Ep Hp].
      apply Qle_bool_false in Ele. apply Qle_bool_iff in Ed. split.
      * right. right. exists c, p. auto.
      * exists ref, pct. auto 10.
  - destruct (truthy_num msrp) as [ref|] eqn:Er; [|discriminate].
    destruct (truthy_num (s_alert_percent_below_msrp scfg)) as [pct|] eqn:Ep;
      [|discriminate].
    destruct (Qle_bool pct (pct_drop ref p)) eqn:Ed; [|discriminate].
    injection H as <-. exists p. split; [reflexivity|].
    apply truthy_num_inv in Er as [Er Hr], Ep as [Ep Hp].
    apply Qle_bool_iff in Ed. split; [left; exact Ec|].
    exists ref, pct. auto 10.
Qed.

Lemma reference_positive (msrp ref : Q) :
  reference msrp = Some ref -> ref = msrp /\ (0 < msrp)%Q.
Proof.
  unfold reference. destruct (Qltb 0 msrp) eqn:E; [|discriminate].
  intros [= <-]. split; [reflexivity|]. apply Qltb_lt. rewrite E. exact I.
Qed.

(** X4.  A rule of a search fires only on a listing with a price: the
    ceiling only when the price is at most the configured ceiling, the
    percentage only when the reference price is positive and the drop
    of the price against it reaches the configured percentage, so that
    under a positive percentage the price is below the reference price.
    Without a price, without any rule, or with no ceiling and a
    reference price that is not positive, nothing fires. *)
Theorem trigger_sound (scfg : Search) (msrp : Q) (price : option Q) :
  (forall r, trigger scfg (reference msrp) price = Some r ->
     exists p,
       price = Some p /\
       match r with
       | BelowCeiling c => s_alert_below scfg = Some c /\ (p <= c)%Q
       | BelowMsrp d =>
           exists pct,
             s_alert_percent_below_msrp scfg = Some pct /\ (0 < msrp)%Q /\
             d = pct_drop msrp p /\ (pct <= d)%Q /\
             ((0 < pct)%Q -> (p < msrp)%Q)
       end) /\
  (price = None -> trigger scfg (reference msrp) price = None) /\
  (s_alert_below scfg = None -> s_alert_percent_below_msrp scfg = None ->
   trigger scfg (reference msrp) price = None) /\
  (s_alert_below scfg = None -> (msrp <= 0)%Q ->
   trigger scfg (reference msrp) price = None).
Proof.
  split; [|split; [|split]].
  - intros r H. apply trigger_inv in H as (p & Hp & Hr).
    exists p. split; [exact Hp|].
    destruct r as [c|d].
    + destruct Hr as (Hc & _ & Hle). auto.
    + destruct Hr as (_ & ref & pct & Href & _ & Hpct & _ & Hd & Hle).
      apply reference_positive in Href as [-> Hpos].
      exists pct. split; [exact Hpct|]. split; [exact Hpos|].
      split; [exact Hd|]. split; [exact Hle|].
      intros Hpct_pos. apply (pct_drop_sign msrp p Hpos). rewrite <- Hd.
      eapply Qlt_le_trans; eauto.
  - intros ->. unfold trigger.
    destruct (truthy_num (s_alert_below scfg)),
             (truthy_num (reference msrp)),
             (truthy_num (s_alert_percent_below_msrp scfg)); reflexivity.
  - intros Hb Hp. unfold trigger. rewrite Hb, Hp. cbn.
    destruct (truthy_num (reference msrp)); reflexivity.
  - intros Hb Hm. unfold trigger. rewrite Hb. cbn.
    assert (reference msrp = None) as ->; [|reflexivity].
    unfold reference. destruct (Qltb 0 msrp) eqn:E; [|reflexivity].
    exfalso. assert (0 < msrp)%Q by (apply Qltb_lt; rewrite E; exact I). lra.
Qed.

Lemma trigger_sound_witness :
  (exists p, Some 2000%Q = Some p /\
             s_alert_below board_search = Some 2300%Q /\ (p <= 2300)%Q) /\
  (exists p, Some 2000%Q = Some p /\
             exists pct, s_alert_percent_below_msrp percent_search = Some pct /\
                         (0 < 2747)%Q /\
                         BelowMsrp (pct_drop 2747 2000) = BelowMsrp (pct_drop 2747 p) /\
                         (pct <= pct_drop 2747 2000)%Q /\
                         ((0 < pct)%Q -> (p < 2747)%Q)) /\
  trigger board_search (reference 2747) None = None /\
  trigger plain_search (reference 2747) (Some 1%Q) = None /\
  trigger percent_search (reference (-1)) (Some 1%Q) = None.
Proof.
  destruct (trigger_sound board_search 2747 (Some 2000%Q)) as (Hc & _).
  destruct (trigger_sound percent_search 2747 (Some 2000%Q)) as (Hp & _).
  destruct (trigger_sound board_search 2747 None) as (_ & Hnone & _).
  destruct (trigger_sound plain_search 2747 (Some 1%Q)) as (_ & _ & Hoff & _).
  destruct (trigger_sound percent_search (-1) (Some 1%Q)) as (_ & _ & _ & Hneg).
  split; [|split; [|split; [|split]]].
  - exact (Hc (BelowCeiling 2300%Q) eq_refl).
  - destruct (Hp (BelowMsrp (pct_drop 2747 2000)) eq_refl)
      as (p & Hprice & pct & H1 & H2 & H3 & H4 & H5).
    exists p. split; [exact Hprice|]. exists pct. split; [exact H1|].
    split; [exact H2|]. split; [rewrite H3; reflexivity|]. split; assumption.
  - apply Hnone. reflexivity.
  - apply Hoff; reflexivity.
  - apply Hneg; [reflexivity | discriminate].
Defined.

Lemma examine_iff (scfg : Search) (seen : gset string) (msrp : option Q)
      (it : Item) (m : Match) :
  examine scfg seen msrp it = Some m <->
  it = match_item m /\
  text_ok (m_title m) (s_include_keywords scfg) (s_exclude_keywords scfg) = true /\
  (m_url m = EmptyString \/ m_url m ∉ seen) /\
  trigger scfg msrp (m_price m) = Some (m_reason m).
Proof.
  destruct it as [[title url] price]. unfold match_item. split.
  - intros H. pose proof H as Hu. apply examine_some in Hu as [_ Hu].
    unfold examine in H.
    destruct (text_ok title _ _) eqn:Hok; [|discriminate]. cbn [negb] in H.
    destruct (negb (is_empty url) && bool_decide (url ∈ seen)); [discriminate|].
    destruct (trigger scfg msrp price) as [r|] eqn:Ht; [|discriminate].
    injection H as <-. cbn in *. auto.
  - intros (Hit & Hok & Hu & Ht). injection Hit as -> -> ->.
    rewrite examine_passed by assumption. rewrite Ht. destruct m; reflexivity.
Qed.

Lemma matches_sublist (scfg : Search) (seen : gset string) (msrp : option Q)
      (cands : list Item) :
  map match_item (omap (examine scfg seen msrp) cands) `sublist_of` cands.
Proof.
  induction cands as [|it cands IH]; [constructor|].
  cbn. destruct (examine scfg seen msrp it) as [m|] eqn:E.
  - apply examine_iff in E as [-> _]. cbn. apply sublist_skip. exact IH.
  - apply sublist_cons. exact IH.
Qed.

Lemma lstrip_head (s : string) :
  match lstrip s with String c _ => is_space c = false | EmptyString => True end.
Proof.
  induction s as [|c s IH]; [exact I|].
  simpl. destruct (is_space c) eqn:E; [exact IH | exact E].
Qed.

Lemma lstrip_fixed (s : string) :
  match s with String c _ => is_space c = false | EmptyString => True end ->
  lstrip s = s.
Proof. destruct s as [|c s]; [reflexivity|]. simpl. intros ->. reflexivity. Qed.

Lemma rstrip_head (s : string) :
  match s with String c _ => is_space c = false | EmptyString => True end ->
  match rstrip s with String c _ => is_space c = false | EmptyString => True end.
Proof.
  destruct s as [|c s]; [intros _; exact I|].
  simpl. intros H. rewrite H, andb_false_r. exact H.
Qed.

Lemma rstrip_idem (s : string) : rstrip (rstrip s) = rstrip s.
Proof.
  induction s as [|c s IH]; [reflexivity|].
  simpl. destruct (is_empty (rstrip s) && is_space c) eqn:E; [reflexivity|].
  simpl. rewrite IH, E. reflexivity.
Qed.

Lemma strip_idem (s : string) : strip (strip s) = strip s.
Proof.
  unfold strip.
  rewrite (lstrip_fixed (rstrip (lstrip s)))
    by (apply rstrip_head, lstrip_head).
  apply rstrip_idem.
Qed.

Lemma lower_char_idem (c : ascii) : lower_char (lower_char c) = lower_char c.
Proof. destruct c as [[] [] [] [] [] [] [] []]; reflexivity. Qed.

Lemma lower_idem (s : string) : lower (lower s) = lower s.
Proof.
  induction s as [|c s IH]; [reflexivity|].
  simpl. rewrite lower_char_idem, IH. reflexivity.
Qed.

Lemma str_in_empty_key (s : string) : str_in EmptyString s = true.
Proof. destruct s; reflexivity. Qed.

Lemma str_in_empty_text (k : string) : str_in k EmptyString = is_empty k.
Proof. destruct k; reflexivity. Qed.

Lemma nonempty_map {A B : Type} (f : A -> B) (l : list A) :
  nonempty (map f l) = nonempty l.
Proof. destruct l; reflexivity. Qed.

Lemma forallb_map {A B : Type} (f : A -> B) (p : B -> bool) (l : list A) :
  forallb p (map f l) = forallb (fun x => p (f x)) l.
Proof. induction l as [|x l IH]; [reflexivity|]. cbn. rewrite IH. reflexivity. Qed.

Lemma existsb_map {A B : Type} (f : A -> B) (p : B -> bool) (l : list A) :
  existsb p (map f l) = existsb (fun x => p (f x)) l.
Proof. induction l as [|x l IH]; [reflexivity|]. cbn. rewrite IH. reflexivity. Qed.

Lemma forallb_pointwise {A : Type} (p q : A -> bool) (l : list A) :
  (forall x, p x = q x) -> forallb p l = forallb q l.
Proof. intros H. induction l as [|x l IH]; [reflexivity|]. cbn. rewrite H, IH. reflexivity. Qed.

Lemma existsb_pointwise {A : Type} (p q : A -> bool) (l : list A) :
  (forall x, p x = q x) -> existsb p l = existsb q l.
Proof. intros H. induction l as [|x l IH]; [reflexivity|]. cbn. rewrite H, IH. reflexivity. Qed.

Lemma existsb_in {A : Type} (p : A -> bool) (l : list A) (x : A) :
  In x l -> p x = true -> existsb p l = true.
Proof. intros Hin Hp. apply existsb_exists. eauto. Qed.

(** X5.  [text_ok] does not depend on the letter case of the title or of
    the keywords; with no keywords every title passes; an empty exclude
    keyword rejects every title and an empty include keyword changes
    nothing; a listing without title passes exactly when every include
    keyword is empty and no exclude keyword is; and adding a keyword to
    either list never lets a rejected title pass. *)
Theorem text_ok_edges (s : string) (includes excludes : list string) :
  text_ok (lower s) (map lower includes) (map lower excludes)
  = text_ok s includes excludes /\
  text_ok s [] [] = true /\
  (In EmptyString excludes -> text_ok s includes excludes = false) /\
  text_ok s (EmptyString :: includes) excludes = text_ok s includes excludes /\
  text_ok EmptyString includes excludes
  = forallb is_empty includes && negb (existsb is_empty excludes) /\
  (forall k, text_ok s (k :: includes) excludes = true ->
             text_ok s includes excludes = true) /\
  (forall k, text_ok s includes (k :: excludes) = true ->
             text_ok s includes excludes = true).
Proof.
  split; [|split; [|split; [|split; [|split; [|split]]]]].
  - unfold text_ok. rewrite !nonempty_map, forallb_map, existsb_map, lower_idem.
    rewrite (forallb_pointwise _ (fun k => str_in (lower k) (lower s)))
      by (intros k; rewrite lower_idem; reflexivity).
    rewrite (existsb_pointwise _ (fun k => str_in (lower k) (lower s)))
      by (intros k; rewrite lower_idem; reflexivity).
    reflexivity.
  - reflexivity.
  - intros Hin. unfold text_ok.
    rewrite (nonempty_true _ _ Hin).
    rewrite (existsb_in _ _ EmptyString Hin) by apply str_in_empty_key.
    destruct (nonempty includes && _); reflexivity.
  - unfold text_ok. cbn [nonempty forallb lower]. rewrite str_in_empty_key.
    destruct includes; reflexivity.
  - unfold text_ok. cbn [lower].
    rewrite (forallb_pointwise _ is_empty)
      by (intros k; rewrite str_in_empty_text; destruct k; reflexivity).
    rewrite (existsb_pointwise _ is_empty)
      by (intros k; rewrite str_in_empty_text; destruct k; reflexivity).
    destruct includes as [|k inc]; destruct excludes as [|x exc]; cbn [nonempty andb];
      try reflexivity;
      destruct (forallb _ (k :: inc)); cbn; try reflexivity;
      destruct (existsb _ (x :: exc)); reflexivity.
  - intros k. unfold text_ok. cbn [nonempty forallb andb].
    destruct (str_in (lower k) (lower s)); cbn [andb negb]; [|discriminate].
    destruct (forallb _ includes); cbn [negb]; [|discriminate].
    rewrite andb_false_r. auto.
  - intros k. unfold text_ok.
    destruct (nonempty includes && _); [discriminate|].
    cbn [nonempty existsb andb].
    destruct (str_in (lower k) (lower s)); cbn [orb]; [discriminate|].
    destruct (existsb _ excludes); [discriminate|].
    rewrite andb_false_r. reflexivity.
Qed.

Lemma text_ok_edges_witness :
  text_ok "Foil 110L" ["110l"; "foil"] [EmptyString; "90L"] = false /\
  text_ok "Foil 110L" ["110l"] [] = true /\
  text_ok "Foil 110L" [] ["90L"] = true.
Proof.
  destruct (text_ok_edges "Foil 110L" ["110l"; "foil"] [EmptyString; "90L"])
    as (_ & _ & Hex & _).
  destruct (text_ok_edges "Foil 110L" [] ["90L"]) as (_ & _ & _ & _ & _ & Hinc & _).
  destruct (text_ok_edges "Foil 110L" ["110l"] []) as (_ & _ & _ & _ & _ & _ & Hexc).
  split; [|split].
  - apply Hex. left. reflexivity.
  - apply (Hexc "90L"). reflexivity.
  - apply (Hinc "110l"). reflexivity.
Defined.

Section Scraping.

Context {World Node : Type} `{!Collaborators World Node}.
Implicit Types (s : @Sys World) (scfg : Search) (card doc : Node).

Lemma card_title_stripped scfg card :
  strip (card_title scfg card) = card_title scfg card /\
  (truthy_str (s_title_selector scfg) = None -> card_title scfg card = EmptyString).
Proof.
  unfold card_title. split.
  - repeat case_match; try reflexivity. apply strip_idem.
  - intros ->. reflexivity.
Qed.

Lemma card_price_nonneg scfg card :
  nonneg_opt (card_price scfg card) /\
  (truthy_str (s_price_selector scfg) = None -> card_price scfg card = None).
Proof.
  unfold card_price. split.
  - repeat case_match; try exact I.
    destruct (extract_price_number _) as [v|] eqn:E; [|exact I].
    cbn. eapply extract_price_number_nonneg; eauto.
  - intros ->. reflexivity.
Qed.

Lemma card_item_inv scfg card (it : Item) :
  card_item scfg card = Some it ->
  it = (card_title scfg card, card_url scfg card, card_price scfg card) /\
  (card_title scfg card <> EmptyString \/ card_url scfg card <> EmptyString).
Proof.
  unfold card_item.
  destruct (card_title scfg card) as [|c t]; destruct (card_url scfg card) as [|d u];
    cbn; intros [= <-]; split; auto; (left + right); discriminate.
Qed.

Lemma omap_length_le {A B : Type} (f : A -> option B) (l : list A) :
  (length (omap f l) <= length l)%nat.
Proof.
  induction l as [|x l IH]; [reflexivity|].
  cbn. destruct (f x); cbn; lia.
Qed.

(** X6.  [extract_items] raises only for a missing item selector or when
    the selection of the cards raises.  Otherwise it returns at most one
    item per card; in every item the title or the url is not empty, the
    title carries no surrounding whitespace, the price is not negative,
    and a field whose selector is not configured is empty. *)
Theorem extract_items_spec doc scfg :
  match extract_items doc scfg with
  | Ok items =>
      exists sel cards,
        s_item_selector scfg = Some sel /\ cssselect sel doc = Ok cards /\
        (length items <= length cards)%nat /\
        (forall title url price,
            In (title, url, price) items ->
            (title <> EmptyString \/ url <> EmptyString) /\
            strip title = title /\
            nonneg_opt price /\
            (truthy_str (s_title_selector scfg) = None -> title = EmptyString) /\
            (truthy_str (s_url_selector scfg) = None -> url = EmptyString) /\
            (truthy_str (s_price_selector scfg) = None -> price = None) /\
            exists card, In card cards /\ card_item scfg card = Some (title, url, price))
  | Raise e =>
      s_item_selector scfg = None \/
      exists sel, s_item_selector scfg = Some sel /\ cssselect sel doc = Raise e
  end.
Proof.
  unfold extract_items.
  destruct (s_item_selector scfg) as [sel|]; [|left; reflexivity].
  destruct (cssselect sel doc) as [cards|e] eqn:E; [|right; eauto].
  exists sel, cards. split; [reflexivity|]. split; [exact E|].
  split; [apply omap_length_le|].
  intros title url price Hin.
  apply list_elem_of_In, list_elem_of_omap in Hin as (card & Hcard & Hitem).
  pose proof Hitem as Hi. apply card_item_inv in Hi as [Heq Hne].
  injection Heq as -> -> ->.
  destruct (card_title_stripped scfg card) as [Hs Ht].
  destruct (card_price_nonneg scfg card) as [Hp Hpn].
  split; [exact Hne|]. split; [exact Hs|]. split; [exact Hp|].
  split; [exact Ht|]. split; [|split; [exact Hpn|]].
  - unfold card_url. intros ->. reflexivity.
  - exists card. split; [apply list_elem_of_In; exact Hcard | exact Hitem].
Qed.

(** X7.  [search_used_market] changes nothing but the world, by its one
    fetch.  Its result is exactly the candidates, in their order, that
    pass the keyword filter, have an empty url or one not seen, and on
    which a rule fires; and it raises exactly what the fetch or
    [extract_items] raised. *)
Theorem search_used_market_exact scfg (seen : gset string) (msrp : option Q) s :
  let fetched := fetch_doc (s_url scfg) (user_agent (s_user_agent scfg))
                           (timeout (s_timeout scfg)) (world s) in
  match search_used_market scfg seen msrp s with
  | (Ok ms, s') =>
      s' = with_world s (snd fetched) /\
      exists doc cands,
        fst fetched = Ok doc /\ extract_items doc scfg = Ok cands /\
        map match_item ms `sublist_of` cands /\
        forall m, In m ms <->
                  In (match_item m) cands /\
                  text_ok (m_title m) (s_include_keywords scfg)
                          (s_exclude_keywords scfg) = true /\
                  (m_url m = EmptyString \/ m_url m ∉ seen) /\
                  trigger scfg msrp (m_price m) = Some (m_reason m)
  | (Raise e, s') =>
      s' = with_world s (snd fetched) /\
      (fst fetched = Raise e \/
       exists doc, fst fetched = Ok doc /\ extract_items doc scfg = Raise e)
  end.
Proof.
  intros fetched. unfold search_used_market, bind, in_world, lift, ret.
  subst fetched.
  destruct (fetch_doc _ _ _ (world s)) as [[doc|e] w1]; cbn [fst snd];
    [|split; [reflexivity | left; reflexivity]].
  destruct (extract_items doc scfg) as [cands|e] eqn:E;
    [|split; [reflexivity | right; eauto]].
  split; [reflexivity|]. exists doc, cands.
  split; [reflexivity|]. split; [exact E|]. split; [apply matches_sublist|].
  intros m. rewrite <- list_elem_of_In, list_elem_of_omap. split.
  - intros (it & Hin & Hex). apply examine_iff in Hex as (-> & Hrest).
    split; [apply list_elem_of_In; exact Hin | exact Hrest].
  - intros (Hin & Hrest). exists (match_item m).
    split; [apply list_elem_of_In; exact Hin|].
    apply examine_iff. split; [reflexivity | exact Hrest].
Qed.

End Scraping.

Lemma last_n_sorted {A : Type} (R : relation A) (n : nat) (l : list A) :
  StronglySorted R l -> StronglySorted R (last_n n l).
Proof.
  unfold last_n. intros H. rewrite <- (take_drop (length l - n) l) in H.
  eapply StronglySorted_app_1_r. exact H.
Qed.

Lemma last_n_nodup {A : Type} (n : nat) (l : list A) :
  NoDup l -> NoDup (last_n n l).
Proof.
  unfold last_n. intros H. rewrite <- (take_drop (length l - n) l) in H.
  apply NoDup_app in H as (_ & _ & H). exact H.
Qed.

Lemma last_n_length {A : Type} (n : nat) (l : list A) :
  length (last_n n l) = Nat.min n (length l).
Proof. unfold last_n. rewrite length_drop. lia. Qed.

Lemma last_n_dropped {A : Type} (R : relation A) (n : nat) (l : list A) (x y : A) :
  StronglySorted R l -> NoDup l ->
  x ∈ l -> y ∈ last_n n l -> x ∈ last_n n l \/ (R x y /\ x <> y).
Proof.
  unfold last_n. intros Hs Hn Hx Hy.
  rewrite <- (take_drop (length l - n) l) in Hs, Hn, Hx.
  apply elem_of_app in Hx as [Hx | Hx]; [right | left; exact Hx].
  split.
  - eapply StronglySorted_app_1_elem_of; eauto.
  - intros ->. apply NoDup_app in Hn as (_ & Hn & _). exact (Hn _ Hx Hy).
Qed.

Lemma sorted_seen (seen : gset string) :
  StronglySorted String.le (merge_sort String.le (elements seen)) /\
  NoDup (merge_sort String.le (elements seen)) /\
  length (merge_sort String.le (elements seen)) = size seen.
Proof.
  split; [apply StronglySorted_merge_sort; apply _|].
  split; rewrite merge_sort_Permutation; [apply NoDup_elements | reflexivity].
Qed.

Lemma persist_seen_wf (seen : gset string) : seen_wf (persist_seen seen).
Proof.
  destruct (sorted_seen seen) as (Hs & Hn & Hl). unfold persist_seen.
  split; [apply last_n_sorted; exact Hs|].
  split; [apply last_n_nodup; exact Hn|].
  rewrite last_n_length. lia.
Qed.

Lemma persist_seen_fixed (l : list string) :
  seen_wf l -> persist_seen (list_to_set l) = l.
Proof.
  intros (Hs & Hn & Hl). unfold persist_seen.
  assert (merge_sort String.le (elements (list_to_set (C := gset string) l)) = l) as ->.
  { apply (StronglySorted_unique String.le).
    - apply StronglySorted_merge_sort; apply _.
    - exact Hs.
    - rewrite merge_sort_Permutation. apply elements_list_to_set. exact Hn. }
  apply last_n_all. exact Hl.
Qed.

Lemma add_seen_known (seen : gset string) (ms : list Match) :
  (forall m, In m ms -> m_url m = EmptyString \/ m_url m ∈ seen) ->
  add_seen seen ms = seen.
Proof.
  intros H. apply set_eq. intros x. rewrite add_seen_spec. split; [|auto].
  intros [Hx | (Hne & m & Hin & <-)]; [exact Hx|].
  destruct (H m Hin) as [He | Hs]; [contradiction | exact Hs].
Qed.

(** X8.  The seen list [main] persists is in ascending order, without
    duplicates, of min(2000, size) urls of the set, and a url of the set
    that is left out is smaller than every url kept. *)
Theorem persist_seen_spec (seen : gset string) :
  StronglySorted String.le (persist_seen seen) /\
  NoDup (persist_seen seen) /\
  length (persist_seen seen) = Nat.min 2000 (size seen) /\
  (forall x, In x (persist_seen seen) -> x ∈ seen) /\
  (forall x y, x ∈ seen -> In y (persist_seen seen) ->
               In x (persist_seen seen) \/ (String.le x y /\ x <> y)).
Proof.
  destruct (sorted_seen seen) as (Hs & Hn & Hl).
  destruct (persist_seen_wf seen) as (Hps & Hpn & _).
  split; [exact Hps|]. split; [exact Hpn|].
  split; [unfold persist_seen; rewrite last_n_length, Hl; reflexivity|].
  split; [apply persist_seen_sub|].
  intros x y Hx Hy. rewrite <- !list_elem_of_In in *. unfold persist_seen in *.
  apply (last_n_dropped String.le); auto.
  apply sorted_elements. exact Hx.
Qed.

Lemma persist_seen_spec_witness :
  In "b" (persist_seen (list_to_set ["b"; "a"]))
  \/ (String.le "b" "a" /\ "b" <> "a").
Proof.
  destruct (persist_seen_spec (list_to_set ["b"; "a"])) as (_ & _ & _ & _ & H).
  apply (H "b" "a").
  - apply elem_of_list_to_set. constructor.
  - vm_compute. auto.
Defined.

(** X9.  A pass whose matches carry no url other than seen ones persists
    the seen list it has read, provided that list is in ascending order,
    without duplicates and of at most 2000 urls. *)
Theorem seen_list_stable (l : list string) (ms : list Match) :
  seen_wf l ->
  (forall m, In m ms -> m_url m = EmptyString \/ In (m_url m) l) ->
  persist_seen (add_seen (list_to_set l) ms) = l.
Proof.
  intros Hwf Hms. rewrite add_seen_known; [apply persist_seen_fixed; exact Hwf|].
  intros m Hin. destruct (Hms m Hin) as [He | Hl]; [left; exact He|].
  right. apply elem_of_list_to_set, list_elem_of_In. exact Hl.
Qed.

Lemma seen_list_stable_witness :
  persist_seen (add_seen (list_to_set ["a"; "b"])
                  [{| m_title := "Board"; m_url := EmptyString;
                      m_price := None; m_reason := BelowCeiling 1 |};
                   {| m_title := "Foil"; m_url := "b";
                      m_price := None; m_reason := BelowCeiling 1 |}])
  = ["a"; "b"].
Proof.
  apply seen_list_stable.
  - split; [|split].
    + repeat constructor.
    + apply NoDup_ListNoDup. repeat constructor; simpl; intuition discriminate.
    + simpl. lia.
  - intros m [<- | [<- | []]]; [left; reflexivity | right; simpl; auto].
Defined.

Section Retail.

Context {World Node : Type} `{!Collaborators World Node}.
Implicit Types (s : @Sys World) (prod : Product) (cfg : Config).

Ltac run_m :=
  unfold bind, ret, lift, in_world, log, get_ledger, set_ledger, try_except,
    save_state, now in *.

Lemma fetch_page_world prod s :
  fetch_page prod s
  = (fst (fetch_text (p_url prod) (user_agent (p_user_agent prod))
                     (timeout (p_timeout prod)) (world s)),
     with_world s (snd (fetch_text (p_url prod) (user_agent (p_user_agent prod))
                                   (timeout (p_timeout prod)) (world s)))).
Proof.
  unfold fetch_page, in_world. destruct (fetch_text _ _ _ (world s)). reflexivity.
Qed.

Lemma structured_price_total prod text s :
  truthy_str (p_selector prod) = None ->
  exists v, structured_price prod text s = (Ok v, s).
Proof.
  intros Hsel. unfold structured_price, selector_price. rewrite Hsel.
  unfold ret. repeat case_match; eauto.
Qed.

(** X10.  [fetch_product_price] leaves the ledger, the log and the saved
    state alone and never returns a negative price.  Without a pattern
    the page is fetched exactly once; a first fetch that raises is what
    the function raises, after that one fetch; and without a pattern
    and a selector the function raises only what the fetch raised. *)
Theorem fetch_product_price_effects prod s :
  let fetched := fetch_text (p_url prod) (user_agent (p_user_agent prod))
                            (timeout (p_timeout prod)) (world s) in
  match fetch_product_price prod s with
  | (r, s') =>
      same_store s s' /\
      (forall v, r = Ok (Some v) -> (0 <= v)%Q) /\
      (truthy_str (p_price_regex prod) = None -> world s' = snd fetched) /\
      (forall e, fst fetched = Raise e -> r = Raise e /\ world s' = snd fetched) /\
      (truthy_str (p_price_regex prod) = None ->
       truthy_str (p_selector prod) = None ->
       forall e, r = Raise e -> fst fetched = Raise e)
  end.
Proof.
  intros fetched.
  destruct (fetch_product_price prod s) as [r s'] eqn:E.
  destruct (fetch_product_price_frame prod s r s' E) as [Hstore Hv].
  split; [exact Hstore|]. split; [exact Hv|].
  unfold fetch_product_price in E.
  split; [|split].
  - intros Hre. rewrite Hre in E. unfold bind in E.
    rewrite fetch_page_world in E. fold fetched in E.
    destruct (fst fetched) as [text|e].
    + destruct (structured_price_pure prod text (with_world s (snd fetched)))
        as (r' & Hr' & _).
      rewrite Hr' in E. injection E as <- <-. reflexivity.
    + injection E as <- <-. reflexivity.
  - intros e He.
    destruct (truthy_str (p_price_regex prod)) as [pat|];
      unfold bind at 1 in E; rewrite fetch_page_world in E; fold fetched in E;
      rewrite He in E; injection E as <- <-; auto.
  - intros Hre Hsel e ->. rewrite Hre in E. unfold bind in E.
    rewrite fetch_page_world in E. fold fetched in E.
    destruct (fst fetched) as [text|e'].
    + destruct (structured_price_total prod text (with_world s (snd fetched)) Hsel)
        as (v & Hv').
      rewrite Hv' in E. discriminate.
    + injection E as <- _. reflexivity.
Qed.

Lemma last_n_snoc {A : Type} (n : nat) (l : list A) (x : A) :
  (0 < n)%nat -> last_n n (l ++ [x]) = drop (S (length l) - n) l ++ [x].
Proof.
  intros Hn. unfold last_n. rewrite length_app. cbn [length].
  replace (length l + 1 - n)%nat with (S (length l) - n)%nat by lia.
  apply drop_app_le. lia.
Qed.

Lemma priced_history prod (st : ProductEntry) (t : Z) (price : Q) :
  history (priced_entry prod st t price)
  = drop (S (length (history st)) - 300) (history st) ++ [(t, price)].
Proof. unfold priced_entry. cbn [history]. apply last_n_snoc. lia. Qed.

Lemma priced_entry_wf prod (st : ProductEntry) (t : Z) (price : Q) :
  entry_wf (priced_entry prod st t price).
Proof.
  split; [|split].
  - rewrite priced_history, length_app, length_drop. cbn. lia.
  - rewrite priced_history, last_snoc. reflexivity.
  - intros _. cbn. eauto.
Qed.

(** The state a priced pass ends in. *)
Lemma process_product_priced_exact cfg prod s s1 (price : Q) (t : Z) (w2 : World) :
  let pid := pid_of prod in
  let st := entry_of (ledger s) pid in
  let payload := drop_alert cfg prod st price in
  fetch_product_price prod (with_ledger s (touched pid (ledger s)))
  = (Ok (Some price), s1) ->
  clock (world s1) = (t, w2) ->
  process_product cfg prod s
  = (Ok tt,
     {| world := if mails cfg prod st price then snd (send_email payload w2) else w2;
        ledger := put_product pid (priced_entry prod st t price)
                              (touched pid (ledger s));
        logs := logs s ++ priced_events cfg prod st price ++
                if mails cfg prod st price
                then match fst (send_email payload w2) with
                     | Ok _ => [LogEmailSent pid]
                     | Raise e => [LogEmailFailed e]
                     end
                else [];
        saved := saved s |}).
Proof.
  intros pid st payload H Hclock. unfold process_product. unfold bind at 1.
  rewrite setdefault_product_spec. unfold bind at 1, try_except, bind at 1.
  fold pid. rewrite H. cbn [ret].
  apply fetch_product_price_frame in H as [(Hl & Hlog & Hsaved) _].
  cbn in Hl, Hlog, Hsaved.
  unfold priced_entry, priced_events, mails, base_price. subst payload.
  unfold drop_alert, base_price. fold pid st.
  destruct (p_baseline prod) as [b|]; [|destruct (baseline st) as [b|]];
    cbn [default];
    run_m; unfold update_product; run_m; rewrite Hclock; cbn;
    match goal with |- context [Qle_bool ?a ?b] => destruct (Qle_bool a b) end;
    cbn [andb]; try destruct (c_smtp_ok cfg); cbn;
    try match goal with |- context [send_email ?p ?w] =>
          destruct (send_email p w) as [[[]|e] w3] end;
    cbn; rewrite ?Hl, ?Hlog, ?Hsaved, <- ?List.app_assoc, ?List.app_nil_r; reflexivity.
Qed.

(** X11.  After a pass that found a price the entry of the product holds
    the old history followed by the new sample, cut to its last 300
    samples; the price as last price, which is not negative; the url and
    the name of the configuration; and as baseline the configured one,
    else the stored one, else the price. *)
Theorem priced_pass_entry cfg prod s s1 (price : Q) (t : Z) (w2 : World) :
  let pid := pid_of prod in
  let old := entry_of (ledger s) pid in
  fetch_product_price prod (with_ledger s (touched pid (ledger s)))
  = (Ok (Some price), s1) ->
  clock (world s1) = (t, w2) ->
  exists s' e,
    process_product cfg prod s = (Ok tt, s') /\
    products (ledger s') !! pid = Some e /\
    history e = drop (S (length (history old)) - 300) (history old) ++ [(t, price)] /\
    (length (history e) <= 300)%nat /\
    ((length (history old) < 300)%nat -> history e = history old ++ [(t, price)]) /\
    last_price e = Some price /\ (0 <= price)%Q /\
    e_url e = Some (p_url prod) /\
    e_name e = Some (default pid (p_name prod)) /\
    baseline e = Some (match p_baseline prod, baseline old with
                       | Some b, _ => b
                       | None, Some b => b
                       | None, None => price
                       end).
Proof.
  intros pid old H Hclock.
  rewrite (process_product_priced_exact cfg prod s s1 price t w2 H Hclock).
  fold pid old. eexists. exists (priced_entry prod old t price).
  split; [reflexivity|]. cbn [ledger].
  split; [apply lookup_insert_eq|].
  split; [apply priced_history|].
  split; [apply priced_entry_wf|].
  split.
  { intros Hlt. rewrite priced_history.
    replace (S (length (history old)) - 300)%nat with 0%nat by lia. reflexivity. }
  split; [reflexivity|].
  split; [apply fetch_product_price_frame in H as [_ Hv]; apply Hv; reflexivity|].
  split; [reflexivity|]. split; [reflexivity|].
  cbn. unfold base_price. destruct (p_baseline prod), (baseline old); reflexivity.
Qed.

Lemma first_pass_silent cfg prod (st : ProductEntry) (price : Q) :
  p_baseline prod = None -> baseline st = None ->
  (0 < drop_needed cfg prod)%Q -> mails cfg prod st price = false.
Proof.
  intros Hb Hs Hneeded. unfold mails, base_price. rewrite Hb, Hs. cbn [default].
  assert (Qle_bool (drop_needed cfg prod) (pct_drop price price) = false) as ->;
    [|reflexivity].
  apply Qle_bool_false. rewrite pct_drop_same. exact Hneeded.
Qed.

Lemma unfallen_price_silent cfg prod (st : ProductEntry) (price : Q) :
  (0 < drop_needed cfg prod)%Q -> (base_price prod st price <= price)%Q ->
  mails cfg prod st price = false.
Proof.
  intros Hneeded Hprice. unfold mails.
  assert (Qle_bool (drop_needed cfg prod)
                   (pct_drop (base_price prod st price) price) = false) as ->;
    [|reflexivity].
  apply Qle_bool_false. eapply Qle_lt_trans; [|exact Hneeded].
  destruct (Qlt_le_dec 0 (base_price prod st price)) as [Hpos | Hnonpos].
  - apply Qnot_lt_le. intros Hdrop.
    apply (pct_drop_sign _ price Hpos) in Hdrop.
    apply (Qlt_not_le _ _ Hdrop Hprice).
  - rewrite pct_drop_nonpos by (apply Qle_not_lt; exact Hnonpos).
    apply Qle_refl.
Qed.

(** X12.  A priced pass writes the same entry whether or not a mail goes
    out.  The mail transport is used exactly when SMTP is configured and
    the drop of the price against the baseline reaches the threshold;
    otherwise the world is left as the clock left it.  A mail that was
    sent or that failed is the last event of the log.  Under a positive
    threshold nothing is mailed for a price that is not below the
    baseline, and so nothing on the first priced pass of a product
    without a configured baseline; for a baseline that is not positive
    a mail goes out only under a threshold of at most 0. *)
Theorem retail_alert cfg prod s s1 (price : Q) (t : Z) (w2 : World) :
  let pid := pid_of prod in
  let st := entry_of (ledger s) pid in
  let base := base_price prod st price in
  let payload := drop_alert cfg prod st price in
  fetch_product_price prod (with_ledger s (touched pid (ledger s)))
  = (Ok (Some price), s1) ->
  clock (world s1) = (t, w2) ->
  exists s',
    process_product cfg prod s = (Ok tt, s') /\
    ledger s' = put_product pid (priced_entry prod st t price) (touched pid (ledger s)) /\
    (mails cfg prod st price = false ->
     world s' = w2 /\ logs s' = logs s ++ priced_events cfg prod st price) /\
    (mails cfg prod st price = true ->
     world s' = snd (send_email payload w2) /\
     logs s' = logs s ++ priced_events cfg prod st price ++
               [match fst (send_email payload w2) with
                | Ok _ => LogEmailSent pid
                | Raise e => LogEmailFailed e
                end]) /\
    (mails cfg prod st price = true <->
     c_smtp_ok cfg = true /\ (drop_needed cfg prod <= pct_drop base price)%Q) /\
    ((0 < drop_needed cfg prod)%Q -> (base <= price)%Q ->
     mails cfg prod st price = false) /\
    (~ (0 < base)%Q ->
     mails cfg prod st price = true <->
     c_smtp_ok cfg = true /\ (drop_needed cfg prod <= 0)%Q) /\
    (p_baseline prod = None -> baseline st = None ->
     (0 < drop_needed cfg prod)%Q -> mails cfg prod st price = false).
Proof.
  intros pid st base payload H Hclock.
  rewrite (process_product_priced_exact cfg prod s s1 price t w2 H Hclock).
  fold pid st payload. eexists. split; [reflexivity|]. cbn [ledger world logs].
  split; [reflexivity|].
  split; [intros ->; rewrite List.app_nil_r; auto|].
  split.
  { intros ->. split; [reflexivity|].
    destruct (fst (send_email payload w2)); reflexivity. }
  split; [|split; [|split]].
  - unfold mails. fold base. rewrite andb_true_iff, Qle_bool_iff. tauto.
  - apply unfallen_price_silent.
  - intros Hbase. unfold mails. fold base.
    rewrite andb_true_iff, Qle_bool_iff, pct_drop_nonpos by exact Hbase. tauto.
  - apply first_pass_silent.
Qed.

End Retail.

Lemma fetch_product_price_effects_witness :
  fst (fetch_product_price plain_product (start (toy_world [] [] true) empty_state))
  = Raise "timeout" /\
  world (snd (fetch_product_price plain_product
                (start (toy_world [] [] true) empty_state)))
  = toy_world [] [] true.
Proof.
  pose proof (fetch_product_price_effects plain_product
                (start (toy_world [] [] true) empty_state)) as H.
  cbv zeta in H.
  destruct (fetch_product_price plain_product
              (start (toy_world [] [] true) empty_state)) as [r s'].
  destruct H as (_ & _ & _ & H & _).
  exact (H "timeout" eq_refl).
Defined.


Lemma priced_pass_entry_witness :
  exists s' e,
    process_product (shop [plain_product] []) plain_product
                    (start two_price_world empty_state) = (Ok tt, s') /\
    products (ledger s') !! "foil" = Some e /\
    history e = [(1000, 500%Q)] /\
    last_price e = Some 500%Q /\
    baseline e = Some 500%Q.
Proof.
  destruct (priced_pass_entry (shop [plain_product] []) plain_product
              (start two_price_world empty_state)
              (with_ledger (start (toy_world [Ok (priced_page "440")] [] true)
                                  empty_state)
                           (touched "foil" empty_state))
              500 1000
              {| text_feed := [Ok (priced_page "440")]; doc_feed := [];
                 mail_up := true; outbox := []; time := 1001 |})
    as (s' & e & Hrun & Hlook & _ & _ & Hshort & Hlast & _ & _ & _ & Hbase).
  - vm_compute. reflexivity.
  - reflexivity.
  - exists s', e. split; [exact Hrun|]. split; [exact Hlook|].
    split; [apply Hshort; vm_compute; lia|]. split; [exact Hlast | exact Hbase].
Defined.

Lemma retail_alert_witness :
  (exists s',
      process_product (shop [plain_product] []) plain_product
                      (start (toy_world [Ok (priced_page "440")] [] true) first_ledger)
      = (Ok tt, s') /\
      outbox (world s')
      = [RetailDrop "foil" "https://shop.example/foil" 440 500 (pct_drop 500 440) 10]) /\
  mails (shop [plain_product] []) plain_product (entry_of empty_state "foil") 500
  = false.
Proof.
  split.
  - destruct (retail_alert (shop [plain_product] []) plain_product
                (start (toy_world [Ok (priced_page "440")] [] true) first_ledger)
                (start (toy_world [] [] true) first_ledger)
                440 1000
                {| text_feed := []; doc_feed := []; mail_up := true; outbox := [];
                   time := 1001 |})
      as (s' & Hrun & _ & _ & Hmail & _).
    + vm_compute. reflexivity.
    + reflexivity.
    + exists s'. split; [exact Hrun|].
      destruct Hmail as [Hw _]; [vm_compute; reflexivity|].
      rewrite Hw. vm_compute. reflexivity.
  - destruct (retail_alert (shop [plain_product] []) plain_product
                (start two_price_world empty_state)
                (with_ledger (start (toy_world [Ok (priced_page "440")] [] true)
                                    empty_state)
                             (touched "foil" empty_state))
                500 1000
                {| text_feed := [Ok (priced_page "440")]; doc_feed := [];
                   mail_up := true; outbox := []; time := 1001 |})
      as (s' & _ & _ & _ & _ & _ & _ & _ & Hfirst).
    + vm_compute. reflexivity.
    + reflexivity.
    + apply Hfirst; reflexivity.
Defined.

Lemma entry_wf_empty : entry_wf empty_entry.
Proof. split; [cbn; lia|]. split; [reflexivity|]. cbn. intros []. discriminate. Qed.

Lemma seen_wf_nil : seen_wf [].
Proof. split; [constructor|]. split; [constructor | cbn; lia]. Qed.

Lemma lookup_touched_eq (pid : string) (st : State) :
  products (touched pid st) !! pid = Some (entry_of st pid).
Proof.
  unfold touched, entry_of. destruct (products st !! pid) eqn:E.
  - rewrite E. reflexivity.
  - cbn. apply lookup_insert_eq.
Qed.

Lemma lookup_touched_search_eq (sid : string) (st : State) :
  searches (touched_search sid st) !! sid = Some (search_entry_of st sid).
Proof.
  unfold touched_search, search_entry_of. destruct (searches st !! sid) eqn:E.
  - rewrite E. reflexivity.
  - cbn. apply lookup_insert_eq.
Qed.

Lemma touched_wf (pid : string) (st : State) :
  ledger_wf st -> ledger_wf (touched pid st).
Proof.
  intros [Hp Hs]. split.
  - intros pid' e. destruct (decide (pid' = pid)) as [->|Hne].
    + rewrite lookup_touched_eq. intros [= <-]. unfold entry_of.
      destruct (products st !! pid) eqn:E; cbn; [eauto | apply entry_wf_empty].
    + rewrite lookup_touched by exact Hne. apply Hp.
  - rewrite searches_touched. exact Hs.
Qed.

Lemma touched_search_wf (sid : string) (st : State) :
  ledger_wf st -> ledger_wf (touched_search sid st).
Proof.
  intros [Hp Hs]. split.
  - rewrite products_touched_search. exact Hp.
  - intros sid' e. destruct (decide (sid' = sid)) as [->|Hne].
    + rewrite lookup_touched_search_eq. intros [= <-]. unfold search_entry_of.
      destruct (searches st !! sid) eqn:E; cbn; [eauto | apply seen_wf_nil].
    + rewrite lookup_touched_search by exact Hne. apply Hs.
Qed.

Lemma ledger_step_wf (cfg : Config) (st st' : State) :
  ledger_step cfg st st' -> ledger_wf st -> ledger_wf st'.
Proof.
  intros Hstep Hwf. destruct Hstep as [prod st _|prod st t price _ _|scfg st _|scfg st ms _].
  - apply touched_wf. exact Hwf.
  - apply (touched_wf (pid_of prod)) in Hwf as [Hp Hs]. split; [|exact Hs].
    intros pid e. cbn. rewrite lookup_insert.
    destruct (decide (pid_of prod = pid)); [|apply Hp].
    intros [= <-]. apply priced_entry_wf.
  - apply touched_search_wf. exact Hwf.
  - apply (touched_search_wf (sid_of scfg)) in Hwf as [Hp Hs]. split; [exact Hp|].
    intros sid e. cbn. rewrite lookup_insert.
    destruct (decide (sid_of scfg = sid)); [|apply Hs].
    intros [= <-]. apply persist_seen_wf.
Qed.

Lemma ledger_step_other_product (cfg : Config) (st st' : State) (pid : string) :
  ledger_step cfg st st' ->
  (forall prod, In prod (c_products cfg) -> pid_of prod <> pid) ->
  products st' !! pid = products st !! pid.
Proof.
  intros Hstep Hpid. destruct Hstep as [prod st Hin|prod st t price Hin _|scfg st _|scfg st ms _].
  - apply lookup_touched. intros ->. exact (Hpid prod Hin eq_refl).
  - cbn. rewrite lookup_insert_ne by (exact (Hpid prod Hin)).
    apply lookup_touched. intros ->. exact (Hpid prod Hin eq_refl).
  - rewrite products_touched_search. reflexivity.
  - cbn. rewrite products_touched_search. reflexivity.
Qed.

Lemma ledger_step_other_search (cfg : Config) (st st' : State) (sid : string) :
  ledger_step cfg st st' ->
  (forall scfg, In scfg (c_searches cfg) -> sid_of scfg <> sid) ->
  searches st' !! sid = searches st !! sid.
Proof.
  intros Hstep Hsid. destruct Hstep as [prod st _|prod st t price _ _|scfg st Hin|scfg st ms Hin].
  - rewrite searches_touched. reflexivity.
  - cbn. rewrite searches_touched. reflexivity.
  - apply lookup_touched_search. intros ->. exact (Hsid scfg Hin eq_refl).
  - cbn. rewrite lookup_insert_ne by (exact (Hsid scfg Hin)).
    apply lookup_touched_search. intros ->. exact (Hsid scfg Hin eq_refl).
Qed.

Lemma touched_keeps (pid pid' : string) (st : State) :
  is_Some (products st !! pid') -> is_Some (products (touched pid st) !! pid').
Proof.
  intros H. destruct (decide (pid' = pid)) as [->|Hne].
  - rewrite lookup_touched_eq. eauto.
  - rewrite lookup_touched by exact Hne. exact H.
Qed.

Lemma touched_search_keeps (sid sid' : string) (st : State) :
  is_Some (searches st !! sid') -> is_Some (searches (touched_search sid st) !! sid').
Proof.
  intros H. destruct (decide (sid' = sid)) as [->|Hne].
  - rewrite lookup_touched_search_eq. eauto.
  - rewrite lookup_touched_search by exact Hne. exact H.
Qed.

Lemma ledger_step_keeps (cfg : Config) (st st' : State) :
  ledger_step cfg st st' ->
  (forall pid, is_Some (products st !! pid) -> is_Some (products st' !! pid)) /\
  (forall sid, is_Some (searches st !! sid) -> is_Some (searches st' !! sid)).
Proof.
  intros Hstep. destruct Hstep as [prod st _|prod st t price _ _|scfg st _|scfg st ms _];
    split; intros k Hk; cbn;
    rewrite ?searches_touched, ?products_touched_search, ?lookup_insert_is_Some;
    auto using touched_keeps, touched_search_keeps.
  - destruct (decide (pid_of prod = k)); [left; auto | right].
    split; [assumption | apply touched_keeps; exact Hk].
  - destruct (decide (sid_of scfg = k)); [left; auto | right].
    split; [assumption | apply touched_search_keeps; exact Hk].
Qed.

Lemma run_step_mono (cfgs cfgs' : list Config) (st st' : State) :
  (forall cfg, In cfg cfgs -> In cfg cfgs') ->
  rtc (run_step cfgs) st st' -> rtc (run_step cfgs') st st'.
Proof.
  intros Hsub. apply rtc_subrel. intros x y (cfg & Hin & Hstep).
  exists cfg. auto.
Qed.

Lemma run_steps_inv (cfgs : list Config) (P : State -> Prop) (st st' : State) :
  (forall cfg x y, In cfg cfgs -> ledger_step cfg x y -> P x -> P y) ->
  rtc (run_step cfgs) st st' -> P st -> P st'.
Proof.
  intros Hstep Hrtc. induction Hrtc as [|x y z (cfg & Hin & Hxy) _ IH]; [auto|].
  intros HP. apply IH. eapply Hstep; eauto.
Qed.

Section Runs.

Context {World Node : Type} `{!Collaborators World Node}.
Implicit Types (s : @Sys World) (prod : Product) (cfg : Config).

Lemma process_product_steps cfg prod s :
  In prod (c_products cfg) ->
  exists s', process_product cfg prod s = (Ok tt, s') /\
             saved s' = saved s /\
             ledger_step cfg (ledger s) (ledger s') /\
             is_Some (products (ledger s') !! pid_of prod).
Proof.
  intros Hin.
  destruct (process_product_step cfg prod s) as (s' & Hrun & Hsaved & Hl).
  exists s'. split; [exact Hrun|]. split; [exact Hsaved|].
  destruct Hl as [-> | (t & price & Hpos & ->)].
  - split; [constructor; exact Hin|]. rewrite lookup_touched_eq. eauto.
  - split; [constructor; assumption|]. cbn. rewrite lookup_insert_eq. eauto.
Qed.

Lemma process_search_steps cfg (msrp : Q) (scfg : Search) s :
  In scfg (c_searches cfg) ->
  exists s', process_search cfg msrp scfg s = (Ok tt, s') /\
             saved s' = saved s /\
             ledger_step cfg (ledger s) (ledger s') /\
             is_Some (searches (ledger s') !! sid_of scfg).
Proof.
  intros Hin.
  destruct (search_used_market scfg
              (list_to_set (seen (search_entry_of (ledger s) (sid_of scfg))))
              (reference msrp)
              (with_ledger s (touched_search (sid_of scfg) (ledger s))))
    as [[ms|e] s1] eqn:E.
  - destruct (process_search_matched cfg msrp scfg s ms s1 E)
      as (s' & Hrun & Hsaved & Hledger).
    exists s'. split; [exact Hrun|]. split; [exact Hsaved|]. rewrite Hledger.
    split; [constructor; exact Hin|]. cbn. rewrite lookup_insert_eq. eauto.
  - rewrite (process_search_failed cfg msrp scfg s e s1 E).
    apply search_used_market_frame in E as (Hl & _ & Hs).
    eexists. split; [reflexivity|]. cbn. split; [exact Hs|]. rewrite Hl. cbn.
    split; [constructor; exact Hin|]. rewrite lookup_touched_search_eq. eauto.
Qed.

(** A loop whose turns all complete: what each turn establishes for its
    element holds at the end when the later turns keep it. *)
Lemma for_each_all {A : Type} (body : A -> M unit) (R : relation (@Sys World))
      (Q : A -> @Sys World -> Prop) (l : list A) :
  Reflexive R -> Transitive R ->
  (forall x s s', Q x s -> R s s' -> Q x s') ->
  (forall x s, In x l -> exists s', body x s = (Ok tt, s') /\ R s s' /\ Q x s') ->
  forall s, exists s', for_each body l s = (Ok tt, s') /\ R s s' /\
                       forall x, In x l -> Q x s'.
Proof.
  intros Hrefl Htrans Hkeep. induction l as [|x l IH]; intros Hbody s.
  - exists s. split; [reflexivity|]. split; [reflexivity|]. intros x [].
  - destruct (Hbody x s (or_introl eq_refl)) as (s1 & Hx & HR1 & HQ1).
    destruct (IH (fun y u Hy => Hbody y u (or_intror Hy)) s1)
      as (s2 & Hl & HR2 & HQ2).
    exists s2. split; [cbn [for_each]; unfold bind; rewrite Hx; exact Hl|].
    split; [etransitivity; eauto|].
    intros y [<- | Hy]; [eapply Hkeep; eauto | auto].
Qed.

Lemma advances_refl cfg : Reflexive (advances (World := World) cfg).
Proof. intros s. split; reflexivity. Qed.

Lemma advances_trans cfg : Transitive (advances (World := World) cfg).
Proof.
  intros s1 s2 s3 [Hs1 Hl1] [Hs2 Hl2]. split; [congruence|].
  etransitivity; eauto.
Qed.

Lemma steps_keep cfg (st st' : State) :
  rtc (ledger_step cfg) st st' ->
  (forall pid, is_Some (products st !! pid) -> is_Some (products st' !! pid)) /\
  (forall sid, is_Some (searches st !! sid) -> is_Some (searches st' !! sid)).
Proof.
  induction 1 as [|x y z Hxy _ [IHp IHs]]; [auto|].
  destruct (ledger_step_keeps cfg x y Hxy) as [Hp Hs]. split; auto.
Qed.

Lemma main_steps cfg s :
  exists s', main cfg s = (Ok tt, s') /\ saved s' = Some (ledger s') /\
             rtc (ledger_step cfg) (ledger s) (ledger s') /\
             (forall prod, In prod (c_products cfg) ->
                           is_Some (products (ledger s') !! pid_of prod)) /\
             (forall scfg, In scfg (c_searches cfg) ->
                           is_Some (searches (ledger s') !! sid_of scfg)).
Proof.
  destruct (for_each_all (process_product cfg) (advances cfg)
              (fun prod s => is_Some (products (ledger s) !! pid_of prod))
              (c_products cfg) (advances_refl cfg) (advances_trans cfg)) with (s := s) as (s1 & H1 & [_ Hl1] & HQ1).
  { intros prod u v HQ [_ Hl]. apply (steps_keep cfg _ _ Hl). exact HQ. }
  { intros prod u Hin.
    destruct (process_product_steps cfg prod u Hin) as (u' & Hrun & Hs & Hstep & HQ).
    exists u'. split; [exact Hrun|]. split; [|exact HQ].
    split; [exact Hs | apply rtc_once; exact Hstep]. }
  destruct (for_each_all (process_search cfg (default 0%Q (c_msrp cfg))) (advances cfg)
              (fun scfg s => is_Some (searches (ledger s) !! sid_of scfg))
              (c_searches cfg) (advances_refl cfg) (advances_trans cfg)) with (s := s1) as (s2 & H2 & [_ Hl2] & HQ2).
  { intros scfg u v HQ [_ Hl]. apply (steps_keep cfg _ _ Hl). exact HQ. }
  { intros scfg u Hin.
    destruct (process_search_steps cfg (default 0%Q (c_msrp cfg)) scfg u Hin)
      as (u' & Hrun & Hs & Hstep & HQ).
    exists u'. split; [exact Hrun|]. split; [|exact HQ].
    split; [exact Hs | apply rtc_once; exact Hstep]. }
  unfold main. unfold bind at 1. rewrite H1. unfold bind at 1. rewrite H2.
  eexists. split; [reflexivity|]. cbn. split; [reflexivity|].
  split; [etransitivity; eauto|]. split; [|exact HQ2].
  intros prod Hin. apply (steps_keep cfg _ _ Hl2). apply HQ1. exact Hin.
Qed.

Lemma run_once_steps cfg (st : State) (w : World) :
  rtc (ledger_step cfg) st (fst (run_once cfg st w)) /\
  (forall prod, In prod (c_products cfg) ->
                is_Some (products (fst (run_once cfg st w)) !! pid_of prod)) /\
  (forall scfg, In scfg (c_searches cfg) ->
                is_Some (searches (fst (run_once cfg st w)) !! sid_of scfg)).
Proof.
  unfold run_once.
  destruct (main_steps cfg {| world := w; ledger := st; logs := []; saved := None |})
    as (s' & -> & Hsaved & Hsteps & Hp & Hs).
  rewrite Hsaved. cbn in *. auto.
Qed.

Lemma steps_of_run (cfgs : list Config) cfg (st st' : State) :
  In cfg cfgs -> rtc (ledger_step cfg) st st' -> rtc (run_step cfgs) st st'.
Proof.
  intros Hin. apply rtc_subrel. intros x y Hxy. exists cfg. auto.
Qed.

Lemma run_steps_keep (cfgs : list Config) (st st' : State) :
  rtc (run_step cfgs) st st' ->
  (forall pid, is_Some (products st !! pid) -> is_Some (products st' !! pid)) /\
  (forall sid, is_Some (searches st !! sid) -> is_Some (searches st' !! sid)).
Proof.
  induction 1 as [|x y z (cfg & _ & Hxy) _ [IHp IHs]]; [auto|].
  destruct (ledger_step_keeps cfg x y Hxy) as [Hp Hs]. split; auto.
Qed.

Lemma run_seq_steps (cfgs : list Config) (st : State) (w : World) :
  rtc (run_step cfgs) st (fst (run_seq cfgs st w)) /\
  (forall cfg prod, In cfg cfgs -> In prod (c_products cfg) ->
                    is_Some (products (fst (run_seq cfgs st w)) !! pid_of prod)) /\
  (forall cfg scfg, In cfg cfgs -> In scfg (c_searches cfg) ->
                    is_Some (searches (fst (run_seq cfgs st w)) !! sid_of scfg)).
Proof.
  revert st w. induction cfgs as [|cfg cfgs IH]; intros st w.
  - split; [reflexivity|]. split; intros cfg x [].
  - cbn [run_seq].
    destruct (run_once_steps cfg st w) as (H1 & Hp1 & Hs1).
    destruct (run_once cfg st w) as [st1 w1]. cbn [fst] in *.
    destruct (IH st1 w1) as (H2 & Hp2 & Hs2).
    destruct (run_steps_keep cfgs _ _ H2) as [Kp Ks].
    split; [|split].
    + etransitivity.
      * eapply steps_of_run; [left; reflexivity | exact H1].
      * eapply run_step_mono; [|exact H2]. intros c Hc. right. exact Hc.
    + intros c prod [<- | Hc] Hin; [apply Kp, Hp1; exact Hin | eauto].
    + intros c scfg [<- | Hc] Hin; [apply Ks, Hs1; exact Hin | eauto].
Qed.

(** X13.  Over any sequence of runs the ledger stays well formed: every
    history has at most 300 samples, the last price is the price of the
    last sample, an entry with a price has a baseline, and every seen
    list is in ascending order, without duplicates and of at most 2000
    urls. *)
Theorem ledger_wf_kept (cfgs : list Config) (st : State) (w : World) :
  ledger_wf st -> ledger_wf (fst (run_seq cfgs st w)).
Proof.
  destruct (run_seq_steps cfgs st w) as [Hsteps _].
  refine (run_steps_inv cfgs ledger_wf st _ _ Hsteps).
  intros cfg x y _. apply ledger_step_wf.
Qed.

(** X14.  Over any sequence of runs the entries of the products and of the
    searches that no configuration names are left as they were, no
    entry is ever removed, and every configured product and search has
    an entry afterwards, whether or not its page could be fetched. *)
Theorem entries_kept (cfgs : list Config) (st : State) (w : World) :
  let st' := fst (run_seq cfgs st w) in
  (forall pid,
      (forall cfg prod, In cfg cfgs -> In prod (c_products cfg) -> pid_of prod <> pid) ->
      products st' !! pid = products st !! pid) /\
  (forall sid,
      (forall cfg scfg, In cfg cfgs -> In scfg (c_searches cfg) -> sid_of scfg <> sid) ->
      searches st' !! sid = searches st !! sid) /\
  (forall pid, is_Some (products st !! pid) -> is_Some (products st' !! pid)) /\
  (forall sid, is_Some (searches st !! sid) -> is_Some (searches st' !! sid)) /\
  (forall cfg prod, In cfg cfgs -> In prod (c_products cfg) ->
                    is_Some (products st' !! pid_of prod)) /\
  (forall cfg scfg, In cfg cfgs -> In scfg (c_searches cfg) ->
                    is_Some (searches st' !! sid_of scfg)).
Proof.
  intros st'. subst st'.
  destruct (run_seq_steps cfgs st w) as (Hsteps & Hp & Hs).
  destruct (run_steps_keep cfgs _ _ Hsteps) as [Kp Ks].
  split; [|split; [|split; [exact Kp|split; [exact Ks|split; [exact Hp | exact Hs]]]]].
  - intros pid Hpid.
    refine (run_steps_inv cfgs (fun x => products x !! pid = products st !! pid)
                          st _ _ Hsteps eq_refl).
    intros cfg x y Hin Hxy <-. eapply ledger_step_other_product; eauto.
  - intros sid Hsid.
    refine (run_steps_inv cfgs (fun x => searches x !! sid = searches st !! sid)
                          st _ _ Hsteps eq_refl).
    intros cfg x y Hin Hxy <-. eapply ledger_step_other_search; eauto.
Qed.

End Runs.

Lemma ledger_wf_kept_witness :
  ledger_wf (fst (run_seq [shop [plain_product] [board_search];
                           shop [plain_product] [board_search]]
                          empty_state
                          (toy_world [Ok (priced_page "500")] [Ok two_cards] true))).
Proof.
  apply ledger_wf_kept. split.
  - intros pid e H. cbn in H. rewrite lookup_empty in H. discriminate.
  - intros sid e H. cbn in H. rewrite lookup_empty in H. discriminate.
Defined.

Lemma entries_kept_witness :
  searches (fst (run_seq [shop [plain_product] []] seen_ledger two_price_world))
    !! "boards" = Some {| seen := [old_url] |} /\
  is_Some (products (fst (run_seq [shop [plain_product] []] seen_ledger
                                  two_price_world)) !! "foil").
Proof.
  destruct (entries_kept [shop [plain_product] []] seen_ledger two_price_world)
    as (_ & Hs & _ & _ & Hp & _).
  split.
  - rewrite Hs; [vm_compute; reflexivity|].
    intros cfg scfg [<- | []] [].
  - apply (Hp (shop [plain_product] []) plain_product); left; reflexivity.
Defined.

Section UsedAlerts.

Context {World Node : Type} `{!Collaborators World Node}.
Implicit Types (s : @Sys World) (scfg : Search) (cfg : Config).

Ltac run_m :=
  unfold bind, ret, lift, in_world, log, get_ledger, set_ledger, try_except,
    save_state, now in *.

(** X15.  A pass over a fetched listing uses the mail transport exactly
    when there is a match and SMTP is configured.  A mail that fails is
    logged, and the urls of the matches are marked seen all the same, as
    long as the seen urls and those of the page are at most 2000
    together.  The seen list written is in ascending order, without
    duplicates and of at most 2000 urls. *)
Theorem used_finds_alert cfg (msrp : Q) scfg s (doc : Node) (w1 : World)
        (cands : list Item) :
  let sid := sid_of scfg in
  let old := seen (search_entry_of (ledger s) sid) in
  let ms := matches_of scfg (reference msrp) cands old in
  fetch_doc (s_url scfg) (user_agent (s_user_agent scfg)) (timeout (s_timeout scfg))
            (world s) = (Ok doc, w1) ->
  extract_items doc scfg = Ok cands ->
  exists s',
    process_search cfg msrp scfg s = (Ok tt, s') /\
    (ms = [] \/ c_smtp_ok cfg = false -> world s' = w1 /\ logs s' = logs s) /\
    (ms <> [] -> c_smtp_ok cfg = true ->
     world s' = snd (send_email (used_alert scfg ms) w1) /\
     logs s' = logs s ++ match fst (send_email (used_alert scfg ms) w1) with
                         | Ok _ => []
                         | Raise e => [LogUsedEmailFailed e]
                         end) /\
    (forall m, In m ms -> m_url m <> EmptyString ->
               (size (known_urls old cands) <= 2000)%nat ->
               exists e, searches (ledger s') !! sid = Some e /\ In (m_url m) (seen e)) /\
    (forall e, searches (ledger s') !! sid = Some e -> seen_wf (seen e)).
Proof.
  intros sid old ms Hdoc Hitems.
  rewrite (process_search_exact cfg msrp scfg s doc w1 cands Hdoc Hitems).
  fold sid old ms. eexists. split; [reflexivity|]. cbn [world logs ledger].
  split; [|split; [|split]].
  - intros [-> | ->]; rewrite ?andb_false_r; cbn; rewrite List.app_nil_r; auto.
  - intros Hne ->. destruct ms as [|m ms']; [contradiction|]. cbn. auto.
  - intros m Hin Hurl Hcap. eexists. split; [apply lookup_insert_eq|]. cbn [seen].
    apply (seen_after_all scfg (reference msrp) cands old 0 (m_url m) Hcap).
    right. split; [exact Hurl|]. exists m. auto.
  - intros e. cbn. rewrite lookup_insert_eq. intros [= <-]. apply persist_seen_wf.
Qed.

(** X16.  A search whose fetch or whose extraction raises is logged and
    skipped: the world is what the fetch left, nothing is mailed, and
    the entry of the search is what it was, or the empty one. *)
Theorem failed_search_keeps_seen cfg (msrp : Q) scfg s :
  let sid := sid_of scfg in
  let fetched := fetch_doc (s_url scfg) (user_agent (s_user_agent scfg))
                           (timeout (s_timeout scfg)) (world s) in
  forall e,
    fst fetched = Raise e \/
    (exists doc, fst fetched = Ok doc /\ extract_items doc scfg = Raise e) ->
    process_search cfg msrp scfg s
    = (Ok tt,
       {| world := snd fetched;
          ledger := touched_search sid (ledger s);
          logs := logs s ++ [LogUsedFailed sid e];
          saved := saved s |}) /\
    searches (touched_search sid (ledger s)) !! sid
    = Some (search_entry_of (ledger s) sid).
Proof.
  intros sid fetched e He. subst fetched.
  destruct (fetch_doc (s_url scfg) (user_agent (s_user_agent scfg))
                      (timeout (s_timeout scfg)) (world s)) as [r w1] eqn:Ef.
  cbn [fst snd] in *. split.
  - assert (search_used_market scfg
              (list_to_set (seen (search_entry_of (ledger s) sid))) (reference msrp)
              (with_ledger s (touched_search sid (ledger s)))
            = (Raise e, with_world (with_ledger s (touched_search sid (ledger s))) w1))
      as Hfail.
    { unfold search_used_market. run_m. unfold with_ledger at 1. cbn [world].
      rewrite Ef.
      destruct He as [-> | (doc & -> & Hitems)]; [reflexivity|].
      rewrite Hitems. reflexivity. }
    rewrite (process_search_failed cfg msrp scfg s e _ Hfail). reflexivity.
  - apply lookup_touched_search_eq.
Qed.

End UsedAlerts.

Lemma used_finds_alert_witness :
  exists s',
    process_search (shop [] [capped_search]) 0 capped_search
                   (start (toy_world [] [Ok two_cards] false) seen_ledger)
    = (Ok tt, s') /\
    logs s' = [LogUsedEmailFailed "smtp"] /\
    exists e, searches (ledger s') !! "boards" = Some e /\ In new_url (seen e).
Proof.
  destruct (used_finds_alert (shop [] [capped_search]) 0 capped_search
              (start (toy_world [] [Ok two_cards] false) seen_ledger)
              two_cards (toy_world [] [] false) two_items)
    as (s' & Hrun & _ & Hmail & Hseen & _);
    [reflexivity | exact two_cards_items |].
  exists s'. split; [exact Hrun|]. split.
  - destruct Hmail as [_ Hlog]; [vm_compute; discriminate | reflexivity|].
    rewrite Hlog. vm_compute. reflexivity.
  - apply (Hseen new_match); [vm_compute; left; reflexivity | discriminate|].
    vm_compute. lia.
Defined.

Lemma failed_search_keeps_seen_witness :
  process_search (shop [] [capped_search]) 0 capped_search
                 (start (toy_world [] [] true) seen_ledger)
  = (Ok tt, {| world := toy_world [] [] true; ledger := seen_ledger;
               logs := [LogUsedFailed "boards" "timeout"]; saved := None |}) /\
  searches seen_ledger !! "boards" = Some {| seen := [old_url] |}.
Proof.
  destruct (failed_search_keeps_seen (shop [] [capped_search]) 0 capped_search
              (start (toy_world [] [] true) seen_ledger) "timeout")
    as [Hrun Hseen]; [left; reflexivity|].
  split; [rewrite Hrun; vm_compute; reflexivity|].
  vm_compute in Hseen. vm_compute. exact Hseen.
Defined.

Lemma tmp_path_differs (path : string) : path +:+ ".tmp" <> path.
Proof.
  intros H. apply (f_equal String.length) in H.
  rewrite app_length in H. cbn in H. lia.
Qed.

Section DiskProperties.

Context {Content : Type} `{!Json Content}.
Context {World Node : Type} `{!Collaborators World Node}.
Implicit Types (fs : gmap string Content) (path : string).

Lemma save_state_written path (data : State) fs :
  Disk.save_state path data fs
  = Ok (<[path := json_dump data]>
          (delete (path +:+ ".tmp") (<[path +:+ ".tmp" := json_dump data]> fs))).
Proof.
  unfold Disk.save_state, Disk.os_replace. rewrite lookup_insert_eq. reflexivity.
Qed.

Lemma save_state_files path (data : State) fs :
  exists fs', Disk.save_state path data fs = Ok fs' /\
              fs' !! path = Some (json_dump data) /\
              fs' !! (path +:+ ".tmp") = None /\
              forall p, p <> path -> p <> path +:+ ".tmp" -> fs' !! p = fs !! p.
Proof.
  rewrite save_state_written. eexists. split; [reflexivity|].
  split; [apply lookup_insert_eq|]. split.
  - rewrite lookup_insert_ne by (intros E; symmetry in E; exact (tmp_path_differs _ E)).
    apply lookup_delete_eq.
  - intros p Hp Htmp.
    rewrite lookup_insert_ne by congruence.
    rewrite lookup_delete_ne by congruence.
    apply lookup_insert_ne. congruence.
Qed.

Lemma disk_main_run path cfg fs (w : World) (st : State) :
  Disk.load_state path fs = Ok st ->
  exists fs', Disk.save_state path (fst (run_once cfg st w)) fs = Ok fs' /\
              Disk.main path cfg fs w = Ok (fs', snd (run_once cfg st w)).
Proof.
  intros Hload. unfold Disk.main, run_once. rewrite Hload.
  destruct (main_steps cfg {| world := w; ledger := st; logs := []; saved := None |})
    as (s' & -> & Hsaved & _).
  rewrite Hsaved. cbn [default fst snd].
  destruct (save_state_files path (ledger s') fs) as (fs' & Hsave & _).
  rewrite Hsave. eauto.
Qed.

(** X17.  Where [json.load] reads back what [json.dump] wrote and the
    file operations succeed: a missing state file is read as the empty
    ledger; a state file that [json.load] rejects stops the invocation
    before anything is fetched; and successive invocations on the state
    file compute what [run_seq] computes on the ledger, leaving the
    ledger in the state file, no temporary file behind, and every other
    file as it was. *)
Theorem state_file_runs path (cfgs : list Config) fs (w : World) :
  (forall st, json_load (json_dump st) = Ok st) ->
  (fs !! path = None -> Disk.load_state path fs = Ok empty_state) /\
  (forall e cfg, Disk.load_state path fs = Raise e ->
                 Disk.invocations path (cfg :: cfgs) fs w = Raise e) /\
  (forall st, Disk.load_state path fs = Ok st ->
     exists fs',
       Disk.invocations path cfgs fs w = Ok (fs', snd (run_seq cfgs st w)) /\
       Disk.load_state path fs' = Ok (fst (run_seq cfgs st w)) /\
       (cfgs <> [] -> fs' !! (path +:+ ".tmp") = None) /\
       forall p, p <> path -> p <> path +:+ ".tmp" -> fs' !! p = fs !! p).
Proof.
  intros Hcodec. split; [|split].
  - intros Hnone. unfold Disk.load_state. rewrite Hnone. reflexivity.
  - intros e cfg Hload. cbn [Disk.invocations]. unfold Disk.main.
    rewrite Hload. reflexivity.
  - revert fs w. induction cfgs as [|cfg cfgs IH]; intros fs w st Hload.
    + exists fs. cbn. split; [reflexivity|]. split; [exact Hload|].
      split; [intros []; reflexivity | auto].
    + cbn [Disk.invocations run_seq].
      destruct (disk_main_run path cfg fs w st Hload) as (fs1 & Hsave & ->).
      destruct (save_state_files path (fst (run_once cfg st w)) fs)
        as (fs1' & Hsave' & Hpath & Htmp & Hother).
      rewrite Hsave in Hsave'. injection Hsave' as <-.
      destruct (run_once cfg st w) as [st1 w1]. cbn [fst snd] in *.
      assert (Disk.load_state path fs1 = Ok st1) as Hload1.
      { unfold Disk.load_state. rewrite Hpath. apply Hcodec. }
      destruct (IH fs1 w1 st1 Hload1) as (fs2 & Hrun & Hload2 & Htmp2 & Hother2).
      exists fs2. split; [exact Hrun|]. split; [exact Hload2|]. split.
      * intros _. destruct cfgs as [|cfg' cfgs']; [|apply Htmp2; discriminate].
        cbn in Hrun. injection Hrun as <-. exact Htmp.
      * intros p Hp Hptmp. rewrite Hother2 by assumption. apply Hother; assumption.
Qed.

End DiskProperties.

Lemma state_file_runs_witness :
  exists fs',
    Disk.invocations (Json0 := plain_json) "prices_state.json"
                     [shop [plain_product] []; shop [plain_product] []]
                     ∅ two_price_world
    = Ok (fs', snd (run_seq [shop [plain_product] []; shop [plain_product] []]
                            empty_state two_price_world)) /\
    Disk.load_state (Json0 := plain_json) "prices_state.json" fs'
    = Ok (fst (run_seq [shop [plain_product] []; shop [plain_product] []]
                       empty_state two_price_world)) /\
    fs' !! "prices_state.json.tmp" = None.
Proof.
  destruct (state_file_runs (Json0 := plain_json) "prices_state.json"
              [shop [plain_product] []; shop [plain_product] []]
              ∅ two_price_world) as (_ & _ & H); [intros st; reflexivity|].
  destruct (H empty_state) as (fs' & Hrun & Hload & Htmp & _); [reflexivity|].
  exists fs'. split; [exact Hrun|]. split; [exact Hload|].
  apply Htmp. discriminate.
Defined.

Lemma run_lit_ci {A : Type} (w : string) (rest : Re.regex) (s : string)
      (g : option string) (k : Re.cont (A := A)) :
  startswith (lower w) (lower s) = false ->
  Re.run (Re.Seq (Re.lit_ci w) rest) s g k = None.
Proof.
  cbn [Re.run]. revert s. induction w as [|c w IH]; intros s H.
  - destruct s; discriminate.
  - destruct s as [|x s]; [reflexivity|].
    cbn [Re.lit_ci Re.run Re.ch_ci]. cbn [lower startswith] in H.
    rewrite ascii_eqb_sym in H.
    destruct (ascii_eqb (lower_char x) (lower_char c)); [|reflexivity].
    apply IH. exact H.
Qed.

Lemma search_lit_ci (w : string) (rest : Re.regex) (s : string) :
  str_in (lower w) (lower s) = false ->
  Re.search (Re.Seq (Re.lit_ci w) rest) s = None.
Proof.
  induction s as [|c s IH]; intros H.
  - cbn [Re.search]. unfold Re.match_at. rewrite run_lit_ci; [reflexivity|].
    cbn in H. apply orb_false_iff in H as [H _]. exact H.
  - change (str_in (lower w) (lower (String c s)))
      with (startswith (lower w) (lower (String c s)) || str_in (lower w) (lower s))
      in H.
    apply orb_false_iff in H as [H1 H2].
    cbn [Re.search]. unfold Re.match_at. rewrite run_lit_ci by exact H1.
    apply IH. exact H2.
Qed.

Lemma finditer_none (r : Re.regex) (s : string) :
  Re.search r s = None -> Re.finditer r s = [].
Proof.
  intros H. unfold Re.finditer. destruct (String.length s); [reflexivity|].
  cbn [Re.finditer_fuel]. rewrite H. reflexivity.
Qed.

Lemma key_prices_nonneg (blob k : string) :
  Forall (fun p => (0 <= p)%Q) (key_prices blob k).
Proof.
  apply Forall_forall. intros p Hp. unfold key_prices in Hp.
  apply list_elem_of_omap in Hp as (pm & _ & Hp).
  eapply extract_price_number_nonneg; eauto.
Qed.

Lemma jsonld_prices_nonneg (text : string) :
  Forall (fun p => (0 <= p)%Q) (jsonld_prices text).
Proof.
  apply Forall_forall. intros p Hp. apply list_elem_of_In in Hp.
  unfold jsonld_prices in Hp. apply in_flat_map in Hp as (m & _ & Hp).
  unfold blob_prices in Hp. apply in_flat_map in Hp as (k & _ & Hp).
  pose proof (key_prices_nonneg (group1_text m) k) as H.
  rewrite Forall_forall in H. apply H, list_elem_of_In. exact Hp.
Qed.

(** X18.  A page without a script tag has no JSON-LD price, a page with
    neither a property= nor a name= attribute has no Open Graph price,
    and neither source ever gives a negative price. *)
Theorem structured_data_absent (text : string) :
  (str_in "<script" (lower text) = false -> jsonld_prices text = []) /\
  (str_in "property=" (lower text) = false ->
   str_in "name=" (lower text) = false -> og_price text = None) /\
  Forall (fun p => (0 <= p)%Q) (jsonld_prices text) /\
  (forall v, og_price text = Some v -> (0 <= v)%Q).
Proof.
  split; [|split; [|split]].
  - intros H. unfold jsonld_prices.
    rewrite (finditer_none jsonld_script_re text); [reflexivity|].
    apply (search_lit_ci "<script"). exact H.
  - intros Hp Hn. unfold og_price.
    assert (Re.search og_re text = None) as ->
        by (apply (search_lit_ci "property="); exact Hp).
    assert (Re.search twitter_re text = None) as ->
        by (apply (search_lit_ci "name="); exact Hn).
    reflexivity.
  - apply jsonld_prices_nonneg.
  - intros v. unfold og_price.
    repeat case_match; try discriminate; apply extract_price_number_nonneg.
Qed.

Lemma structured_data_absent_witness :
  jsonld_prices bare_page = [] /\ og_price bare_page = None /\
  (0 <= 25 # 2)%Q.
Proof.
  destruct (structured_data_absent bare_page) as (Hjl & Hog & _).
  destruct (structured_data_absent og_page) as (_ & _ & _ & Hpos).
  split; [apply Hjl; reflexivity|].
  split; [apply Hog; reflexivity|].
  apply (Hpos (25 # 2)%Q). vm_compute. reflexivity.
Defined.

Section Skipped.

Context {World Node : Type} `{!Collaborators World Node}.
Implicit Types (s : @Sys World) (prod : Product) (cfg : Config).

(** X19.  A pass that finds no price, or whose fetch raises, logs one
    event, leaves the world as the fetch left it, and leaves the entry
    of the product as it was, or the empty one. *)
Theorem unpriced_pass cfg prod s (r : result (option Q)) s1 :
  let pid := pid_of prod in
  fetch_product_price prod (with_ledger s (touched pid (ledger s))) = (r, s1) ->
  (forall v, r <> Ok (Some v)) ->
  process_product cfg prod s
  = (Ok tt,
     {| world := world s1;
        ledger := touched pid (ledger s);
        logs := logs s ++ [match r with
                           | Raise e => LogFetchFailed pid e
                           | Ok _ => LogNoPrice pid
                           end];
        saved := saved s |}) /\
  products (touched pid (ledger s)) !! pid = Some (entry_of (ledger s) pid).
Proof.
  intros pid H Hr. split; [|apply lookup_touched_eq].
  pose proof (fetch_product_price_frame prod _ r s1 H) as [(Hl & Hlog & Hs) _].
  cbn in Hl, Hlog, Hs.
  destruct r as [[v|]|e]; [destruct (Hr v eq_refl)| |].
  - rewrite (process_product_no_price cfg prod s s1 H).
    unfold with_log. fold pid. rewrite Hl, Hlog, Hs. reflexivity.
  - rewrite (process_product_fetch_failed cfg prod s e s1 H).
    unfold with_log. fold pid. rewrite Hl, Hlog, Hs. reflexivity.
Qed.

End Skipped.

Lemma unpriced_pass_witness :
  process_product (shop [plain_product] []) plain_product
                  (start (toy_world [Ok bare_page] [] true) first_ledger)
  = (Ok tt,
     {| world := toy_world [] [] true; ledger := first_ledger;
        logs := [LogNoPrice "foil"]; saved := None |}) /\
  products first_ledger !! "foil"
  = Some (entry_of first_ledger "foil").
Proof.
  destruct (unpriced_pass (shop [plain_product] []) plain_product
              (start (toy_world [Ok bare_page] [] true) first_ledger)
              (Ok None)
              (start (toy_world [] [] true) first_ledger)) as [Hrun Hentry].
  - vm_compute. reflexivity.
  - discriminate.
  - split; [rewrite Hrun; vm_compute; reflexivity|].
    vm_compute in Hentry. vm_compute. exact Hentry.
Defined.

Lemma extract_price_number_edges_witness :
  extract_price_number "n/a" = None /\
  extract_price_number "$1 299.50" = extract_price_number "$1299.50".
Proof.
  destruct extract_price_number_edges as [Hnone Hjunk].
  split.
  - apply (Hnone "n/a"). reflexivity.
  - apply (Hjunk "$1" " " "299.50"). reflexivity.
Defined.

Lemma extract_items_spec_witness :
  (("new board" : string) <> EmptyString \/ new_url <> EmptyString) /\
  strip "new board" = "new board" /\
  nonneg_opt (Some 100%Q).
Proof.
  pose proof (extract_items_spec two_cards capped_search) as H.
  rewrite two_cards_items in H.
  destruct H as (sel & cards & _ & _ & _ & Hall).
  destruct (Hall "new board" new_url (Some 100%Q)) as (Hne & Hstrip & Hpos & _).
  - right. left. reflexivity.
  - split; [exact Hne|]. split; [exact Hstrip | exact Hpos].
Defined.

Lemma search_used_market_exact_witness :
  text_ok "new board" [] [] = true /\
  (new_url = EmptyString \/ new_url ∉ (list_to_set [old_url] : gset string)) /\
  trigger capped_search (reference 0) (Some 100%Q) = Some (BelowCeiling 2300%Q).
Proof.
  pose proof (search_used_market_exact capped_search (list_to_set [old_url])
                (reference 0)
                (start (toy_world [] [Ok two_cards] true) seen_ledger)) as H.
  cbv zeta in H.
  assert (fetch_doc (s_url capped_search) (user_agent (s_user_agent capped_search))
                    (timeout (s_timeout capped_search))
                    (world (start (toy_world [] [Ok two_cards] true) seen_ledger))
          = (Ok two_cards, toy_world [] [] true)) as Hdoc by reflexivity.
  rewrite (search_used_market_found capped_search (list_to_set [old_url])
             (reference 0) (start (toy_world [] [Ok two_cards] true) seen_ledger)
             two_cards (toy_world [] [] true) two_items Hdoc two_cards_items)
    in H.
  destruct H as (_ & doc & cands & _ & _ & _ & Hiff).
  destruct (proj1 (Hiff new_match)) as (_ & Hok & Hurl & Htrig).
  - vm_compute. left. reflexivity.
  - split; [exact Hok|]. split; [exact Hurl | exact Htrig].
Defined.
